(** * Generic-RAG: a shallow embedding of the ingestion pipeline's core

    The first half of the file holds the definitions, one module per
    Python source:

    - [PyStr]               the [str] methods the sources call ([lower],
                            [upper], [strip], [split], [splitlines], the
                            [in] test, slices) and the two [re.sub] calls;
    - [Settings]            [config/settings.py];
    - [Chunker]             [bots/bot2_chunker.py];
    - [FinancialFacts]      [bots/bot8_financial_facts.py];
    - [Re]                  the part of [re] behind [re.finditer];
    - [ReferenceExtractor]  [bots/bot4_reference_extractor.py];
    - [Json], [Neo4j]       JSON values, and [database/neo4j_client.py]
                            over a store of nodes and edges;
    - [Extractor]           [bots/bot3_extractor.py];
    - [CommunityDetection]  [bots/bot7_community_detection.py];
    - [GlobalQuery]         [query/global_query_v4.py];
    - [Upserts], [Fixtures], [Documents], [Library], [Normal]
                            stores, backends and predicates the
                            statements are written with.

    The second half holds the properties.

    Text is a list of 8-bit code points.  The character classes
    ([isspace], [isdigit], line boundaries, the [\s], [\d] and [\w] of
    [re]) are those of Python 3 on the code points 0..255, and so is
    [lower].  [upper] leaves U+00B5 and U+00FF alone (their upper-case
    forms are code points above 255); no upper-case form of a code point
    above 127 is an ASCII letter except that of U+00DF, which is
    modelled ("SS").  The store's engine, the tokenizer, the language
    model providers, [json.loads] and the Louvain routines are
    collaborators: parameters of the sections that use them. *)

From Stdlib Require Import ZArith List Ascii String PrimFloat Uint63 Bool Lia.
From Stdlib Require Import DecimalString.
From stdpp Require Import gmap strings list fin_maps.
Import ListNotations.

Set Warnings "-register-all,-inexact-float".
Local Open Scope Z_scope.
Local Open Scope list_scope.

(* ===================================================================== *)
(** * Python strings                                                       *)
(* ===================================================================== *)

Module PyStr.

Definition str := list ascii.

Definition lit (s : string) : str := list_ascii_of_string s.

Definition code (c : ascii) : N := N_of_ascii c.

Definition between (lo hi : N) (c : ascii) : bool :=
  ((lo <=? code c) && (code c <=? hi))%N.

Definition code_is (n : N) (c : ascii) : bool := (code c =? n)%N.

(** [str.isspace] on one code point (also the [\s] of [re]). *)
Definition isspace (c : ascii) : bool :=
  between 9 13 c || between 28 32 c || code_is 133 c || code_is 160 c.

(** The line boundaries of [str.splitlines]. *)
Definition is_linebreak (c : ascii) : bool :=
  between 10 13 c || between 28 30 c || code_is 133 c.

(** [str.isdigit] on one code point: the decimal digits and the
    superscripts U+00B2, U+00B3, U+00B9. *)
Definition isdigit_char (c : ascii) : bool :=
  between 48 57 c || code_is 178 c || code_is 179 c || code_is 185 c.

(** The [\d] of [re]: decimal digits only. *)
Definition is_decimal (c : ascii) : bool := between 48 57 c.

(** The [\w] of [re] on a [str] pattern. *)
Definition is_word (c : ascii) : bool :=
  between 48 57 c || between 65 90 c || code_is 95 c || between 97 122 c
  || code_is 170 c || code_is 178 c || code_is 179 c || code_is 181 c || code_is 185 c || code_is 186 c
  || between 188 190 c || between 192 214 c || between 216 246 c
  || between 248 255 c.

Definition shift_code (d : Z) (c : ascii) : ascii :=
  ascii_of_N (Z.to_N (Z.of_N (code c) + d)).

Definition lower_char (c : ascii) : ascii :=
  if between 65 90 c || (between 192 222 c && negb (code_is 215 c))
  then shift_code 32 c else c.

Definition upper_char (c : ascii) : str :=
  if between 97 122 c || (between 224 254 c && negb (code_is 247 c))
  then [shift_code (-32) c]
  else if code_is 223 c then lit "SS"
  else [c].

Definition lower (s : str) : str := map lower_char s.

Definition upper (s : str) : str := flat_map upper_char s.

Definition str_eqb (a b : str) : bool := bool_decide (a = b).

Fixpoint startswith (p s : str) : bool :=
  match p, s with
  | [], _ => true
  | _ :: _, [] => false
  | a :: p', b :: s' => bool_decide (a = b) && startswith p' s'
  end.

(** [needle in hay]. *)
Fixpoint contains (needle hay : str) : bool :=
  startswith needle hay ||
  match hay with
  | [] => false
  | _ :: hay' => contains needle hay'
  end.

(** [any(k in s for k in ks)]. *)
Definition any_in (ks : list str) (s : str) : bool :=
  existsb (fun k => contains k s) ks.

(** [s in {...}] for a set literal of strings. *)
Definition mem (s : str) (ks : list str) : bool :=
  existsb (str_eqb s) ks.

Fixpoint lstrip (s : str) : str :=
  match s with
  | [] => []
  | c :: s' => if isspace c then lstrip s' else s
  end.

Fixpoint rstrip (s : str) : str :=
  match s with
  | [] => []
  | c :: s' =>
      match rstrip s' with
      | [] => if isspace c then [] else [c]
      | r => c :: r
      end
  end.

Definition strip (s : str) : str := rstrip (lstrip s).

(** [sep.join(parts)]. *)
Fixpoint join (sep : str) (parts : list str) : str :=
  match parts with
  | [] => []
  | [x] => x
  | x :: rest => x ++ sep ++ join sep rest
  end.

(** [s.split()]: the maximal runs of non-whitespace. *)
Fixpoint split_ws (s : str) : list str :=
  match s with
  | [] => []
  | c :: s' =>
      if isspace c then split_ws s'
      else match s' with
           | [] => [[c]]
           | d :: _ =>
               if isspace d then [c] :: split_ws s'
               else match split_ws s' with
                    | w :: ws => (c :: w) :: ws
                    | [] => [[c]]
                    end
           end
  end.

(** [s.splitlines()]: lines without their terminators; CR LF is one
    terminator; a terminator at the very end opens no further line. *)
Fixpoint splitlines (s : str) : list str :=
  match s with
  | [] => []
  | c :: s' =>
      if is_linebreak c then
        match s' with
        | d :: s'' => if code_is 13 c && code_is 10 d then [] :: splitlines s''
                      else [] :: splitlines s'
        | [] => [[]]
        end
      else match splitlines s' with
           | [] => [[c]]
           | ln :: rest => (c :: ln) :: rest
           end
  end.

(** [s.split(d, 1)] when [d in s]: the text before and after the first
    [d]; [None] when [d] does not occur. *)
Fixpoint split_once (d : ascii) (s : str) : option (str * str) :=
  match s with
  | [] => None
  | c :: s' =>
      if bool_decide (c = d) then Some ([], s')
      else match split_once d s' with
           | Some (a, b) => Some (c :: a, b)
           | None => None
           end
  end.

(** [s.isdigit()]: non-empty and every character a digit. *)
Definition isdigit (s : str) : bool :=
  match s with
  | [] => false
  | _ => forallb isdigit_char s
  end.

(** A slice [l[a:b]] with Python's treatment of negative and
    out-of-range bounds. *)
Definition clamp_index (n i : Z) : Z :=
  if i <? 0 then Z.max (i + n) 0 else Z.min i n.

Definition slice {A} (a b : Z) (l : list A) : list A :=
  let n := Z.of_nat (length l) in
  let a' := clamp_index n a in
  let b' := clamp_index n b in
  firstn (Z.to_nat (b' - a')) (skipn (Z.to_nat a') l).

(** The substitution [re.sub(r"[class]{min,}", repl, s)]: a greedy
    match started at the first character of a run takes the whole run, so
    every maximal run of at least [min] characters of the class is
    replaced, and shorter runs are kept.  [run] is the part of the current
    run already read. *)
Fixpoint sub_runs (cls : ascii -> bool) (min : nat) (repl : str)
                  (run : str) (s : str) : str :=
  let flush := if (min <=? length run)%nat then repl else run in
  match s with
  | [] => flush
  | c :: s' =>
      if cls c then sub_runs cls min repl (run ++ [c]) s'
      else flush ++ c :: sub_runs cls min repl [] s'
  end.

End PyStr.

Export PyStr.
Coercion PyStr.lit : string >-> PyStr.str.

Definition LF : ascii := ascii_of_N 10.

(* ===================================================================== *)
(** * Exceptions                                                           *)
(* ===================================================================== *)

(** The exceptions the modelled code can meet.  All of them derive from
    Python's [Exception], which is what the [except Exception] handlers of
    the sources catch. *)
Inductive exn : Type :=
| ValueError (msg : string)
| RuntimeError (msg : string)
| AttributeError
| TypeError
| IndexError
| JSONDecodeError
| ImportError
| KeyError (key : string)
| ProviderError (detail : string).

Inductive result (A : Type) : Type :=
| Ok (a : A)
| Raise (e : exn).
Arguments Ok {A} a.
Arguments Raise {A} e.

Definition bind {A B} (r : result A) (k : A -> result B) : result B :=
  match r with
  | Ok a => k a
  | Raise e => Raise e
  end.

Declare Scope exc_scope.
Delimit Scope exc_scope with exc.
Notation "'do' x <- r ; k" := (bind r (fun x => k))
  (at level 10, x name, r at level 100, k at level 200) : exc_scope.

(* ===================================================================== *)
(** * config/settings.py                                                   *)
(* ===================================================================== *)

Module Settings.

Definition MAX_CHUNK_SIZE : Z := 800.

(** [CHUNK_SIZE = int(os.getenv("CHUNK_SIZE", 600))] followed by the
    import-time guard; [env] is the value of the environment variable
    when it is set (and an integer). *)
Definition CHUNK_SIZE (env : option Z) : result Z :=
  let v := match env with Some n => n | None => 600 end in
  if MAX_CHUNK_SIZE <? v
  then Raise (ValueError "CHUNK_SIZE exceeds MAX_CHUNK_SIZE")
  else Ok v.

Definition CHUNK_OVERLAP (env : option Z) : Z :=
  match env with Some n => n | None => 100 end.

End Settings.

(* ===================================================================== *)
(** * bots/bot2_chunker.py                                                 *)
(* ===================================================================== *)

Module Chunker.

Import Settings.

Definition is_newline (c : ascii) : bool := code_is 10 c.

(** The class [[ \t]]. *)
Definition is_blank (c : ascii) : bool := code_is 32 c || code_is 9 c.

Definition normalize_text (text : str) : str :=
  let text := sub_runs is_newline 3 [LF; LF] [] text in
  let text := sub_runs is_blank 2 " " [] text in
  let lines := map rstrip (splitlines text) in
  strip (join [LF] lines).

Section Encoder.

(** The tokenizer ([tiktoken]) is a collaborator: any [encode] and
    [decode]. *)
Variable token : Type.
Variable encode : str -> list token.
Variable decode : list token -> str.

Definition count_tokens (text : str) : Z :=
  Z.of_nat (length (encode text)).

(** The [while] loop of [chunk_by_tokens]; [None] when [fuel]
    iterations were not enough. *)
Fixpoint chunk_loop (fuel : nat) (tokens : list token)
         (chunk_size overlap : Z) (start : Z) (chunks : list str)
  : option (result (list str)) :=
  match fuel with
  | O => None
  | S fuel' =>
      let n := Z.of_nat (length tokens) in
      if start <? n then
        let end_ := Z.min (start + chunk_size) n in
        let chunk_tokens := slice start end_ tokens in
        if MAX_CHUNK_SIZE <? Z.of_nat (length chunk_tokens)
        then Some (Raise (ValueError "Chunk exceeds MAX_CHUNK_SIZE safety limit"))
        else
          let chunks := chunks ++ [decode chunk_tokens] in
          if end_ =? n then Some (Ok chunks)
          else chunk_loop fuel' tokens chunk_size overlap
                          (Z.max (end_ - overlap) (start + 1)) chunks
      else Some (Ok chunks)
  end.

Definition chunk_by_tokens (text : str) (chunk_size overlap : Z)
  : option (result (list str)) :=
  let tokens := encode text in
  if Z.of_nat (length tokens) <=? chunk_size then Some (Ok [text])
  else chunk_loop (S (length tokens)) tokens chunk_size overlap 0 [].

End Encoder.

(** A tokenizer to run the chunker on: one token per character. *)
Definition char_encode (s : str) : list N := map code s.
Definition char_decode (ts : list N) : str := map ascii_of_N ts.

End Chunker.

(* ===================================================================== *)
(** * bots/bot8_financial_facts.py                                         *)
(* ===================================================================== *)

Module FinancialFacts.

Definition underscore : ascii := ascii_of_N 95.

(** [parse_column]; the pair [(None, None)] is the rejection. *)
Definition parse_column (col : str) : option str * option str :=
  match split_once underscore col with
  | None => (None, None)                         (* "_" not in col *)
  | Some (scope, year) =>
      if negb (isdigit year) then (None, None)
      else if negb (mem (upper scope) ["GROUP" : str; "COMPANY" : str])
      then (None, None)
      else (Some (upper scope), Some year)
  end.

(** Truthiness of an optional string ([None] and [""] are false). *)
Definition truthy (v : option str) : bool :=
  match v with
  | Some (_ :: _) => true
  | _ => false
  end.

(** [d[k] = v] on a dict kept in insertion order. *)
Fixpoint dict_set {V} (k : str) (v : V) (d : list (str * V)) : list (str * V) :=
  match d with
  | [] => [(k, v)]
  | (k', v') :: d' =>
      if str_eqb k' k then (k, v) :: d' else (k', v') :: dict_set k v d'
  end.

(** One iteration of the loop that fills [col_meta] in
    [extract_facts_from_tables]. *)
Definition col_meta_step (col_meta : list (str * (str * str))) (col : str)
  : list (str * (str * str)) :=
  match parse_column col with
  | (Some scope, Some year) =>
      if truthy (Some scope) && truthy (Some year)
      then dict_set (lower col) (scope, year) col_meta
      else col_meta
  | _ => col_meta
  end.

Definition col_meta_of (columns : list str) : list (str * (str * str)) :=
  fold_left col_meta_step columns [].

End FinancialFacts.

(* ===================================================================== *)
(** * The part of [re] the sources use                                     *)
(* ===================================================================== *)

(** A backtracking matcher in continuation-passing style: greedy
    repetition, one capture group, the word-boundary assertion, leftmost
    match first, as Python's [re] does for these constructs. *)
Module Re.

Inductive regex : Type :=
| Eps
| Chr (cls : ascii -> bool)      (* one character of a class *)
| Seq (r1 r2 : regex)
| Star (r : regex)               (* r*  (greedy) *)
| Group (r : regex)              (* ( r )  group 1 *)
| WordB.                         (* \b *)

Definition Plus (r : regex) : regex := Seq r (Star r).

(** A position in the subject: the character before it, what is left,
    and its index. *)
Record pos : Type := { prev : option ascii; rest : str; idx : nat }.

Definition start_of (s : str) : pos := {| prev := None; rest := s; idx := 0 |}.

Definition advance (p : pos) : pos :=
  match rest p with
  | [] => p
  | c :: s => {| prev := Some c; rest := s; idx := S (idx p) |}
  end.

Definition word_at (o : option ascii) : bool :=
  match o with Some c => is_word c | None => false end.

Definition at_boundary (p : pos) : bool :=
  xorb (word_at (prev p)) (word_at (head (rest p))).

Definition cap : Type := option (nat * nat).

Section Matcher.
Context {R : Type}.

(** [r*]: one more iteration first, the continuation when that fails.
    An iteration that consumes nothing is not repeated. *)
Fixpoint star (step : pos -> cap -> (pos -> cap -> option R) -> option R)
         (fuel : nat) (p : pos) (g : cap) (k : pos -> cap -> option R)
  : option R :=
  match fuel with
  | O => k p g
  | S fuel' =>
      match step p g (fun p' g' =>
               if (idx p <? idx p')%nat then star step fuel' p' g' k
               else None) with
      | Some x => Some x
      | None => k p g
      end
  end.

Fixpoint rmatch (r : regex) (fuel : nat) (p : pos) (g : cap)
         (k : pos -> cap -> option R) : option R :=
  match r with
  | Eps => k p g
  | Chr cls =>
      match rest p with
      | c :: _ => if cls c then k (advance p) g else None
      | [] => None
      end
  | Seq r1 r2 => rmatch r1 fuel p g (fun p' g' => rmatch r2 fuel p' g' k)
  | Star r1 => star (rmatch r1 fuel) fuel p g k
  | Group r1 => rmatch r1 fuel p g (fun p' _ => k p' (Some (idx p, idx p')))
  | WordB => if at_boundary p then k p g else None
  end.
End Matcher.

(** A match object: [start()], [end()] and the span of group 1. *)
Record match_obj : Type := { m_start : nat; m_end : nat; m_group : cap }.

Definition match_at (r : regex) (p : pos) : option match_obj :=
  rmatch r (S (length (rest p))) p None
         (fun p' g => Some {| m_start := idx p; m_end := idx p'; m_group := g |}).

Fixpoint advance_to (n : nat) (p : pos) : pos :=
  match n with
  | O => p
  | S n' => if (idx p <? idx (advance p))%nat then advance_to n' (advance p) else p
  end.

(** [re.finditer]: the leftmost match from each position on; the search
    goes on where the match ended (one further after an empty match). *)
Fixpoint finditer_from (fuel : nat) (r : regex) (p : pos) : list match_obj :=
  match fuel with
  | O => []
  | S fuel' =>
      match match_at r p with
      | Some m =>
          m :: (if (idx p <? m_end m)%nat
                then finditer_from fuel' r (advance_to (m_end m - idx p) p)
                else match rest p with
                     | [] => []
                     | _ => finditer_from fuel' r (advance p)
                     end)
      | None =>
          match rest p with
          | [] => []
          | _ => finditer_from fuel' r (advance p)
          end
      end
  end.

Definition finditer (r : regex) (s : str) : list match_obj :=
  finditer_from (S (length s)) r (start_of s).

(** [match.group(1)]. *)
Definition group1 (s : str) (m : match_obj) : str :=
  match m_group m with
  | Some (a, b) => firstn (b - a) (skipn a s)
  | None => []
  end.

(** A literal of lower-case letters under [re.IGNORECASE]. *)
Definition ichar (c : ascii) : regex :=
  Chr (fun x => bool_decide (lower_char x = c)).

Fixpoint iword (w : str) : regex :=
  match w with
  | [] => Eps
  | c :: w' => Seq (ichar c) (iword w')
  end.

Definition digits : regex := Plus (Chr is_decimal).
Definition spaces1 : regex := Plus (Chr isspace).
Definition dot : regex := Chr (code_is 46).

(** [\d+(?:\.\d+)*] *)
Definition dotted_number : regex := Seq digits (Star (Seq dot digits)).

(** [[A-Z]] under [re.IGNORECASE]. *)
Definition letter : regex := Chr (fun c => between 65 90 c || between 97 122 c).

End Re.

(* ===================================================================== *)
(** * bots/bot4_reference_extractor.py                                     *)
(* ===================================================================== *)

Module ReferenceExtractor.

Import Re.

Record reference : Type := {
  reference_id : str;
  reference_type : str;
  target_locator : str;
  from_section_id : str;
  ref_doc_id : str;
  reason : str
}.

(** [\b<word>\s+(<locator>)\b] *)
Definition keyword_pattern (word : str) (locator : regex) : regex :=
  Seq WordB (Seq (iword word) (Seq spaces1 (Seq (Group locator) WordB))).

Definition patterns : list (regex * str) :=
  [ (keyword_pattern "page" digits, "PAGE" : str);
    (keyword_pattern "section" dotted_number, "SECTION" : str);
    (keyword_pattern "appendix" letter, "APPENDIX" : str);
    (keyword_pattern "table" dotted_number, "TABLE" : str);
    (keyword_pattern "figure" dotted_number, "FIGURE" : str);
    (* the abbreviation: \b fig \. \s* ( dotted number ) \b *)
    (Seq WordB (Seq (iword "fig") (Seq dot (Seq (Star (Chr isspace))
       (Seq (Group dotted_number) WordB)))), "FIGURE" : str) ].

Definition cue_words : list str :=
  ["see" : str; "refer" : str; "defined" : str; "detailed" : str;
   "explained" : str; "shown" : str].

Definition _infer_reference_reason (context : str) : str :=
  if contains "defined" context then "DEFINED_IN"
  else if any_in ["detailed" : str; "explained" : str; "described" : str] context
  then "DETAILED_IN"
  else "REFERENCED_IN".

(** [text[max(0, start - 60): min(len(text), end + 60)].lower()] *)
Definition window (text : str) (m : match_obj) : str :=
  let s := Z.of_nat (m_start m) in
  let e := Z.of_nat (m_end m) in
  lower (slice (Z.max 0 (s - 60)) (Z.min (Z.of_nat (length text)) (e + 60)) text).

Definition colon : str := ":".

Definition make_reference (text section_id doc_id ref_type : str)
           (m : match_obj) : reference :=
  let locator := group1 text m in
  {| reference_id := doc_id ++ colon ++ section_id ++ colon ++ ref_type
                     ++ colon ++ locator;
     reference_type := ref_type;
     target_locator := locator;
     from_section_id := section_id;
     ref_doc_id := doc_id;
     reason := _infer_reference_reason (window text m) |}.

(** The context gate of the inner loop: a match is kept when a cue word
    occurs in its window. *)
Definition gate (text : str) (m : match_obj) : bool :=
  any_in cue_words (window text m).

Fixpoint dedup_loop (seen : list str) (refs : list reference) : list reference :=
  match refs with
  | [] => []
  | r :: refs' =>
      if mem (reference_id r) seen then dedup_loop seen refs'
      else r :: dedup_loop (reference_id r :: seen) refs'
  end.

Definition _deduplicate_references (refs : list reference) : list reference :=
  dedup_loop [] refs.

Definition candidates (text section_id doc_id : str) : list reference :=
  flat_map (fun '(pattern, ref_type) =>
    map (make_reference text section_id doc_id ref_type)
        (List.filter (gate text) (finditer pattern text)))
    patterns.

Definition extract_cross_section_references (text section_id doc_id : str)
  : list reference :=
  _deduplicate_references (candidates text section_id doc_id).

End ReferenceExtractor.

(* ===================================================================== *)
(** * JSON values and the dynamic operations the sources apply to them     *)
(* ===================================================================== *)

Module Json.

(** What [json.loads] returns; an object is a dict in insertion order. *)
Inductive json : Type :=
| JNull
| JBool (b : bool)
| JInt (n : Z)
| JFloat (f : float)
| JStr (s : str)
| JList (items : list json)
| JObj (fields : list (str * json)).

Fixpoint assoc (k : str) (fields : list (str * json)) : option json :=
  match fields with
  | [] => None
  | (k', v) :: fields' => if str_eqb k' k then Some v else assoc k fields'
  end.

(** [v.get(key, default)]: only a dict has [get]. *)
Definition py_get (v : json) (key : str) (default : json) : result json :=
  match v with
  | JObj fields =>
      Ok (match assoc key fields with Some x => x | None => default end)
  | _ => Raise AttributeError
  end.

(** Truthiness. *)
Definition py_truthy (v : json) : bool :=
  match v with
  | JNull => false
  | JBool b => b
  | JInt n => negb (n =? 0)
  | JFloat f => negb (PrimFloat.eqb f 0%float)
  | JStr s => match s with [] => false | _ => true end
  | JList l => match l with [] => false | _ => true end
  | JObj l => match l with [] => false | _ => true end
  end.

(** [v.upper()]: only a string has [upper]. *)
Definition py_upper (v : json) : result str :=
  match v with
  | JStr s => Ok (upper s)
  | _ => Raise AttributeError
  end.

End Json.

(* ===================================================================== *)
(** * database/neo4j_client.py                                             *)
(* ===================================================================== *)

(** The graph store is modelled by what its MERGE / MATCH statements
    read and write: nodes by their natural key, edges as sets of key
    pairs. *)
Module Neo4j.

Import Json.

Record entity : Type := {
  e_type : str;
  e_description : str;
  e_salience : str;
  e_created_at : Z
}.

Record section : Type := {
  s_title : option str;
  s_level : Z;
  s_page_start : option Z;
  s_page_end : option Z
}.

Record community : Type := {
  c_size : Z;
  c_modularity : float;
  c_mode : str
}.

(** A node key: [(doc_id, name)] for an Entity, [(doc_id, section_id)]
    for a Section, [(doc_id, community_id)] for a Community. *)
Definition key : Type := (str * str)%type.

Record graph : Type := {
  entities : gmap key entity;
  (** Entity -[type]-> Entity, by (doc_id, source, target, type), with
      the edge's description. *)
  relationships : gmap (str * str * str * str) json;
  sections : gmap key section;
  (** Section -[:MENTIONS]-> Entity *)
  mentions : gset (key * key);
  (** Entity -[:NORMALIZED_TO]-> FinancialConcept, by concept name *)
  normalized_to : gset (key * str);
  (** Section -[:APPLIES_TO]-> TimePeriod, by label *)
  applies_to : gset (key * str);
  (** Section -[:REFERS_TO]-> Reference -[:POINTS_TO]-> Section, by
      reference id *)
  reference_paths : gset (key * str * key);
  communities : gmap key community;
  (** Community -[:CONTAINS]-> Section *)
  contains_section : gset (key * key)
}.

Definition empty_graph : graph :=
  {| entities := ∅; relationships := ∅; sections := ∅; mentions := ∅;
     normalized_to := ∅; applies_to := ∅; reference_paths := ∅;
     communities := ∅; contains_section := ∅ |}.

Definition set_entities (g : graph) (m : gmap key entity) : graph :=
  {| entities := m; relationships := relationships g; sections := sections g;
     mentions := mentions g; normalized_to := normalized_to g;
     applies_to := applies_to g; reference_paths := reference_paths g;
     communities := communities g; contains_section := contains_section g |}.

Definition set_relationships (g : graph) (m : gmap (str * str * str * str) json)
  : graph :=
  {| entities := entities g; relationships := m; sections := sections g;
     mentions := mentions g; normalized_to := normalized_to g;
     applies_to := applies_to g; reference_paths := reference_paths g;
     communities := communities g; contains_section := contains_section g |}.

Definition set_communities (g : graph) (m : gmap key community) : graph :=
  {| entities := entities g; relationships := relationships g;
     sections := sections g; mentions := mentions g;
     normalized_to := normalized_to g; applies_to := applies_to g;
     reference_paths := reference_paths g;
     communities := m; contains_section := contains_section g |}.

Definition set_contains_section (g : graph) (m : gset (key * key)) : graph :=
  {| entities := entities g; relationships := relationships g;
     sections := sections g; mentions := mentions g;
     normalized_to := normalized_to g; applies_to := applies_to g;
     reference_paths := reference_paths g;
     communities := communities g; contains_section := m |}.

(** The ON MATCH branch of [create_entity]'s MERGE. *)
Definition on_match (e : entity) (description salience : str) : entity :=
  {| e_type := e_type e;
     e_description :=
       if (length (e_description e) <? length description)%nat
       then description else e_description e;
     e_salience :=
       if str_eqb (e_salience e) "SUPPORTING"
          && mem salience ["CORE" : str; "IMPORTANT" : str]
       then salience else e_salience e;
     e_created_at := e_created_at e |}.

(** The ON CREATE branch; [now] is the store's [datetime()]. *)
Definition on_create (entity_type description salience : str) (now : Z) : entity :=
  {| e_type := entity_type; e_description := description;
     e_salience := salience; e_created_at := now |}.

(** [create_entity]: the new store and the returned
    [{"name": ..., "salience": ...}]. *)
Definition create_entity (name entity_type description salience doc_id : str)
           (now : Z) (g : graph) : graph * option (str * str) :=
  let k := (doc_id, name) in
  let e := match entities g !! k with
           | Some old => on_match old description salience
           | None => on_create entity_type description salience now
           end in
  (set_entities g (<[k := e]> (entities g)), Some (name, e_salience e)).

Definition allowed : list str :=
  ["DEFINES" : str; "DETAILS" : str; "REFERS_TO" : str; "ASSOCIATED_WITH" : str].

(** [create_relationship]: the two MATCHes must both find their Entity
    for the MERGE to write; the function returns [True] either way. *)
Definition create_relationship (source_name target_name rel_type : str)
           (description : json) (doc_id : str) (g : graph) : graph * bool :=
  let rel_type := upper rel_type in
  if negb (mem rel_type allowed) then (g, false)
  else
    match entities g !! (doc_id, source_name),
          entities g !! (doc_id, target_name) with
    | Some _, Some _ =>
        (set_relationships g
           (<[(doc_id, source_name, target_name, rel_type) := description]>
              (relationships g)), true)
    | _, _ => (g, true)
    end.

Definition default_doc_id : str := "doc-1".

End Neo4j.

(* ===================================================================== *)
(** * bots/bot3_extractor.py                                               *)
(* ===================================================================== *)

Module Extractor.

Import Json Neo4j.
Local Open Scope exc_scope.

(** A chat message: role and content. *)
Definition message : Type := (str * str)%type.

(** A completion: the [message.content] of each of its [choices]
    ([None] when the content is null). *)
Record response : Type := { choices : list (option str) }.

(** A provider client answers a request or raises. *)
Definition provider : Type := list message -> result response.

Inductive provider_name : Type := OpenAI | Groq.

(** One request sent to a provider. *)
Definition call : Type := (provider_name * list message)%type.

Record extraction : Type := {
  ex_entities : list json;
  ex_relationships : list json
}.

Definition empty_extraction : extraction :=
  {| ex_entities := []; ex_relationships := [] |}.

Definition _safe_list (v : json) : list json :=
  match v with
  | JList l => l
  | _ => []
  end.

Definition space : str := " ".

(** [normalize_name]: a falsy name gives [""]; a truthy one must be a
    string. *)
Definition normalize_name (name : json) : result str :=
  if py_truthy name then
    match name with
    | JStr s => Ok (join space (split_ws (strip s)))
    | _ => Raise AttributeError
    end
  else Ok [].

Definition ALLOWED_REL_TYPES : list str :=
  ["DEFINES" : str; "DETAILS" : str; "REFERS_TO" : str; "ASSOCIATED_WITH" : str].

Section Backend.

(** The module-level clients (absent without an API key), the prompt
    constant and [json.loads]. *)
Variable openai_client : option provider.
Variable groq_client : option provider.
Variable EXTRACTION_PROMPT : str.
Variable json_loads : str -> result json.

(** [chat_completion]: OpenAI first, Groq when OpenAI is absent or
    raises; the requests made are returned with the outcome. *)
Definition chat_completion (messages : list message)
  : list call * result response :=
  let via_groq (log : list call) :=
    match groq_client with
    | Some groq => (log ++ [(Groq, messages)], groq messages)
    | None => (log, Raise (RuntimeError "No LLM provider available"))
    end in
  match openai_client with
  | Some openai =>
      match openai messages with
      | Ok r => ([(OpenAI, messages)], Ok r)
      | Raise _ => via_groq [(OpenAI, messages)]
      end
  | None => via_groq []
  end.

Definition request (text section_id : str) : list message :=
  [ ("system" : str, "Return valid JSON only." : str);
    ("user" : str,
     EXTRACTION_PROMPT ++ (LF :: ("[SECTION: " : str)) ++ section_id
       ++ ("]" : str) ++ [LF] ++ text) ].

(** The body of the [try] block, after the backend has answered. *)
Definition parse_response (r : response) : result extraction :=
  do first <- match choices r with
              | c :: _ => Ok c
              | [] => Raise IndexError
              end;
  do content <- match first with
                | Some s => Ok s
                | None => Raise TypeError        (* json.loads(None) *)
                end;
  do raw <- json_loads content;
  do ents <- py_get raw "entities" JNull;
  do rels <- py_get raw "relationships" JNull;
  Ok {| ex_entities := firstn 25 (_safe_list ents);
        ex_relationships := firstn 30 (_safe_list rels) |}.

(** [extract_entities_and_relationships]: the requests made and the
    outcome of the call. *)
Definition extract_entities_and_relationships
           (text section_id : str) (is_empty : bool)
  : list call * result extraction :=
  if is_empty || negb (py_truthy (JStr (strip text)))
  then ([], Ok empty_extraction)
  else
    let '(log, answer) := chat_completion (request text section_id) in
    match bind answer parse_response with
    | Ok ex => (log, Ok ex)
    | Raise _ => (log, Ok empty_extraction)      (* except Exception *)
    end.

End Backend.

(** Code that writes to the store and may raise. *)
Definition M (A : Type) : Type := graph -> graph * result A.

Definition ret {A} (a : A) : M A := fun g => (g, Ok a).

Definition lift {A} (r : result A) : M A := fun g => (g, r).

Definition mbind {A B} (m : M A) (k : A -> M B) : M B :=
  fun g => match m g with
           | (g', Ok a) => k a g'
           | (g', Raise e) => (g', Raise e)
           end.

Notation "'run' x <- m ; k" := (mbind m (fun x => k))
  (at level 10, x name, m at level 100, k at level 200) : exc_scope.

(** [normalize_name(r.get(field))] *)
Definition normalized_endpoint (r : json) (field : str) : result str :=
  do v <- py_get r field JNull; normalize_name v.

(** One iteration of the relationship loop of [persist_extraction];
    [written] is [relationships_written]. *)
Definition persist_relationship (r : json) (written : Z) : M Z :=
  run ty <- lift (py_get r "type" (JStr []));
  run rel_type <- lift (py_upper ty);
  if negb (mem rel_type ALLOWED_REL_TYPES) then ret written
  else
    run src <- lift (normalized_endpoint r "source");
    run tgt <- lift (normalized_endpoint r "target");
    if negb (py_truthy (JStr src)) || negb (py_truthy (JStr tgt)) || str_eqb src tgt
    then ret written
    else
      run description <- lift (py_get r "description" (JStr []));
      fun g =>
        let '(g', created) :=
          create_relationship src tgt rel_type description default_doc_id g in
        (g', Ok (if created then written + 1 else written)).

Fixpoint persist_relationships (rs : list json) (written : Z) : M Z :=
  match rs with
  | [] => ret written
  | r :: rs' => run w <- persist_relationship r written;
                persist_relationships rs' w
  end.

End Extractor.

(* ===================================================================== *)
(** * Sequences of upserts, test stores                                    *)
(* ===================================================================== *)

Module Upserts.

Import Json Neo4j.

Definition salience_of (g : graph) (doc_id name : str) : option str :=
  e_salience <$> (entities g !! (doc_id, name)).

(** The arguments of one [create_entity] call, and the store's clock at
    the call. *)
Record upsert : Type := {
  u_name : str;
  u_type : str;
  u_description : str;
  u_salience : str;
  u_doc_id : str;
  u_now : Z
}.

Definition apply_upsert (g : graph) (u : upsert) : graph :=
  fst (create_entity (u_name u) (u_type u) (u_description u) (u_salience u)
                     (u_doc_id u) (u_now u) g).

Definition run_upserts (us : list upsert) (g : graph) : graph :=
  fold_left apply_upsert us g.

(** A store holding the one entity "Acme" of document "doc-1". *)
Definition acme_graph (salience : str) : graph :=
  fst (create_entity "Acme" "ORGANIZATION" "A company" salience "doc-1" 0
                     empty_graph).

Definition demote_acme : upsert :=
  {| u_name := "Acme"; u_type := "ORGANIZATION"; u_description := "";
     u_salience := "SUPPORTING"; u_doc_id := "doc-1"; u_now := 5 |}.

Definition promote_acme : upsert :=
  {| u_name := "Acme"; u_type := "ORGANIZATION"; u_description := "";
     u_salience := "IMPORTANT"; u_doc_id := "doc-1"; u_now := 7 |}.

(** [{"type": ..., "source": ..., "target": ...}] *)
Definition rel_item (ty source target : str) : json :=
  JObj [ ("type" : str, JStr ty); ("source" : str, JStr source);
         ("target" : str, JStr target) ].

End Upserts.

(* ===================================================================== *)
(** * A backend to run the extractor on                                    *)
(* ===================================================================== *)

Module Fixtures.

Import Json Neo4j Extractor.

Definition dq : ascii := ascii_of_N 34.

Definition quoted (s : str) : str := dq :: s ++ [dq].

(** The reply
    {[ {"entities": [{"name": "Acme", "type": "ALIEN", "salience": "HUGE"}],
        "relationships": "none"} ]}
    as text and as the value [json.loads] makes of it: the entity's type
    and salience are outside the enumerations and "relationships" is not
    a list. *)
Definition alien_content : str :=
  ("{" : str) ++ quoted "entities" ++ (": [{" : str)
  ++ quoted "name" ++ (": " : str) ++ quoted "Acme" ++ (", " : str)
  ++ quoted "type" ++ (": " : str) ++ quoted "ALIEN" ++ (", " : str)
  ++ quoted "salience" ++ (": " : str) ++ quoted "HUGE" ++ ("}], " : str)
  ++ quoted "relationships" ++ (": " : str) ++ quoted "none" ++ ("}" : str).

Definition alien_entity : json :=
  JObj [ ("name" : str, JStr "Acme"); ("type" : str, JStr "ALIEN");
         ("salience" : str, JStr "HUGE") ].

Definition alien_value : json :=
  JObj [ ("entities" : str, JList [alien_entity]);
         ("relationships" : str, JStr "none") ].

(** A [json.loads] that knows one document and rejects any other text. *)
Definition loads_one (text : str) (value : json) : str -> result json :=
  fun s => if str_eqb s text then Ok value else Raise JSONDecodeError.

(** A provider that always answers with one choice holding [content]. *)
Definition answering (content : str) : provider :=
  fun _ => Ok {| choices := [Some content] |}.

Definition failing : provider :=
  fun _ => Raise (ProviderError "connection refused").

End Fixtures.

(* ===================================================================== *)
(** * bots/bot7_community_detection.py                                     *)
(* ===================================================================== *)

Module CommunityDetection.

Import Json Neo4j.

(** ** The [networkx.Graph] operations used *)

Record edge : Type := {
  ed_u : str;
  ed_v : str;
  ed_weight : float;
  ed_source : str
}.

(** Nodes with their [title] attribute and edges, both in insertion
    order. *)
Record nxgraph : Type := {
  nodes : list (str * option (option str));
  edges : list edge
}.

Definition nx_empty : nxgraph := {| nodes := []; edges := [] |}.

Definition has_node (G : nxgraph) (n : str) : bool :=
  existsb (fun x => str_eqb (fst x) n) (nodes G).

(** [G.add_node(n, title=t)] *)
Definition add_node (n : str) (title : option str) (G : nxgraph) : nxgraph :=
  {| nodes := if has_node G n
              then map (fun x => if str_eqb (fst x) n then (n, Some title) else x)
                       (nodes G)
              else nodes G ++ [(n, Some title)];
     edges := edges G |}.

Definition touch_node (n : str) (ns : list (str * option (option str)))
  : list (str * option (option str)) :=
  if existsb (fun x => str_eqb (fst x) n) ns then ns else ns ++ [(n, None)].

Definition same_edge (u v : str) (e : edge) : bool :=
  (str_eqb (ed_u e) u && str_eqb (ed_v e) v)
  || (str_eqb (ed_u e) v && str_eqb (ed_v e) u).

(** [G.add_edge(u, v, weight=w, source=s)]: the graph is undirected and
    simple, so a second edge on the same pair overwrites the
    attributes. *)
Definition add_edge (u v : str) (w : float) (s : str) (G : nxgraph) : nxgraph :=
  let e := {| ed_u := u; ed_v := v; ed_weight := w; ed_source := s |} in
  {| nodes := touch_node v (touch_node u (nodes G));
     edges := if existsb (same_edge u v) (edges G)
              then map (fun x => if same_edge u v x
                                 then {| ed_u := ed_u x; ed_v := ed_v x;
                                         ed_weight := w; ed_source := s |}
                                 else x) (edges G)
              else edges G ++ [e] |}.

Definition number_of_nodes (G : nxgraph) : Z := Z.of_nat (length (nodes G)).
Definition number_of_edges (G : nxgraph) : Z := Z.of_nat (length (edges G)).

(** ** The three queries of [get_section_graph] *)

(** Sections of the document: [(section_id, title)] rows, in the store's
    order. *)
Definition section_rows (g : graph) (doc_id : str) : list (str * option str) :=
  omap (fun '((d, sid), s) =>
          if str_eqb d doc_id then Some (sid, s_title s) else None)
       (map_to_list (sections g)).

Definition is_section (g : graph) (doc_id : str) (k : key) : bool :=
  str_eqb (fst k) doc_id && bool_decide (is_Some (sections g !! k)).

(** Explicit references between two sections of the document. *)
Definition reference_rows (g : graph) (doc_id : str) : list (str * str) :=
  omap (fun '(s1, _, s2) =>
          if is_section g doc_id s1 && is_section g doc_id s2
          then Some (snd s1, snd s2) else None)
       (elements (reference_paths g)).

(** The string order of the store. *)
Fixpoint str_ltb (a b : str) : bool :=
  match a, b with
  | _, [] => false
  | [], _ :: _ => true
  | x :: a', y :: b' =>
      (code x <? code y)%N || ((code x =? code y)%N && str_ltb a' b')
  end.

Definition is_salient (g : graph) (e : key) : bool :=
  match entities g !! e with
  | Some x => mem (e_salience x) ["CORE" : str; "IMPORTANT" : str]
  | None => false
  end.

(** The salient entities a section mentions. *)
Definition salient_mentions (g : graph) (s : key) : list key :=
  omap (fun '(s', e) =>
          if bool_decide (s' = s) && is_salient g e then Some e else None)
       (elements (mentions g)).

(** [count(DISTINCT e)] over the entities two sections both mention. *)
Definition shared_count (g : graph) (s1 s2 : key) : Z :=
  Z.of_nat (length (List.filter (fun e => bool_decide (e ∈ salient_mentions g s2))
                                (salient_mentions g s1))).

(** Pairs of sections of the document, in [section_id] order, that share
    at least one salient entity. *)
Definition shared_rows (g : graph) (doc_id : str) : list (str * str * Z) :=
  let ids := map fst (section_rows g doc_id) in
  flat_map (fun s1 =>
    omap (fun s2 =>
            let n := shared_count g (doc_id, s1) (doc_id, s2) in
            if str_ltb s1 s2 && (1 <=? n) then Some (s1, s2, n) else None)
         ids) ids.

Definition float_of_count (n : Z) : float :=
  PrimFloat.of_uint63 (Uint63.of_Z n).

(** The bodies of the three [for] loops of [get_section_graph]. *)
Definition add_section_node (G : nxgraph) (r : str * option str) : nxgraph :=
  add_node (fst r) (snd r) G.

Definition add_reference_edge (G : nxgraph) (r : str * str) : nxgraph :=
  add_edge (fst r) (snd r) 3%float "reference" G.

Definition add_shared_edge (G : nxgraph) (r : str * str * Z) : nxgraph :=
  let '(src, tgt, shared) := r in
  if 1 <=? shared
  then add_edge src tgt (1 + float_of_count (Z.min shared 3))%float "entity" G
  else G.

Definition get_section_graph (g : graph) (doc_id : str) : nxgraph :=
  let G := fold_left add_section_node (section_rows g doc_id) nx_empty in
  let G := fold_left add_reference_edge (reference_rows g doc_id) G in
  fold_left add_shared_edge (shared_rows g doc_id) G.

(** ** Persistence *)

(** [str(cid)] *)
Definition str_of_int (n : Z) : str :=
  lit (DecimalString.NilZero.string_of_int (Z.to_int n)).

(** The second statement of [_persist_communities]: both nodes must
    be found for the CONTAINS edge to be merged. *)
Definition merge_contains (doc_id cid : str) (g : graph) (sid : str) : graph :=
  match sections g !! (doc_id, sid), communities g !! (doc_id, cid) with
  | Some _, Some _ =>
      set_contains_section g
        ({[ ((doc_id, cid), (doc_id, sid)) ]} ∪ contains_section g)
  | _, _ => g
  end.

(** One iteration of the outer loop of [_persist_communities]. *)
Definition persist_community (doc_id : str) (modularity : float) (mode : str)
           (g : graph) (c : Z * list str) : graph :=
  let cid := str_of_int (fst c) in
  let g := set_communities g
             (<[(doc_id, cid) :=
                  {| c_size := Z.of_nat (length (snd c));
                     c_modularity := modularity; c_mode := mode |}]>
                (communities g)) in
  fold_left (merge_contains doc_id cid) (snd c) g.

(** Two stores that differ at most in their Community nodes and
    CONTAINS edges. *)
Definition only_communities_changed (g g' : graph) : Prop :=
  entities g' = entities g /\ relationships g' = relationships g /\
  sections g' = sections g /\ mentions g' = mentions g /\
  normalized_to g' = normalized_to g /\ applies_to g' = applies_to g /\
  reference_paths g' = reference_paths g.

(** What [detect_section_communities] returns. *)
Inductive outcome : Type :=
| Empty                                        (* status "empty" *)
| Skipped (nodes edges : Z)                    (* status "skipped" *)
| Rejected (modularity : float)                (* status "rejected" *)
| Persisted (mode : str) (communities : Z) (modularity : float).  (* "ok" *)

Definition status (o : outcome) : str :=
  match o with
  | Empty => "empty"
  | Skipped _ _ => "skipped"
  | Rejected _ => "rejected"
  | Persisted _ _ _ => "ok"
  end.

Definition _persist_communities (g : graph) (communities : list (Z * list str))
           (doc_id : str) (modularity : float) (mode : str) : graph * outcome :=
  (fold_left (persist_community doc_id modularity mode) communities g,
   Persisted mode (Z.of_nat (length communities)) modularity).

(** [communities.setdefault(cid, []).append(sid)] *)
Fixpoint group_add (cid : Z) (sid : str) (cs : list (Z * list str))
  : list (Z * list str) :=
  match cs with
  | [] => [(cid, [sid])]
  | (c, secs) :: cs' =>
      if c =? cid then (c, secs ++ [sid]) :: cs'
      else (c, secs) :: group_add cid sid cs'
  end.

Definition group_partition (partition : list (str * Z)) : list (Z * list str) :=
  fold_left (fun cs '(sid, cid) => group_add cid sid cs) partition [].

Section Louvain.

(** [community_louvain.best_partition] and [.modularity]. *)
Variable best_partition : nxgraph -> list (str * Z).
Variable modularity_of : list (str * Z) -> nxgraph -> float.

Definition detect_section_communities (g : graph) (doc_id : str)
  : graph * outcome :=
  let G := get_section_graph g doc_id in
  let n_nodes := number_of_nodes G in
  let n_edges := number_of_edges G in
  if n_nodes =? 0 then (g, Empty)
  else if n_nodes <=? 15 then
    let '(communities, modularity) :=
      if n_edges =? 0 then ([(0, map fst (nodes G))], 0%float)
      else
        let partition := best_partition G in
        (group_partition partition, modularity_of partition G) in
    _persist_communities g communities doc_id modularity "small"
  else if n_edges <? n_nodes then (g, Skipped n_nodes n_edges)
  else
    let partition := best_partition G in
    let modularity := modularity_of partition G in
    if PrimFloat.ltb modularity 0.15%float then (g, Rejected modularity)
    else
      let communities :=
        List.filter (fun c => (2 <=? length (snd c))%nat)
                    (group_partition partition) in
      _persist_communities g communities doc_id modularity "normal".

End Louvain.

End CommunityDetection.

(* ===================================================================== *)
(** * Stores to run the community detector on                              *)
(* ===================================================================== *)

Module Documents.

Import Json Neo4j CommunityDetection.

Definition set_sections (g : graph) (m : gmap key section) : graph :=
  {| entities := entities g; relationships := relationships g; sections := m;
     mentions := mentions g; normalized_to := normalized_to g;
     applies_to := applies_to g; reference_paths := reference_paths g;
     communities := communities g; contains_section := contains_section g |}.

Definition set_reference_paths (g : graph) (m : gset (key * str * key)) : graph :=
  {| entities := entities g; relationships := relationships g;
     sections := sections g; mentions := mentions g;
     normalized_to := normalized_to g; applies_to := applies_to g;
     reference_paths := m;
     communities := communities g; contains_section := contains_section g |}.

Definition doc : str := "doc-1".

Definition with_section (g : graph) (sid : str) : graph :=
  set_sections g
    (<[(doc, sid) := {| s_title := Some sid; s_level := 1;
                        s_page_start := None; s_page_end := None |}]>
       (sections g)).

(** A Reference node of section [a] that points to section [b]. *)
Definition with_reference (g : graph) (ab : str * str) : graph :=
  set_reference_paths g
    ({[ ((doc, fst ab), fst ab ++ ("->" : str) ++ snd ab, (doc, snd ab)) ]}
       ∪ reference_paths g).

Definition ids15 : list str :=
  ["s01" : str; "s02" : str; "s03" : str; "s04" : str; "s05" : str;
   "s06" : str; "s07" : str; "s08" : str; "s09" : str; "s10" : str;
   "s11" : str; "s12" : str; "s13" : str; "s14" : str; "s15" : str].

(** Fifteen sections, nothing else. *)
Definition fifteen_sections : graph := fold_left with_section ids15 empty_graph.

(** Sixteen sections and ten references between them. *)
Definition sixteen_sections : graph :=
  fold_left with_reference
    [ ("s01" : str, "s02" : str); ("s02" : str, "s03" : str);
      ("s03" : str, "s04" : str); ("s04" : str, "s05" : str);
      ("s05" : str, "s06" : str); ("s06" : str, "s07" : str);
      ("s07" : str, "s08" : str); ("s08" : str, "s09" : str);
      ("s09" : str, "s10" : str); ("s10" : str, "s11" : str) ]
    (with_section fifteen_sections "s16").

(** A Louvain stand-in: every node in community 0, modularity 0. *)
Definition one_block (G : nxgraph) : list (str * Z) :=
  map (fun n => (fst n, 0)) (nodes G).

Definition zero_modularity (p : list (str * Z)) (G : nxgraph) : float := 0%float.

End Documents.

(* ===================================================================== *)
(** * query/global_query_v4.py                                             *)
(* ===================================================================== *)

Module GlobalQuery.

Import Json Neo4j Extractor.

Definition detect_query_intent (query : str) : str :=
  let q := lower query in
  if any_in ["summarize" : str; "summary" : str; "overview" : str;
             "explain" : str; "high level" : str; "what is this about" : str] q
  then "SUMMARY"
  else if any_in ["compare" : str; "trend" : str; "over time" : str] q
  then "TEMPORAL"
  else "GRAPH_ONLY".

(** A row of the context query. *)
Record row : Type := {
  r_section_id : str;
  r_section_title : option str;
  r_page_start : option Z;
  r_entity : str;
  r_type : str;
  r_description : str;
  r_salience : str;
  r_financial_concept : option str;
  r_time_period : option str
}.

(** The targets of an OPTIONAL MATCH: the matches, or one null. *)
Definition optional {A} (l : list A) : list (option A) :=
  match l with
  | [] => [None]
  | _ => map Some l
  end.

Definition concepts_of (g : graph) (e : key) : list str :=
  omap (fun '(e', c) => if bool_decide (e' = e) then Some c else None)
       (elements (normalized_to g)).

Definition periods_of (g : graph) (s : key) : list str :=
  omap (fun '(s', t) => if bool_decide (s' = s) then Some t else None)
       (elements (applies_to g)).

(** The rows of one MENTIONS edge: the section must belong to the
    document and the entity must be CORE or IMPORTANT. *)
Definition mention_rows (g : graph) (doc_id : str) (m : key * key) : list row :=
  let '(sk, ek) := m in
  match sections g !! sk, entities g !! ek with
  | Some s, Some e =>
      if str_eqb (fst sk) doc_id
         && mem (e_salience e) ["CORE" : str; "IMPORTANT" : str]
      then
        flat_map (fun fc =>
          map (fun t =>
                 {| r_section_id := snd sk; r_section_title := s_title s;
                    r_page_start := s_page_start s; r_entity := snd ek;
                    r_type := e_type e; r_description := e_description e;
                    r_salience := e_salience e;
                    r_financial_concept := fc; r_time_period := t |})
              (optional (periods_of g sk)))
          (optional (concepts_of g ek))
      else []
  | _, _ => []
  end.

Definition has_salience (s : str) (r : row) : bool := str_eqb (r_salience r) s.

(** [fetch_graph_context]: ORDER BY e.salience DESC puts "IMPORTANT"
    before "CORE" (string order); LIMIT keeps the first [limit] rows. *)
Definition fetch_graph_context (g : graph) (doc_id : str) (limit : Z) : list row :=
  let rows := flat_map (mention_rows g doc_id) (elements (mentions g)) in
  firstn (Z.to_nat limit)
         (List.filter (has_salience "IMPORTANT") rows
          ++ List.filter (has_salience "CORE") rows).

Record query_result : Type := {
  q_query : str;
  q_answer : str;
  q_references : list (str * option Z)
}.

Definition NO_INFORMATION : str :=
  "No relevant information found in the document graph.".

Fixpoint dedup {A} `{EqDecision A} (l : list A) : list A :=
  match l with
  | [] => []
  | x :: l' => x :: List.filter (fun y => negb (bool_decide (y = x))) (dedup l')
  end.

Section Orchestrator.

(** The providers (present when their API key is set), the summarizer
    of [bots.bot9_summarization] ([None] when that import fails), and the
    fixed pieces of text that hold characters outside the 8-bit range:
    the arrow of a context line, the three parts of the prompt around
    the context and the question, and the overview header. *)
Variable openai_client : option provider.
Variable groq_client : option provider.
Variable summarize_communities :
  option (graph -> str -> graph * list call * result (list str)).
Variable ARROW PROMPT_HEAD PROMPT_MIDDLE PROMPT_TAIL OVERVIEW_HEADER : str.

(** [.choices[0].message.content.strip()] *)
Definition content_of (r : response) : result str :=
  match choices r with
  | [] => Raise IndexError
  | None :: _ => Raise AttributeError
  | Some s :: _ => Ok (strip s)
  end.

(** [chat_completion]: any failure on the OpenAI side falls through to
    Groq, whose failures propagate. *)
Definition chat_completion (messages : list message) : list call * result str :=
  let via_groq (log : list call) :=
    match groq_client with
    | Some groq => (log ++ [(Groq, messages)], bind (groq messages) content_of)
    | None => (log, Raise (RuntimeError "No LLM provider available"))
    end in
  match openai_client with
  | Some openai =>
      match bind (openai messages) content_of with
      | Ok s => ([(OpenAI, messages)], Ok s)
      | Raise _ => via_groq [(OpenAI, messages)]
      end
  | None => via_groq []
  end.

Definition context_line (r : row) : str :=
  ("- " : str) ++ r_entity r ++ (" (" : str) ++ r_type r ++ (", " : str)
  ++ r_salience r ++ (")" : str)
  ++ match r_financial_concept r with
     | Some (c :: fc) => ARROW ++ c :: fc
     | _ => []
     end
  ++ match r_description r with
     | [] => []
     | d => (": " : str) ++ d
     end.

Definition prompt_of (context question : str) : str :=
  PROMPT_HEAD ++ context ++ PROMPT_MIDDLE ++ question ++ PROMPT_TAIL.

(** The references of the final output: the (title, page) pairs of the
    rows with a non-empty title, without repeats. *)
Definition references_of (rows : list row) : list (str * option Z) :=
  dedup (omap (fun r => match r_section_title r with
                        | Some (c :: t) => Some (c :: t, r_page_start r)
                        | _ => None
                        end) rows).

Definition global_query_v5 (question : str) (g : graph) (doc_id : str)
  : graph * list call * result query_result :=
  let intent := detect_query_intent question in
  let rows := fetch_graph_context g doc_id 80 in
  match rows with
  | [] =>
      (g, [], Ok {| q_query := question; q_answer := NO_INFORMATION;
                    q_references := [] |})
  | _ =>
      let context := join [LF] (firstn 120 (map context_line rows)) in
      let messages :=
        [ ("system" : str, "You answer strictly from graph data." : str);
          ("user" : str, prompt_of context question) ] in
      match chat_completion messages with
      | (log, Raise e) => (g, log, Raise e)
      | (log, Ok answer) =>
          let finish g log answer :=
            (g, log, Ok {| q_query := question; q_answer := strip answer;
                           q_references := references_of rows |}) in
          if str_eqb intent "SUMMARY" then
            match summarize_communities with
            | None => (g, log, Raise ImportError)
            | Some summarize =>
                match summarize g doc_id with
                | (g', log', Raise e) => (g', log ++ log', Raise e)
                | (g', log', Ok summaries) =>
                    finish g' (log ++ log')
                      (fold_left (fun a s => a ++ ("- " : str) ++ s ++ [LF])
                                 summaries (answer ++ OVERVIEW_HEADER))
                end
            end
          else finish g log answer
      end
  end.

End Orchestrator.

End GlobalQuery.

(* ===================================================================== *)
(** * A store and a backend to run the query on                            *)
(* ===================================================================== *)

Module Library.

Import Json Neo4j Extractor GlobalQuery.

Definition set_mentions (g : graph) (m : gset (key * key)) : graph :=
  {| entities := entities g; relationships := relationships g;
     sections := sections g; mentions := m;
     normalized_to := normalized_to g; applies_to := applies_to g;
     reference_paths := reference_paths g;
     communities := communities g; contains_section := contains_section g |}.

(** Section "s01" of "doc-1" mentions the entity "Acme". *)
Definition acme_mentioned (salience : str) : graph :=
  let g := Documents.with_section (Upserts.acme_graph salience) "s01" in
  set_mentions g {[ ((Documents.doc, "s01" : str), (Documents.doc, "Acme" : str)) ]}.

Definition query (g : graph) (question : str)
  : graph * list call * result query_result :=
  global_query_v5 (Some (Fixtures.answering "  Acme is a company. ")) None None
                  " -> " "CONTEXT: " " QUESTION: " " ANSWER:" " OVERVIEW: "
                  question g Documents.doc.

End Library.

(* ===================================================================== *)
(** * The normal form of text                                              *)
(* ===================================================================== *)

Module Normal.

Import Chunker.

(** [adj R s]: every two neighbouring characters of [s] are related by
    [R]. *)
Fixpoint adj (R : ascii -> ascii -> Prop) (s : str) : Prop :=
  match s with
  | [] => True
  | a :: s' => match s' with b :: _ => R a b | [] => True end /\ adj R s'
  end.

Definition link (R : ascii -> ascii -> Prop) (a b : str) : Prop :=
  forall x y, last a = Some x -> head b = Some y -> R x y.

Definition not_both_blank (a b : ascii) : Prop :=
  ~ (is_blank a = true /\ is_blank b = true).

Definition clean_before_newline (a b : ascii) : Prop :=
  b = LF -> a = LF \/ isspace a = false.

Definition triple_newline : str := [LF; LF; LF].

(** Text in the form [normalize_text] leaves it in: newline is the only
    line boundary, no two blanks are adjacent, no line ends in
    whitespace, and neither does the text begin or end with it. *)
Definition normal (x : str) : Prop :=
  Forall (fun c => is_linebreak c = true -> c = LF) x /\
  adj not_both_blank x /\ adj clean_before_newline x /\
  (forall c, head x = Some c -> isspace c = false) /\
  (forall c, last x = Some c -> isspace c = false).

(** The first substitution of [normalize_text]. *)
Definition collapse_newlines (s : str) : str :=
  sub_runs is_newline 3 [LF; LF] [] s.

(** "a\n \n \nb": two lines of one space between two letters. *)
Definition blank_lines_text : str :=
  [ascii_of_N 97; LF; ascii_of_N 32; LF; ascii_of_N 32; LF; ascii_of_N 98].

End Normal.

(* ===================================================================== *)
(** * Sections and links of a document in the store                        *)
(* ===================================================================== *)

Module SectionLinks.

Import Neo4j CommunityDetection.

(** [ids] lists the sections the store holds for document [doc_id],
    each once. *)
Definition sections_of (g : graph) (doc_id : str) (ids : list str) : Prop :=
  NoDup ids /\ forall sid, In sid ids <-> is_Some (sections g !! (doc_id, sid)).

(** Section [a] of the document refers to section [b] of the document:
    a Reference node of [a] points to [b]. *)
Definition refers (g : graph) (doc_id a b : str) : Prop :=
  is_Some (sections g !! (doc_id, a)) /\ is_Some (sections g !! (doc_id, b)) /\
  exists rid, ((doc_id, a), rid, (doc_id, b)) ∈ reference_paths g.

(** Two different sections of the document mention one and the same
    CORE or IMPORTANT entity. *)
Definition shares (g : graph) (doc_id a b : str) : Prop :=
  is_Some (sections g !! (doc_id, a)) /\ is_Some (sections g !! (doc_id, b)) /\
  a <> b /\
  exists e, ((doc_id, a), e) ∈ mentions g /\ ((doc_id, b), e) ∈ mentions g /\
            is_salient g e = true.

(** Two sections are linked when one refers to the other or they share
    a salient entity. *)
Definition linked (g : graph) (doc_id a b : str) : Prop :=
  refers g doc_id a b \/ refers g doc_id b a \/ shares g doc_id a b.

(** The same pair, whatever its orientation. *)
Definition same_pair (p q : str * str) : Prop := p = q \/ p = (snd q, fst q).

Fixpoint distinct_pairs (pairs : list (str * str)) : Prop :=
  match pairs with
  | [] => True
  | p :: rest => Forall (fun q => ~ same_pair p q) rest /\ distinct_pairs rest
  end.

(** [pairs] lists the linked pairs of sections of document [doc_id],
    each once, in either orientation. *)
Definition links_of (g : graph) (doc_id : str) (pairs : list (str * str)) : Prop :=
  distinct_pairs pairs /\
  forall a b, linked g doc_id a b <-> exists p, In p pairs /\ same_pair p (a, b).

(** The endpoints of the edges of a graph. *)
Definition pairs_of (G : nxgraph) : list (str * str) :=
  map (fun e => (ed_u e, ed_v e)) (edges G).

(** A pair is added to a list of pairs unless the list holds it in one
    orientation. *)
Definition add_pair (P : list (str * str)) (r : str * str) : list (str * str) :=
  if existsb (fun p => (str_eqb (fst p) (fst r) && str_eqb (snd p) (snd r))
                       || (str_eqb (fst p) (snd r) && str_eqb (snd p) (fst r))) P
  then P else P ++ [r].

(** The pair in a fixed orientation. *)
Definition canon (p : str * str) : str * str :=
  if str_ltb (snd p) (fst p) then (snd p, fst p) else p.

(** The sixteen sections and the ten references of
    [Documents.sixteen_sections]. *)
Definition ids16 : list str := Documents.ids15 ++ ["s16" : str].

Definition refs10 : list (str * str) :=
  [ ("s01" : str, "s02" : str); ("s02" : str, "s03" : str);
    ("s03" : str, "s04" : str); ("s04" : str, "s05" : str);
    ("s05" : str, "s06" : str); ("s06" : str, "s07" : str);
    ("s07" : str, "s08" : str); ("s08" : str, "s09" : str);
    ("s09" : str, "s10" : str); ("s10" : str, "s11" : str) ].

End SectionLinks.

Module Stitch.

(** The token slices of successive chunks put back together: the first
    slice whole, every later one without its first [overlap] tokens. *)
Definition stitch {A} (overlap : Z) (slices : list (list A)) : list A :=
  match slices with
  | [] => []
  | s :: rest => s ++ concat (map (skipn (Z.to_nat overlap)) rest)
  end.

End Stitch.

(* ===================================================================== *)
(** * bots/bot2_chunker.py: chunks of sections                             *)
(* ===================================================================== *)

Module SectionChunks.

Import Json Chunker.

(** A section dict as it is handed over.  [section_id] is read with
    [section["section_id"]]: [None] is a dict without the key, and Bot 1
    writes the id as a string.  The other keys are read with [.get], where
    a missing key and a null value both give [None].  [text] is [None]
    when the key is missing and otherwise the value stored under it,
    which need not be a string (a null is [Some JNull]). *)
Record section : Type := {
  section_id : option str;
  title : option str;
  level : option Z;
  parent_id : option str;
  page_start : option Z;
  page_end : option Z;
  text : option json
}.

Record chunk : Type := {
  c_chunk_id : str;
  c_chunk_index : Z;
  c_doc_id : str;
  c_section_id : str;
  c_section_title : option str;
  c_section_level : option Z;
  c_parent_section_id : option str;
  c_page_start : option Z;
  c_page_end : option Z;
  c_text : str;
  c_token_count : Z;
  c_is_empty : bool
}.

Definition colon : str := ":".

(** [f"{doc_id}:{section_id}:{n}"] *)
Definition chunk_id_of (doc_id sid : str) (n : Z) : str :=
  doc_id ++ colon ++ sid ++ colon ++ CommunityDetection.str_of_int n.

(** [section.get("text", "")]: the default is used for a missing key
    only; the text handed in is not looked at. *)
Definition extract_text_for_section (full_text : str) (s : section) : json :=
  match text s with Some v => v | None => JStr [] end.

(** A section the loop can chunk: it has an id and its text is a
    string (or missing). *)
Definition section_ok (s : section) : bool :=
  match section_id s, extract_text_for_section [] s with
  | Some _, JStr _ => true
  | _, _ => false
  end.

Section Encoder.

Variable token : Type.
Variable encode : str -> list token.
Variable decode : list token -> str.

(** [section["section_id"]] raises KeyError when the key is missing; it
    is the first thing [_make_chunk] evaluates. *)
Definition _make_chunk (txt : str) (s : section) (doc_id : str)
           (chunk_in_section global_index : Z) (is_empty : bool) : result chunk :=
  match section_id s with
  | None => Raise (KeyError "section_id")
  | Some sid =>
      Ok {| c_chunk_id := chunk_id_of doc_id sid chunk_in_section;
            c_chunk_index := global_index;
            c_doc_id := doc_id;
            c_section_id := sid;
            c_section_title := title s;
            c_section_level := level s;
            c_parent_section_id := parent_id s;
            c_page_start := page_start s;
            c_page_end := page_end s;
            c_text := txt;
            c_token_count := count_tokens token encode txt;
            c_is_empty := is_empty |}
  end.

(** The inner loop: [for idx, chunk_text in enumerate(section_chunks,
    start=1)], appending to [chunks]. *)
Fixpoint append_chunks (s : section) (doc_id : str) (idx : Z)
         (texts : list str) (chunks : list chunk) : result (list chunk) :=
  match texts with
  | [] => Ok chunks
  | t :: texts' =>
      match _make_chunk t s doc_id idx (Z.of_nat (length chunks)) false with
      | Raise e => Raise e
      | Ok c => append_chunks s doc_id (idx + 1) texts' (chunks ++ [c])
      end
  end.

(** The loop over the sections; [None] when the token loop ran out of
    fuel.  [section_text.strip()] raises AttributeError when the text is
    not a string. *)
Fixpoint build_loop (normalized : str) (sections : list section) (doc_id : str)
         (chunk_size overlap : Z) (chunks : list chunk)
  : option (result (list chunk)) :=
  match sections with
  | [] => Some (Ok chunks)
  | s :: sections' =>
      match extract_text_for_section normalized s with
      | JStr section_text =>
          match strip section_text with
          | [] =>
              match _make_chunk [] s doc_id 1 (Z.of_nat (length chunks)) true with
              | Raise e => Some (Raise e)
              | Ok c =>
                  build_loop normalized sections' doc_id chunk_size overlap
                    (chunks ++ [c])
              end
          | _ =>
              match chunk_by_tokens token encode decode section_text
                                    chunk_size overlap with
              | None => None
              | Some (Raise e) => Some (Raise e)
              | Some (Ok section_chunks) =>
                  match append_chunks s doc_id 1 section_chunks chunks with
                  | Raise e => Some (Raise e)
                  | Ok chunks' =>
                      build_loop normalized sections' doc_id chunk_size overlap chunks'
                  end
              end
          end
      | _ => Some (Raise AttributeError)
      end
  end.

Definition build_chunks_from_sections (full_text : str) (sections : list section)
           (doc_id : str) (chunk_size overlap : Z)
  : option (result (list chunk)) :=
  let normalized := normalize_text full_text in
  build_loop normalized sections doc_id chunk_size overlap [].

Definition section_0 : str := "section_0".

(** One chunk of [build_chunks_without_sections]; [idx] counts from 1. *)
Definition fallback_chunk (doc_id : str) (idx : Z) (ctext : str) : chunk :=
  {| c_chunk_id := chunk_id_of doc_id section_0 idx;
     c_chunk_index := idx - 1;
     c_doc_id := doc_id;
     c_section_id := section_0;
     c_section_title := Some (lit "Document");
     c_section_level := Some 0;
     c_parent_section_id := None;
     c_page_start := Some 1;
     c_page_end := None;
     c_text := ctext;
     c_token_count := count_tokens token encode ctext;
     c_is_empty := false |}.

Fixpoint enumerate_from {A} (idx : Z) (l : list A) : list (Z * A) :=
  match l with
  | [] => []
  | x :: l' => (idx, x) :: enumerate_from (idx + 1) l'
  end.

Definition build_chunks_without_sections (txt doc_id : str) (chunk_size overlap : Z)
  : option (result (list chunk)) :=
  let normalized := normalize_text txt in
  match chunk_by_tokens token encode decode normalized chunk_size overlap with
  | None => None
  | Some (Raise e) => Some (Raise e)
  | Some (Ok chunk_texts) =>
      Some (Ok (map (fun '(idx, ctext) => fallback_chunk doc_id idx ctext)
                    (enumerate_from 1 chunk_texts)))
  end.

(** What one section contributes: the section has an id and a text
    that is a string (or missing), and it gives at least one chunk, all
    carrying the section's id and the document's, numbered from 1; a
    single empty marker when the section's text is blank, and no marker
    otherwise. *)
Definition section_group (doc_id : str) (s : section) (grp : list chunk) : Prop :=
  exists sid txt,
    section_id s = Some sid /\
    extract_text_for_section [] s = JStr txt /\
    grp <> [] /\
    Forall (fun c => c_section_id c = sid /\ c_doc_id c = doc_id) grp /\
    map c_chunk_id grp
    = map (fun '(idx, _) => chunk_id_of doc_id sid idx) (enumerate_from 1 grp) /\
    (strip txt = [] ->
     exists i c, _make_chunk [] s doc_id 1 i true = Ok c /\ grp = [c]) /\
    (strip txt <> [] -> Forall (fun c => c_is_empty c = false) grp).

End Encoder.

End SectionChunks.

(* ===================================================================== *)
(** * Words of a text                                                      *)
(* ===================================================================== *)

Module Words.

(** A word, as [str.split] returns them: non-empty and free of
    whitespace. *)
Definition word (w : str) : Prop :=
  w <> [] /\ Forall (fun c => isspace c = false) w.

End Words.

(* ===================================================================== *)
(** * database/neo4j_client.py: sections and provenance                    *)
(* ===================================================================== *)

Module Provenance.

Import Json Neo4j.

(** [create_section]: the MERGE writes the Section's properties only
    when it creates the node.  The result is the new store, the PART_OF
    edge the second statement merged (child, parent), if any, and the
    returned [section_id]. *)
Definition create_section (section_id : str) (title : option str) (level : Z)
           (parent_id : option str) (doc_id : str) (page_start page_end : option Z)
           (g : graph) : graph * option (key * key) * option str :=
  let k := (doc_id, section_id) in
  let g' := match sections g !! k with
            | Some _ => g
            | None =>
                Documents.set_sections g
                  (<[k := {| s_title := title; s_level := level;
                             s_page_start := page_start; s_page_end := page_end |}]>
                     (sections g))
            end in
  let part_of :=
    match parent_id with
    | Some (c :: pid) =>
        match sections g' !! (doc_id, c :: pid) with
        | Some _ => Some (k, (doc_id, c :: pid))
        | None => None
        end
    | _ => None
    end in
  (g', part_of, Some section_id).

(** [link_entity_to_section]: both MATCHes must find their node for the
    MERGE of the MENTIONS edge to run. *)
Definition link_entity_to_section (entity_name section_id doc_id : str)
           (g : graph) : graph :=
  match sections g !! (doc_id, section_id), entities g !! (doc_id, entity_name) with
  | Some _, Some _ =>
      Library.set_mentions g
        ({[ ((doc_id, section_id), (doc_id, entity_name)) ]} ∪ mentions g)
  | _, _ => g
  end.

End Provenance.

(* ===================================================================== *)
(** * bots/bot3_extractor.py: persistence                                  *)
(* ===================================================================== *)

Module Persist.

Import Json Neo4j Extractor Provenance.
Local Open Scope exc_scope.

(** [salience = e.get("salience", "SUPPORTING")] followed by the
    membership test in a set literal, which hashes the value: a list or a
    dict is unhashable. *)
Definition checked_salience (v : json) : result str :=
  match v with
  | JStr s =>
      Ok (if mem s ["CORE" : str; "IMPORTANT" : str; "SUPPORTING" : str]
          then s else lit "SUPPORTING")
  | JList _ | JObj _ => Raise TypeError
  | _ => Ok (lit "SUPPORTING")
  end.

(** The text of a value handed to the store as a text property. *)
Definition as_text (v : json) : option str :=
  match v with
  | JStr s => Some s
  | _ => None
  end.

(** One iteration of the entity loop of [persist_extraction]; [written]
    is [entities_written] and [now] the store's clock at the MERGE.  The
    entity is written without a [doc_id], hence under the client's default
    document, and linked to the section under [doc_id].  The store keeps
    the type and the description of an entity as text: the result is
    [None] when the item hands it a type or a description that is not a
    string, which the store model does not cover. *)
Definition persist_entity (section_id doc_id : str) (now : Z) (e : json)
           (written : Z) (g : graph) : option (graph * result Z) :=
  match (do v <- py_get e "name" JNull; normalize_name v) with
  | Raise x => Some (g, Raise x)
  | Ok [] => Some (g, Ok written)
  | Ok name =>
      match (do v <- py_get e "salience" (JStr "SUPPORTING"); checked_salience v) with
      | Raise x => Some (g, Raise x)
      | Ok salience =>
          match py_get e "type" (JStr "OTHER"), py_get e "description" (JStr []) with
          | Ok ty, Ok d =>
              match as_text ty, as_text d with
              | Some entity_type, Some description =>
                  let '(g1, created) :=
                    create_entity name entity_type description salience
                                  default_doc_id now g in
                  let g2 := link_entity_to_section name section_id doc_id g1 in
                  Some (g2, Ok (match created with
                                | Some _ => written + 1
                                | None => written
                                end))
              | _, _ => None
              end
          | Raise x, _ => Some (g, Raise x)
          | _, Raise x => Some (g, Raise x)
          end
      end
  end.

(** The entity loop; the [k]-th MERGE runs at time [clock k]. *)
Fixpoint persist_entities (section_id doc_id : str) (clock : nat -> Z) (k : nat)
         (es : list json) (written : Z) (g : graph) : option (graph * result Z) :=
  match es with
  | [] => Some (g, Ok written)
  | e :: es' =>
      match persist_entity section_id doc_id (clock k) e written g with
      | None => None
      | Some (g', Raise x) => Some (g', Raise x)
      | Some (g', Ok w) => persist_entities section_id doc_id clock (S k) es' w g'
      end
  end.

(** [persist_extraction]: the section node first, then the entities,
    then the relationships; the result is the pair of counters. *)
Definition persist_extraction (ex : extraction) (section_id doc_id : str)
           (clock : nat -> Z) (g : graph) : option (graph * result (Z * Z)) :=
  let '(g0, _, _) :=
    create_section section_id (Some section_id) 1 None doc_id None None g in
  match persist_entities section_id doc_id clock 0 (ex_entities ex) 0 g0 with
  | None => None
  | Some (g1, Raise x) => Some (g1, Raise x)
  | Some (g1, Ok entities_written) =>
      match persist_relationships (ex_relationships ex) 0 g1 with
      | (g2, Raise x) => Some (g2, Raise x)
      | (g2, Ok relationships_written) =>
          Some (g2, Ok (entities_written, relationships_written))
      end
  end.

Section Backend.

Variable openai_client : option provider.
Variable groq_client : option provider.
Variable EXTRACTION_PROMPT : str.
Variable json_loads : str -> result json.

(** [process_section_text]: the requests made to the providers and the
    outcome of the persistence. *)
Definition process_section_text (section_text section_id doc_id : str)
           (is_empty : bool) (clock : nat -> Z) (g : graph)
  : list call * option (graph * result (Z * Z)) :=
  let '(log, r) :=
    extract_entities_and_relationships openai_client groq_client
      EXTRACTION_PROMPT json_loads section_text section_id is_empty in
  match r with
  | Ok extraction => (log, persist_extraction extraction section_id doc_id clock g)
  | Raise x => (log, Some (g, Raise x))
  end.

End Backend.

(** An entity item that the entity loop writes: its name normalizes to
    a non-empty string. *)
Definition named (e : json) : bool :=
  match (do v <- py_get e "name" JNull; normalize_name v) with
  | Ok (_ :: _) => true
  | _ => false
  end.

(** A relationship item that the relationship loop hands to
    [create_relationship]. *)
Definition linkable (r : json) : bool :=
  match (do ty <- py_get r "type" (JStr []); py_upper ty),
        normalized_endpoint r "source", normalized_endpoint r "target" with
  | Ok rel_type, Ok (a :: src), Ok (b :: tgt) =>
      mem rel_type ALLOWED_REL_TYPES && negb (str_eqb (a :: src) (b :: tgt))
  | _, _, _ => false
  end.

(** An entity item as the prompt's schema has it, as far as the loop
    reads it: an object whose name is a string and whose type,
    description and salience, when present, are strings. *)
Definition is_text_or_missing (e : list (str * json)) (k : str) : bool :=
  match assoc k e with
  | Some (JStr _) | None => true
  | Some _ => false
  end.

(** An entity item whose type and description, when it has them, are
    strings: what the store keeps as text. *)
Definition text_fields_ok (e : json) : bool :=
  match e with
  | JObj fields =>
      is_text_or_missing fields "type" && is_text_or_missing fields "description"
  | _ => true
  end.

Definition entity_item_ok (e : json) : bool :=
  match e with
  | JObj fields =>
      match assoc "name" fields with
      | Some (JStr _) => true
      | _ => false
      end
      && is_text_or_missing fields "type"
      && is_text_or_missing fields "description"
      && is_text_or_missing fields "salience"
  | _ => false
  end.

(** A relationship item whose type, source and target, when present,
    are strings. *)
Definition relationship_item_ok (r : json) : bool :=
  match r with
  | JObj fields =>
      is_text_or_missing fields "type"
      && match assoc "source" fields with
         | Some (JStr _) | Some JNull | None => true
         | Some _ => false
         end
      && match assoc "target" fields with
         | Some (JStr _) | Some JNull | None => true
         | Some _ => false
         end
  | _ => false
  end.

End Persist.

(* ===================================================================== *)
(** * Section graphs and partitions                                        *)
(* ===================================================================== *)

Module SectionGraph.

Import Neo4j CommunityDetection.

(** An edge of the section graph of document [doc_id]: it joins two
    sections of the document, with weight 3.0 when it comes from an
    explicit reference, and 2.0, 3.0 or 4.0 when it comes from shared
    entities. *)
Definition edge_ok (g : graph) (doc_id : str) (e : edge) : Prop :=
  is_Some (sections g !! (doc_id, ed_u e)) /\
  is_Some (sections g !! (doc_id, ed_v e)) /\
  (ed_source e = lit "reference" /\ ed_weight e = 3%float \/
   ed_source e = lit "entity" /\
   (ed_weight e = 2%float \/ ed_weight e = 3%float \/ ed_weight e = 4%float)).

(** The section ids that a partition puts in community [cid], in the
    partition's order. *)
Definition members (cid : Z) (partition : list (str * Z)) : list str :=
  map fst (List.filter (fun x => snd x =? cid) partition).

(** [cs] groups the partition [p]: the community ids are distinct and
    the groups are exactly the non-empty member lists. *)
Definition grouped (cs : list (Z * list str)) (p : list (str * Z)) : Prop :=
  NoDup (map fst cs) /\
  forall cid secs, In (cid, secs) cs <-> secs <> [] /\ secs = members cid p.

(** The store [g'] is [g] with Community nodes and CONTAINS edges added
    for document [doc_id]: nothing else differs, no Community node and no
    CONTAINS edge is lost, the Community nodes of other documents are the
    same, and a new CONTAINS edge joins a Community of the document to an
    existing Section of the document. *)
Definition grows_in (doc_id : str) (g g' : graph) : Prop :=
  only_communities_changed g g' /\
  (forall d cid, is_Some (communities g !! (d, cid)) ->
                 is_Some (communities g' !! (d, cid))) /\
  (forall d cid, d <> doc_id -> communities g' !! (d, cid) = communities g !! (d, cid)) /\
  (forall x, x ∈ contains_section g -> x ∈ contains_section g') /\
  (forall x, x ∈ contains_section g' ->
     x ∈ contains_section g \/
     exists cid sid,
       x = ((doc_id, cid), (doc_id, sid)) /\
       is_Some (sections g !! (doc_id, sid)) /\
       is_Some (communities g' !! (doc_id, cid))).

End SectionGraph.

(* ===================================================================== *)
(** * Rows of the context query                                            *)
(* ===================================================================== *)

Module ContextRows.

Import Neo4j GlobalQuery.

(** A row that the store [g] supports for document [doc_id]: its
    section is a section of the document, that section mentions its
    entity, the entity is CORE or IMPORTANT, and the row carries the
    section's title and page and the entity's type, description and
    salience. *)
Definition row_ok (g : graph) (doc_id : str) (r : row) : Prop :=
  exists s d e,
    sections g !! (doc_id, r_section_id r) = Some s /\
    ((doc_id, r_section_id r), (d, r_entity r)) ∈ mentions g /\
    entities g !! (d, r_entity r) = Some e /\
    mem (e_salience e) ["CORE" : str; "IMPORTANT" : str] = true /\
    r_section_title r = s_title s /\ r_page_start r = s_page_start s /\
    r_type r = e_type e /\ r_description r = e_description e /\
    r_salience r = e_salience e.

End ContextRows.

(* ===================================================================== *)
(** * bots/bot8_financial_facts.py: facts of tables                        *)
(* ===================================================================== *)

Module FinancialTables.

Import Json Neo4j FinancialFacts Provenance.

(** [CANONICAL_METRICS], in the order of the dict literal. *)
Definition CANONICAL_METRICS : list (str * str) :=
  [ ("asset" : str, "Assets" : str); ("liabilit" : str, "Liabilities" : str);
    ("equity" : str, "Equity" : str); ("revenue" : str, "Revenue" : str);
    ("profit" : str, "Profit" : str); ("loss" : str, "Profit" : str);
    ("cash" : str, "CashFlow" : str) ].

(** The loop of [classify_metric] over the items of the dict. *)
Fixpoint first_metric (label_l : str) (metrics : list (str * str)) : str :=
  match metrics with
  | [] => "Other"
  | (k, v) :: metrics' =>
      if contains k label_l then v else first_metric label_l metrics'
  end.

Definition classify_metric (label : str) : str :=
  first_metric (lower label) CANONICAL_METRICS.

Definition infer_scale (currency : str) : str :=
  match currency with
  | [] => "UNIT"
  | _ =>
      let c := lower currency in
      if contains "000" c then "THOUSANDS"
      else if contains "million" c then "MILLIONS"
      else if contains "billion" c then "BILLIONS"
      else "UNIT"
  end.

(** A table dict: [type] as [table.get("type")] gives it, the currency
    ([""] when missing), the column names and the rows, each a dict. *)
Record table : Type := {
  t_type : option str;
  t_currency : str;
  t_columns : list str;
  t_rows : list (list (str * json))
}.

Record section : Type := {
  section_id : str;
  tables : list table
}.

(** The arguments of one [create_financial_fact] call. *)
Record fact : Type := {
  f_metric : str;
  f_value : float;
  f_unit : str;
  f_scale : str;
  f_period_type : str;
  f_period_value : str;
  f_confidence : str;
  f_doc_id : str
}.

(** What the extraction has done so far: the store, the
    [create_financial_fact] calls made (in order), the number of
    [create_entity] calls made, and the counter [created]. *)
Record state : Type := {
  st_graph : graph;
  st_facts : list fact;
  st_upserts : nat;
  st_created : Z
}.

Section Builtins.

(** [float(str(value).replace(",", ""))]: [None] when it raises. *)
Variable to_float : json -> option float.

Definition normalize_number (value : option json) : option float :=
  match value with
  | None | Some JNull => None
  | Some (JStr s) =>
      if str_eqb s [] || str_eqb s "-" then None else to_float (JStr s)
  | Some v => to_float v
  end.

(** The store's clock at the [k]-th [create_entity] call. *)
Variable clock : nat -> Z.

(** The inner loop over [col_meta.items()]. *)
Definition column_step (row : list (str * json)) (base_metric currency scale doc_id : str)
           (st : state) (c : str * (str * str)) : state :=
  let '(col_key, (scope, year)) := c in
  match normalize_number (assoc col_key row) with
  | None => st
  | Some value =>
      {| st_graph := st_graph st;
         st_facts := st_facts st ++
           [{| f_metric := base_metric; f_value := value; f_unit := currency;
               f_scale := scale; f_period_type := "YEAR"; f_period_value := year;
               f_confidence := "HIGH"; f_doc_id := doc_id |}];
         st_upserts := st_upserts st;
         st_created := st_created st + 1 |}
  end.

Definition metric_description (base_metric : str) : str :=
  ("Financial metric: " : str) ++ base_metric.

(** One iteration of the loop over the rows of a table. *)
Definition row_step (section_id doc_id currency scale : str)
           (col_meta : list (str * (str * str))) (st : state)
           (row : list (str * json)) : state * result unit :=
  match assoc "item" row with
  | None => (st, Ok tt)
  | Some label =>
      if negb (py_truthy label) then (st, Ok tt)
      else
        match label with
        | JStr l =>
            let base_metric := classify_metric l in
            if str_eqb base_metric "Other" then (st, Ok tt)
            else
              let g1 := fst (create_entity base_metric "FINANCIAL"
                                           (metric_description base_metric) "CORE"
                                           default_doc_id (clock (st_upserts st))
                                           (st_graph st)) in
              let g2 := link_entity_to_section base_metric section_id doc_id g1 in
              let st1 := {| st_graph := g2; st_facts := st_facts st;
                            st_upserts := S (st_upserts st);
                            st_created := st_created st |} in
              (fold_left (column_step row base_metric currency scale doc_id)
                         col_meta st1, Ok tt)
        | _ => (st, Raise AttributeError)          (* label.lower() *)
        end
  end.

Fixpoint rows_loop (section_id doc_id currency scale : str)
         (col_meta : list (str * (str * str))) (rows : list (list (str * json)))
         (st : state) : state * result unit :=
  match rows with
  | [] => (st, Ok tt)
  | row :: rows' =>
      match row_step section_id doc_id currency scale col_meta st row with
      | (st', Ok _) => rows_loop section_id doc_id currency scale col_meta rows' st'
      | (st', Raise e) => (st', Raise e)
      end
  end.

Definition is_financial_statement (t : table) : bool :=
  match t_type t with
  | Some ty => str_eqb ty "financial_statement"
  | None => false
  end.

(** One iteration of the loop over the tables. *)
Definition table_step (section_id doc_id : str) (st : state) (t : table)
  : state * result unit :=
  if negb (is_financial_statement t) then (st, Ok tt)
  else
    let currency := t_currency t in
    let scale := infer_scale currency in
    let col_meta := col_meta_of (t_columns t) in
    match col_meta with
    | [] => (st, Ok tt)
    | _ => rows_loop section_id doc_id currency scale col_meta (t_rows t) st
    end.

Fixpoint tables_loop (section_id doc_id : str) (ts : list table) (st : state)
  : state * result unit :=
  match ts with
  | [] => (st, Ok tt)
  | t :: ts' =>
      match table_step section_id doc_id st t with
      | (st', Ok _) => tables_loop section_id doc_id ts' st'
      | (st', Raise e) => (st', Raise e)
      end
  end.

(** [extract_facts_from_tables]: [created] starts at 0 for each section;
    the result is the state reached and the returned count. *)
Definition extract_facts_from_tables (s : section) (doc_id : str) (st : state)
  : state * result Z :=
  let st0 := {| st_graph := st_graph st; st_facts := st_facts st;
                st_upserts := st_upserts st; st_created := 0 |} in
  match tables_loop (section_id s) doc_id (tables s) st0 with
  | (st', Ok _) => (st', Ok (st_created st'))
  | (st', Raise e) => (st', Raise e)
  end.

(** [extract_financial_facts_from_document]: the sum of the sections'
    counts. *)
Fixpoint document_loop (sections : list section) (doc_id : str) (total : Z)
         (st : state) : state * result Z :=
  match sections with
  | [] => (st, Ok total)
  | s :: sections' =>
      match extract_facts_from_tables s doc_id st with
      | (st', Ok n) => document_loop sections' doc_id (total + n) st'
      | (st', Raise e) => (st', Raise e)
      end
  end.

Definition extract_financial_facts_from_document (sections : list section)
           (doc_id : str) (g : graph) : state * result Z :=
  document_loop sections doc_id 0
    {| st_graph := g; st_facts := []; st_upserts := 0; st_created := 0 |}.

End Builtins.

(** The metric names a fact can carry. *)
Definition metric_names : list str :=
  ["Assets" : str; "Liabilities" : str; "Equity" : str; "Revenue" : str;
   "Profit" : str; "CashFlow" : str].

(** A fact as [extract_facts_from_tables] writes them for document
    [doc_id] from the tables [ts]. *)
Definition fact_ok (doc_id : str) (ts : list table) (f : fact) : Prop :=
  In (f_metric f) metric_names /\
  f_period_type f = lit "YEAR" /\ f_confidence f = lit "HIGH" /\
  f_doc_id f = doc_id /\ isdigit (f_period_value f) = true /\
  exists t, In t ts /\ is_financial_statement t = true /\
            f_unit f = t_currency t /\ f_scale f = infer_scale (t_currency t).

(** The facts [st'] holds beyond those of [st], with [created] counting
    them. *)
Definition extends (P : fact -> Prop) (st st' : state) : Prop :=
  exists new,
    st_facts st' = st_facts st ++ new /\
    st_created st' = st_created st + Z.of_nat (length new) /\
    Forall P new.

End FinancialTables.

(* ===================================================================== *)
(** * Properties                                                           *)
(* ===================================================================== *)

Example strip_example : strip "  a b  " = "a b".
Proof. reflexivity. Qed.

Example splitlines_example :
  splitlines [ascii_of_N 97; LF; LF; ascii_of_N 98; ascii_of_N 13; LF]
  = [ [ascii_of_N 97]; []; [ascii_of_N 98] ].
Proof. reflexivity. Qed.

(* --------------------------------------------------------------------- *)
(** ** Chunker: the token loop                                             *)
(* --------------------------------------------------------------------- *)

Section ChunkLoop.

Import Chunker Settings.

Context {token : Type}.
Variable encode : str -> list token.
Variable decode : list token -> str.

(** The loop advances [start] by at least one token per iteration, so
    as many iterations as there are tokens left are enough. *)
Lemma chunk_loop_terminates (fuel : nat) (tokens : list token)
      (chunk_size overlap start : Z) (chunks : list str) :
  (0 < fuel)%nat ->
  Z.of_nat (length tokens) - start < Z.of_nat fuel ->
  exists r, chunk_loop token decode fuel tokens chunk_size overlap start chunks
            = Some r.
Proof.
  revert start chunks.
  induction fuel as [|fuel IH]; intros start chunks Hpos Hfuel; [lia|].
  cbn [chunk_loop].
  destruct (Z.ltb_spec start (Z.of_nat (length tokens))); [|eauto].
  destruct (MAX_CHUNK_SIZE <? _); [eauto|].
  destruct (_ =? _); [eauto|].
  apply IH; lia.
Qed.

Lemma chunk_by_tokens_total (text : str) (chunk_size overlap : Z) :
  exists r, chunk_by_tokens token encode decode text chunk_size overlap = Some r.
Proof.
  unfold chunk_by_tokens.
  destruct (_ <=? _); [eauto|].
  apply chunk_loop_terminates; lia.
Qed.

(** Every chunk the loop appends went through the safety check. *)
Lemma chunk_loop_checked (fuel : nat) (tokens : list token)
      (chunk_size overlap start : Z) (chunks out : list str) :
  chunk_loop token decode fuel tokens chunk_size overlap start chunks
    = Some (Ok out) ->
  exists slices,
    out = chunks ++ map decode slices /\
    Forall (fun ts => Z.of_nat (length ts) <= MAX_CHUNK_SIZE) slices.
Proof.
  revert start chunks.
  induction fuel as [|fuel IH]; intros start chunks; cbn [chunk_loop];
    [discriminate|].
  destruct (start <? Z.of_nat (length tokens)).
  2:{ intros [= <-]. exists []. by rewrite app_nil_r. }
  set (ts := slice start _ tokens).
  destruct (Z.ltb_spec MAX_CHUNK_SIZE (Z.of_nat (length ts))) as [|Hle];
    [discriminate|].
  destruct (_ =? _).
  - intros [= <-]. exists [ts]. split; [done|]. by constructor.
  - intros H. apply IH in H as (slices & -> & Hall).
    exists (ts :: slices). split.
    + by rewrite <- app_assoc.
    + by constructor.
Qed.

(** The early return hands the text back without the check. *)
Lemma chunk_by_tokens_early_return (text : str) (chunk_size overlap : Z) :
  count_tokens token encode text <= chunk_size ->
  chunk_by_tokens token encode decode text chunk_size overlap = Some (Ok [text]).
Proof.
  unfold chunk_by_tokens, count_tokens. intros H.
  destruct (Z.leb_spec (Z.of_nat (length (encode text))) chunk_size); [done|lia].
Qed.

Lemma slice_length {A} (a b : Z) (l : list A) :
  0 <= a -> 0 <= b -> Z.of_nat (length (slice a b l)) <= Z.max 0 (b - a).
Proof.
  intros Ha Hb. unfold slice, clamp_index.
  destruct (Z.ltb_spec a 0); [lia|]. destruct (Z.ltb_spec b 0); [lia|].
  rewrite length_take, length_drop. lia.
Qed.

Lemma slice_window {A} (start chunk_size : Z) (l : list A) :
  0 <= start -> 0 < chunk_size ->
  Z.of_nat (length (slice start (Z.min (start + chunk_size) (Z.of_nat (length l))) l))
  <= chunk_size.
Proof.
  intros Hs Hc.
  pose proof (slice_length start (Z.min (start + chunk_size) (Z.of_nat (length l))) l Hs)
    as H.
  revert H. generalize (Z.of_nat (length (slice start
    (Z.min (start + chunk_size) (Z.of_nat (length l))) l))).
  generalize (Z.of_nat (length l)) (Nat2Z.is_nonneg (length l)). intros; lia.
Qed.

(** With a chunk size the settings accept, the loop never raises. *)
Lemma chunk_loop_configured (fuel : nat) (tokens : list token)
      (chunk_size overlap start : Z) (chunks : list str) :
  0 < chunk_size <= MAX_CHUNK_SIZE -> 0 <= start ->
  (0 < fuel)%nat -> Z.of_nat (length tokens) - start < Z.of_nat fuel ->
  exists out, chunk_loop token decode fuel tokens chunk_size overlap start chunks
              = Some (Ok out).
Proof.
  intros Hcs. revert start chunks.
  induction fuel as [|fuel IH]; intros start chunks Hstart Hpos Hfuel; [lia|].
  cbn [chunk_loop].
  destruct (Z.ltb_spec start (Z.of_nat (length tokens))); [|eauto].
  pose proof (slice_window start chunk_size tokens Hstart (proj1 Hcs)) as Hlen.
  match goal with
  | |- context [MAX_CHUNK_SIZE <? ?x] =>
      destruct (Z.ltb_spec MAX_CHUNK_SIZE x) as [Hbig|_];
      [exfalso; revert Hlen Hbig; generalize x; intros; lia|]
  end.
  destruct (_ =? _); [eauto|].
  apply IH; lia.
Qed.

Lemma chunk_by_tokens_configured (text : str) (chunk_size overlap : Z) :
  0 < chunk_size <= MAX_CHUNK_SIZE ->
  exists out,
    chunk_by_tokens token encode decode text chunk_size overlap = Some (Ok out) /\
    (out = [text] /\ count_tokens token encode text <= MAX_CHUNK_SIZE \/
     exists slices,
       out = map decode slices /\
       Forall (fun ts => Z.of_nat (length ts) <= MAX_CHUNK_SIZE) slices).
Proof.
  intros Hcs. unfold chunk_by_tokens, count_tokens.
  destruct (Z.leb_spec (Z.of_nat (length (encode text))) chunk_size).
  - exists [text]. split; [done|]. left. split; [done|lia].
  - destruct (chunk_loop_configured (S (length (encode text))) (encode text)
                chunk_size overlap 0 []) as [out Hout]; [done|lia|lia|lia|].
    exists out. split; [done|]. right.
    by apply chunk_loop_checked in Hout.
Qed.

(** The guard of [config/settings.py]: a chunk size that passed it is
    within the ceiling, so chunking with the configured sizes returns
    chunks and raises nothing. *)
Lemma chunk_size_guard (env : option Z) (chunk_size : Z) :
  CHUNK_SIZE env = Ok chunk_size -> chunk_size <= MAX_CHUNK_SIZE.
Proof.
  unfold CHUNK_SIZE.
  destruct (Z.ltb_spec MAX_CHUNK_SIZE (match env with Some n => n | None => 600 end));
    [done|]. intros [= <-]. lia.
Qed.

Lemma chunk_by_tokens_with_settings (env_size env_overlap : option Z)
      (chunk_size : Z) (text : str) :
  CHUNK_SIZE env_size = Ok chunk_size -> 0 < chunk_size ->
  exists out,
    chunk_by_tokens token encode decode text chunk_size (CHUNK_OVERLAP env_overlap)
    = Some (Ok out).
Proof.
  intros Hguard Hpos.
  destruct (chunk_by_tokens_configured text chunk_size (CHUNK_OVERLAP env_overlap))
    as (out & Hout & _); [|by exists out].
  split; [done|]. by apply (chunk_size_guard env_size).
Qed.

End ChunkLoop.

(** C1 (the code at the failing input): a text of 900 tokens chunked with
    [chunk_size = 1000], [overlap = 100] comes back whole, as one chunk of
    900 tokens, above [MAX_CHUNK_SIZE = 800], and no error is raised. *)
Lemma chunk_by_tokens_unchecked_at_900 :
  let text := repeat (ascii_of_N 97) 900 in
  Chunker.chunk_by_tokens N Chunker.char_encode Chunker.char_decode text 1000 100
    = Some (Ok [text]) /\
  Chunker.count_tokens N Chunker.char_encode text = 900 /\
  Settings.MAX_CHUNK_SIZE = 800.
Proof. vm_compute. repeat split; reflexivity. Qed.

(** With the same tokenizer and [chunk_size = 1000], a text of 1001 tokens
    takes the loop, and there the check rejects the first chunk. *)
Example chunk_by_tokens_checked_at_1001 :
  Chunker.chunk_by_tokens N Chunker.char_encode Chunker.char_decode
    (repeat (ascii_of_N 97) 1001) 1000 100
  = Some (Raise (ValueError "Chunk exceeds MAX_CHUNK_SIZE safety limit")).
Proof. vm_compute. reflexivity. Qed.

Example chunk_by_tokens_example :
  Chunker.chunk_by_tokens N Chunker.char_encode Chunker.char_decode
    "abcdefghij" 4 1
  = Some (Ok ["abcd" : str; "defg" : str; "ghij" : str]).
Proof. vm_compute. reflexivity. Qed.

(* --------------------------------------------------------------------- *)
(** ** Chunker: normalize_text                                             *)
(* --------------------------------------------------------------------- *)

(** C10 (counterexample): on "a\n \n \nb" the first pass strips the two
    whitespace-only lines and leaves "a\n\n\nb", whose three newlines the
    second pass collapses. *)
Lemma normalize_text_not_idempotent :
  Chunker.normalize_text (Chunker.normalize_text Normal.blank_lines_text)
  <> Chunker.normalize_text Normal.blank_lines_text.
Proof. vm_compute. discriminate. Qed.

Example normalize_text_blank_lines :
  Chunker.normalize_text Normal.blank_lines_text
    = [ascii_of_N 97; LF; LF; LF; ascii_of_N 98] /\
  Chunker.normalize_text (Chunker.normalize_text Normal.blank_lines_text)
    = [ascii_of_N 97; LF; LF; ascii_of_N 98].
Proof. vm_compute. split; reflexivity. Qed.

Section Normalize.

Import Chunker Normal.

Lemma adj_app R a b : adj R (a ++ b) <-> adj R a /\ adj R b /\ link R a b.
Proof.
  unfold link. induction a as [|x a IH]; cbn [app adj].
  - split; [|tauto]. intros H. split; [done|]. split; [done|]. by intros x y.
  - destruct a as [|x' a].
    + cbn [app] in *. destruct b as [|y b].
      * cbn. split; [|tauto]. intros _. split; [done|]. split; [done|].
        by intros x0 y0 _.
      * cbn [adj]. split.
        -- intros [HR Hb]. split; [done|]. split; [done|].
           by intros x0 y0 [= <-] [= <-].
        -- intros (_ & Hb & Hl). split; [|done]. by apply Hl.
    + cbn [app] in *. rewrite IH. cbn [adj]. rewrite last_cons_cons. tauto.
Qed.

Lemma adj_tail R a s : adj R (a :: s) -> adj R s.
Proof. cbn. tauto. Qed.

(** lstrip gives a suffix, rstrip a prefix *)
Lemma lstrip_suffix s : exists p, s = p ++ lstrip s /\ Forall (fun c => isspace c = true) p.
Proof.
  induction s as [|c s (p & IH & Hp)]; cbn; [by exists []|].
  destruct (isspace c) eqn:Hc.
  - exists (c :: p). split; [by rewrite IH at 1|]. by constructor.
  - by exists [].
Qed.

Lemma lstrip_head s c : head (lstrip s) = Some c -> isspace c = false.
Proof.
  induction s as [|x s IH]; cbn; [done|].
  destruct (isspace x) eqn:Hx; [done|]. by intros [= <-].
Qed.

Lemma rstrip_nil_iff s : rstrip s = [] <-> Forall (fun c => isspace c = true) s.
Proof.
  induction s as [|c s IH]; cbn; [done|].
  destruct (rstrip s) as [|r rs] eqn:Hr.
  - destruct (isspace c) eqn:Hc.
    + split; [|done]. intros _. constructor; [done|]. by apply IH.
    + split; [done|]. intros H. inversion H; congruence.
  - split; [done|]. intros H. inversion H as [|? ? ? Hs]; subst.
    apply IH in Hs. done.
Qed.

Lemma rstrip_cons c s :
  rstrip (c :: s) = if bool_decide (rstrip s = []) && isspace c then [] else c :: rstrip s.
Proof.
  cbn. destruct (rstrip s) eqn:Hr; cbn; [by destruct (isspace c)|done].
Qed.

Lemma rstrip_prefix s : exists q, s = rstrip s ++ q /\ Forall (fun c => isspace c = true) q.
Proof.
  induction s as [|c s (q & IH & Hq)]; [by exists []|].
  rewrite rstrip_cons. case_bool_decide as Hr; cbn [andb].
  - destruct (isspace c) eqn:Hc.
    + exists (c :: s). split; [done|]. constructor; [done|]. by apply rstrip_nil_iff.
    + exists q. split; [|done]. cbn. by rewrite IH at 1.
  - exists q. split; [|done]. cbn. by rewrite IH at 1.
Qed.

Lemma rstrip_last s c : last (rstrip s) = Some c -> isspace c = false.
Proof.
  induction s as [|x s IH]; [done|].
  rewrite rstrip_cons. case_bool_decide as Hr; cbn [andb].
  - destruct (isspace x) eqn:Hx; [done|]. rewrite Hr. by intros [= <-].
  - destruct (rstrip s) as [|r rs]; [done|]. rewrite last_cons_cons. apply IH.
Qed.

Lemma rstrip_fixed s :
  (forall c, last s = Some c -> isspace c = false) -> rstrip s = s.
Proof.
  induction s as [|x s IH]; [done|]. intros Hl.
  rewrite rstrip_cons. destruct s as [|y s].
  - cbn. rewrite (Hl x eq_refl). done.
  - rewrite IH by (intros c Hc; apply Hl; by rewrite last_cons_cons).
    by case_bool_decide.
Qed.

Lemma rstrip_idem s : rstrip (rstrip s) = rstrip s.
Proof. apply rstrip_fixed, rstrip_last. Qed.

Lemma lstrip_fixed s :
  (forall c, head s = Some c -> isspace c = false) -> lstrip s = s.
Proof. destruct s as [|x s]; [done|]. intros H. cbn. by rewrite (H x eq_refl). Qed.


Lemma str_ind2 (P : str -> Prop) :
  P [] -> (forall c, P [c]) ->
  (forall c d s, P s -> P (d :: s) -> P (c :: d :: s)) ->
  forall s, P s.
Proof.
  intros H0 H1 H2 s.
  assert (H : P s /\ forall c, P (c :: s)); [|tauto].
  induction s as [|d s [IHs IHc]]; [by split|].
  split; [apply IHc|]. intros c. by apply H2.
Qed.

Lemma splitlines_cons c s :
  splitlines (c :: s) =
  if is_linebreak c then
    match s with
    | d :: s' => if code_is 13 c && code_is 10 d then [] :: splitlines s'
                 else [] :: splitlines s
    | [] => [[]]
    end
  else match splitlines s with
       | [] => [[c]]
       | ln :: rest => (c :: ln) :: rest
       end.
Proof. done. Qed.

Lemma splitlines_nil_iff s : splitlines s = [] <-> s = [].
Proof.
  split; [|by intros ->].
  destruct s as [|c s]; [done|]. rewrite splitlines_cons.
  destruct (is_linebreak c).
  - destruct s as [|d s]; [done|]. by destruct (_ && _).
  - by destruct (splitlines s).
Qed.

Lemma splitlines_head s ln rest x :
  splitlines s = ln :: rest -> head ln = Some x -> head s = Some x.
Proof.
  destruct s as [|c s]; [done|]. rewrite splitlines_cons.
  destruct (is_linebreak c).
  - destruct s as [|d s]; [by intros [= <- <-]|].
    destruct (_ && _); by intros [= <- <-].
  - destruct (splitlines s); by intros [= <- <-].
Qed.

Lemma splitlines_chars s :
  Forall (Forall (fun c => is_linebreak c = false)) (splitlines s).
Proof.
  induction s as [| c | c d s IH1 IH2] using str_ind2.
  - constructor.
  - rewrite splitlines_cons. destruct (is_linebreak c) eqn:Hc; cbn; repeat constructor.
    done.
  - rewrite splitlines_cons. destruct (is_linebreak c) eqn:Hc.
    + destruct (_ && _); by constructor.
    + destruct (splitlines (d :: s)) as [|ln rest]; [by repeat constructor|].
      inversion IH2; subst. constructor; [|done]. by constructor.
Qed.

Lemma splitlines_adj R s : adj R s -> Forall (adj R) (splitlines s).
Proof.
  induction s as [| c | c d s IH1 IH2] using str_ind2; intros Hadj.
  - constructor.
  - rewrite splitlines_cons. destruct (is_linebreak c); cbn; by repeat constructor.
  - rewrite splitlines_cons.
    pose proof (adj_tail _ _ _ Hadj) as Ht.
    pose proof (adj_tail _ _ _ Ht) as Htt.
    destruct (is_linebreak c) eqn:Hc.
    + destruct (_ && _); constructor; auto; done.
    + destruct (splitlines (d :: s)) as [|ln rest] eqn:Hs; [by repeat constructor|].
      specialize (IH2 Ht). inversion IH2; subst. constructor; [|done].
      cbn [adj]. split; [|done]. destruct ln as [|y ln]; [done|].
      apply (splitlines_head _ _ _ y) in Hs; [|done]. injection Hs as ->.
      by destruct Hadj.
Qed.

Lemma join_cons_cons sep c l r : join sep ((c :: l) :: r) = c :: join sep (l :: r).
Proof. by destruct r. Qed.

Lemma join_cons sep l r : r <> [] -> join sep (l :: r) = l ++ sep ++ join sep r.
Proof. by destruct r. Qed.

Lemma Forall_join (P : ascii -> Prop) sep ls :
  Forall P sep -> Forall (Forall P) ls -> Forall P (join sep ls).
Proof.
  intros Hsep. induction 1 as [|l ls Hl Hls IH]; [constructor|].
  destruct ls as [|l' ls]; [done|]. rewrite join_cons by done.
  rewrite !Forall_app. auto.
Qed.

(** lines joined by a newline *)
Lemma adj_join (R : ascii -> ascii -> Prop) ls :
  R LF LF ->
  Forall (fun l => adj R l /\ (forall a, last l = Some a -> R a LF)
                   /\ (forall b, head l = Some b -> R LF b)) ls ->
  adj R (join [LF] ls).
Proof.
  intros HLL. induction 1 as [|l ls (Hl & Hlast & Hhead) Hls IH]; [done|].
  destruct ls as [|l' ls]; [done|]. rewrite join_cons by done.
  rewrite adj_app. split; [done|]. split.
  - change ([LF] ++ ?x) with (LF :: x). cbn [adj]. split; [|done].
    inversion Hls as [|? ? (_ & _ & Hh') _]; subst.
    destruct l' as [|c l'].
    + destruct ls; [done|]. by rewrite join_cons.
    + rewrite join_cons_cons. by apply Hh'.
  - intros x y Hx [= <-]. by apply Hlast.
Qed.


Lemma is_newline_LF c : is_newline c = true <-> c = LF.
Proof.
  unfold is_newline, code_is, code, LF. rewrite N.eqb_eq. split.
  - intros H. rewrite <- (ascii_N_embedding c). by rewrite H.
  - by intros ->.
Qed.

(** *** The two substitutions *)

Lemma sub_runs_Forall (P : ascii -> Prop) cls min repl s run :
  Forall P repl -> Forall P run -> Forall P s ->
  Forall P (sub_runs cls min repl run s).
Proof.
  intros Hrepl. revert run. induction s as [|c s IH]; intros run Hrun Hs; cbn [sub_runs].
  - by destruct (_ <=? _)%nat.
  - inversion Hs; subst. destruct (cls c).
    + apply IH; [|done]. apply Forall_app. split; [done|by constructor].
    + apply Forall_app. split; [by destruct (_ <=? _)%nat|].
      constructor; [done|]. by apply IH.
Qed.

Lemma sub_blank_adj s run :
  adj not_both_blank (sub_runs is_blank 2 " " run s).
Proof.
  revert run. induction s as [|c s IH]; intros run; cbn [sub_runs].
  - destruct (2 <=? length run)%nat eqn:Hl; [by cbn|].
    destruct run as [|a [|b run]]; by cbn.
  - destruct (is_blank c) eqn:Hc; [apply IH|].
    assert (Hrest : adj not_both_blank (c :: sub_runs is_blank 2 " " [] s)).
    { cbn [adj]. split; [|apply IH].
      destruct (sub_runs _ _ _ _ s); [done|]. intros [H _]. congruence. }
    destruct (2 <=? length run)%nat eqn:Hl.
    + cbn [app adj]. split; [|done]. change (not_both_blank " " c).
      intros [_ H]. congruence.
    + destruct run as [|a [|b run]]; [done| |done].
      cbn [app adj]. split; [|done]. intros [_ H]. congruence.
Qed.

Lemma sub_blank_id s run :
  (length run <= 1)%nat -> adj not_both_blank (run ++ s) ->
  Forall (fun c => is_blank c = true) run ->
  sub_runs is_blank 2 " " run s = run ++ s.
Proof.
  revert run. induction s as [|c s IH]; intros run Hlen Hadj Hrun; cbn [sub_runs].
  - destruct run as [|a [|b run]]; cbn in *; try done. lia.
  - destruct (is_blank c) eqn:Hc.
    + destruct run as [|a [|b run]]; cbn in Hlen; try lia.
      * apply (IH [c]); [done|done|by constructor].
      * exfalso. inversion Hrun; subst. cbn in Hadj. by apply (proj1 Hadj).
    + rewrite (IH []); [|cbn; lia| |done].
      * destruct run as [|a [|b run]]; cbn in *; try done. lia.
      * apply adj_app in Hadj as (_ & H & _). by apply adj_tail in H.
Qed.

Lemma contains_app_r n a b : contains n (a ++ b) = false -> contains n b = false.
Proof.
  induction a as [|x a IH]; [done|]. cbn [app contains].
  rewrite orb_false_iff. intros [_ H]. by apply IH.
Qed.

Lemma all_LF_last run : Forall (fun c => c = LF) run -> run <> [] -> last run = Some LF.
Proof.
  intros H Hne. destruct (last run) as [x|] eqn:Hl.
  - apply last_Some in Hl as [l' ->]. apply Forall_app in H as [_ H].
    inversion H; by subst.
  - by apply last_None in Hl.
Qed.

Lemma all_LF_triple run s :
  Forall (fun c => c = LF) run -> (3 <= length run)%nat ->
  contains triple_newline (run ++ s) = true.
Proof.
  intros H Hl. destruct run as [|a [|b [|c run]]]; cbn in Hl; try lia.
  inversion H as [|? ? -> H1]; subst. inversion H1 as [|? ? -> H2]; subst.
  inversion H2 as [|? ? -> H3]; subst. done.
Qed.

Lemma sub_newline_id s run :
  Forall (fun c => c = LF) run ->
  contains triple_newline (run ++ s) = false ->
  sub_runs is_newline 3 [LF; LF] run s = run ++ s.
Proof.
  revert run. induction s as [|c s IH]; intros run Hrun Hno; cbn [sub_runs].
  - destruct (Nat.leb_spec 3 (length run)) as [Hl|Hl]; [|by rewrite app_nil_r].
    by rewrite (all_LF_triple run [] Hrun Hl) in Hno.
  - destruct (is_newline c) eqn:Hc.
    + rewrite IH; [by rewrite <- app_assoc| |by rewrite <- app_assoc].
      apply Forall_app. split; [done|]. constructor; [|done]. by apply is_newline_LF.
    + destruct (Nat.leb_spec 3 (length run)) as [Hl|Hl].
      { by rewrite (all_LF_triple run _ Hrun Hl) in Hno. }
      rewrite (IH []); [done|done|].
      apply contains_app_r in Hno. cbn [contains] in Hno.
      by apply orb_false_iff in Hno as [_ ?].
Qed.

Lemma sub_newline_no_triple s run :
  Forall (fun c => c = LF) run ->
  contains triple_newline (sub_runs is_newline 3 [LF; LF] run s) = false.
Proof.
  revert run. induction s as [|c s IH]; intros run Hrun; cbn [sub_runs].
  - destruct (Nat.leb_spec 3 (length run)) as [Hl|Hl]; [done|].
    destruct run as [|a [|b [|d run]]]; cbn in Hl; try lia; try done.
    + inversion Hrun; by subst.
    + inversion Hrun as [|? ? -> H1]; subst. inversion H1; by subst.
  - destruct (is_newline c) eqn:Hc.
    + apply IH. apply Forall_app. split; [done|]. constructor; [|done].
      by apply is_newline_LF.
    + specialize (IH [] (Forall_nil_2 _)).
      assert (Hcne : bool_decide (LF = c) = false).
      { apply bool_decide_eq_false. intros <-. done. }
      assert (Hrest : contains triple_newline (c :: sub_runs is_newline 3 [LF; LF] [] s)
                      = false).
      { cbn [contains]. rewrite IH, orb_false_r. unfold triple_newline.
        cbn [startswith]. by rewrite Hcne. }
      assert (H1 : contains triple_newline (LF :: c :: sub_runs is_newline 3 [LF; LF] [] s)
                   = false).
      { cbn [contains] in *. rewrite Hrest, orb_false_r. unfold triple_newline.
        cbn [startswith]. by rewrite Hcne, andb_false_r. }
      assert (H2 : contains triple_newline
                     (LF :: LF :: c :: sub_runs is_newline 3 [LF; LF] [] s) = false).
      { cbn [contains] in *. rewrite H1, orb_false_r. unfold triple_newline.
        cbn [startswith]. by rewrite Hcne, !andb_false_r. }
      destruct (Nat.leb_spec 3 (length run)) as [Hl|Hl]; [done|].
      destruct run as [|a [|b [|d run]]]; cbn in Hl; try lia; try done.
      * inversion Hrun; by subst.
      * inversion Hrun as [|? ? -> H3]; subst. inversion H3; by subst.
Qed.


Lemma adj_shrink (R : ascii -> ascii -> Prop) pre run rest :
  Forall (fun c => c = LF) run -> (2 <= length run)%nat -> R LF LF ->
  adj R (pre ++ run ++ rest) -> adj R (pre ++ [LF; LF] ++ rest).
Proof.
  intros Hrun Hlen HLL.
  destruct run as [|a run]; [cbn in Hlen; lia|].
  inversion Hrun as [|? ? -> Hrun']; subst.
  assert (Hlast : last (LF :: run) = Some LF).
  { apply all_LF_last; [by constructor|done]. }
  rewrite !adj_app. intros (Hpre & (Hr & Hrest & Hl2) & Hl1).
  split; [done|]. split; [split; [by cbn|split; [done|]]|].
  - intros x y [= <-] Hy. by apply Hl2.
  - intros x y Hx [= <-]. by apply Hl1.
Qed.

Lemma adj_collapse (R : ascii -> ascii -> Prop) s run pre :
  Forall (fun c => c = LF) run -> R LF LF ->
  adj R (pre ++ run ++ s) ->
  adj R (pre ++ sub_runs is_newline 3 [LF; LF] run s).
Proof.
  intros Hrun HLL. revert run pre Hrun.
  induction s as [|c s IH]; intros run pre Hrun Hadj; cbn [sub_runs].
  - destruct (Nat.leb_spec 3 (length run)) as [Hl|Hl]; [|by rewrite app_nil_r in Hadj].
    rewrite <- (app_nil_r [LF; LF]). apply (adj_shrink R pre run []); [done|lia|done|done].
  - destruct (is_newline c) eqn:Hc.
    + apply IH.
      * apply Forall_app. split; [done|]. constructor; [|done]. by apply is_newline_LF.
      * by rewrite <- (app_assoc run).
    + set (flush := if (3 <=? length run)%nat then [LF; LF] else run).
      assert (Hf : adj R (pre ++ flush ++ c :: s)).
      { unfold flush. destruct (Nat.leb_spec 3 (length run)) as [Hl|Hl]; [|done].
        apply (adj_shrink R pre run (c :: s)); [done|lia|done|done]. }
      specialize (IH [] (pre ++ flush ++ [c]) (Forall_nil_2 _)).
      rewrite <- !app_assoc in IH. cbn [app] in IH. by apply IH.
Qed.

Lemma sub_newline_last s run c :
  last s = Some c -> is_newline c = false ->
  last (sub_runs is_newline 3 [LF; LF] run s) = Some c.
Proof.
  intros Hl Hc. revert run Hl.
  induction s as [|d s IH]; intros run Hl; [done|]. cbn [sub_runs].
  destruct s as [|e s].
  - injection Hl as ->. rewrite Hc. cbn [sub_runs length Nat.leb].
    by rewrite last_app.
  - rewrite last_cons_cons in Hl. destruct (is_newline d); [by apply IH|].
    rewrite last_app, last_cons. by rewrite (IH [] Hl).
Qed.

Lemma rstrip_Forall (P : ascii -> Prop) l : Forall P l -> Forall P (rstrip l).
Proof.
  destruct (rstrip_prefix l) as (q & Hq & _). rewrite Hq at 1.
  rewrite Forall_app. tauto.
Qed.

Lemma rstrip_adj R l : adj R l -> adj R (rstrip l).
Proof.
  destruct (rstrip_prefix l) as (q & Hq & _). rewrite Hq at 1.
  rewrite adj_app. tauto.
Qed.

Lemma adj_clean_line l :
  Forall (fun c => is_linebreak c = false) l -> adj clean_before_newline l.
Proof.
  induction 1 as [|a l Ha Hl IH]; [done|]. cbn [adj]. split; [|done].
  destruct Hl as [|b l Hb _]; [done|]. intros ->. done.
Qed.

(** *** The third step: split, strip each line, join, strip *)

Lemma join_splitlines x :
  Forall (fun c => is_linebreak c = true -> c = LF) x ->
  (forall c, last x = Some c -> c <> LF) ->
  join [LF] (splitlines x) = x.
Proof.
  induction x as [|c x IH]; [done|]. intros Hlb Hlast.
  inversion Hlb as [|? ? Hc Hx]; subst. rewrite splitlines_cons.
  assert (Hlast' : x <> [] -> forall c', last x = Some c' -> c' <> LF).
  { intros Hne c' Hc'. apply Hlast. destruct x; [done|]. by rewrite last_cons_cons. }
  destruct (is_linebreak c) eqn:Hcb.
  - rewrite (Hc eq_refl) in *. destruct x as [|d x].
    + by destruct (Hlast LF).
    + change (code_is 13 LF) with false. cbn [andb].
      rewrite join_cons by (by rewrite splitlines_nil_iff).
      rewrite IH; [done|done|by apply Hlast'].
  - destruct (splitlines x) as [|ln rest] eqn:Hs.
    + apply splitlines_nil_iff in Hs as ->. done.
    + rewrite join_cons_cons. f_equal. apply IH; [done|].
      apply Hlast'. intros ->. done.
Qed.

Lemma splitlines_empty_first x rest :
  splitlines x = [] :: rest -> exists d x', x = d :: x' /\ is_linebreak d = true.
Proof.
  destruct x as [|d x]; [done|]. rewrite splitlines_cons.
  destruct (is_linebreak d) eqn:Hd; [intros _; by exists d, x|].
  by destruct (splitlines x).
Qed.

Lemma lines_rstripped x :
  Forall (fun c => is_linebreak c = true -> c = LF) x ->
  adj clean_before_newline x ->
  (forall c, last x = Some c -> isspace c = false) ->
  Forall (fun l => rstrip l = l) (splitlines x).
Proof.
  induction x as [|c x IH]; [constructor|]. intros Hlb Hadj Hlast.
  inversion Hlb as [|? ? Hc Hx]; subst. rewrite splitlines_cons.
  assert (IH' : x <> [] -> Forall (fun l => rstrip l = l) (splitlines x)).
  { intros Hne. apply IH; [done|by apply adj_tail in Hadj|].
    intros c' Hc'. apply Hlast. destruct x; [done|]. by rewrite last_cons_cons. }
  destruct (is_linebreak c) eqn:Hcb.
  - rewrite (Hc eq_refl) in *. destruct x as [|d x]; [by repeat constructor|].
    change (code_is 13 LF) with false. cbn [andb]. constructor; [done|]. by apply IH'.
  - destruct (splitlines x) as [|ln rest] eqn:Hs.
    + apply splitlines_nil_iff in Hs as ->. constructor; [|done].
      cbn. by rewrite (Hlast c eq_refl).
    + assert (Hne : x <> []) by (intros ->; done).
      specialize (IH' Hne). inversion IH' as [|? ? Hln Hrest]; subst.
      constructor; [|done]. rewrite rstrip_cons, Hln.
      destruct ln as [|y ln]; [|by case_bool_decide].
      destruct (splitlines_empty_first _ _ Hs) as (d & x' & -> & Hd).
      inversion Hx as [|? ? Hd' _]; subst. rewrite (Hd' Hd) in *.
      destruct Hadj as [Hcl _]. destruct (Hcl eq_refl) as [-> | ->]; [done|].
      by rewrite andb_false_r.
Qed.


Lemma strip_lines_fixed x :
  normal x -> strip (join [LF] (map rstrip (splitlines x))) = x.
Proof.
  intros (Hlb & _ & Hclean & Hhead & Hlast).
  assert (Hmap : map rstrip (splitlines x) = splitlines x).
  { pose proof (lines_rstripped x Hlb Hclean Hlast) as H.
    induction H as [|l ls Hl _ IH]; [done|]. cbn. by rewrite Hl, IH. }
  rewrite Hmap, join_splitlines; [|done|].
  - unfold strip. rewrite lstrip_fixed by done. by apply rstrip_fixed.
  - intros c Hc ->. by specialize (Hlast _ Hc).
Qed.

(** What the third step returns is normal, provided the second step ran
    before it. *)
Lemma strip_lines_normal t :
  adj not_both_blank t ->
  normal (strip (join [LF] (map rstrip (splitlines t)))).
Proof.
  intros Hnb.
  set (ls := map rstrip (splitlines t)).
  assert (Hchars : Forall (Forall (fun c => is_linebreak c = false)) ls).
  { apply List.Forall_map. eapply Forall_impl; [apply splitlines_chars|].
    intros l. apply rstrip_Forall. }
  assert (Hnbs : Forall (adj not_both_blank) ls).
  { apply List.Forall_map. eapply Forall_impl; [by apply splitlines_adj|].
    intros l. apply rstrip_adj. }
  assert (Hlasts : Forall (fun l => forall a, last l = Some a -> isspace a = false) ls).
  { apply List.Forall_map, Forall_forall. intros l _. apply rstrip_last. }
  set (x0 := join [LF] ls).
  assert (H1 : Forall (fun c => is_linebreak c = true -> c = LF) x0).
  { apply Forall_join; [by repeat constructor|].
    eapply Forall_impl; [exact Hchars|]. intros l Hl.
    eapply Forall_impl; [exact Hl|]. cbn. intros c Hc. by rewrite Hc. }
  assert (H2 : adj not_both_blank x0).
  { apply adj_join; [by intros [? _]|].
    eapply Forall_impl; [exact Hnbs|]. intros l Hl. split; [done|].
    split; intros c _ [H H']; done. }
  assert (H3 : adj clean_before_newline x0).
  { apply adj_join; [by left|].
    assert (H : Forall (fun l => Forall (fun c => is_linebreak c = false) l /\
                         (forall a, last l = Some a -> isspace a = false)) ls).
    { apply Forall_and. by split. }
    eapply Forall_impl; [exact H|]. intros l [Hl Hla]. split; [by apply adj_clean_line|].
    split.
    - intros a Ha _. right. by apply Hla.
    - intros b Hb Hbl. by left. }
  unfold strip. fold x0.
  destruct (lstrip_suffix x0) as (p & Hp & _).
  destruct (rstrip_prefix (lstrip x0)) as (q & Hq & _).
  rewrite Hp, Forall_app in H1. rewrite Hp, adj_app in H2, H3.
  destruct H1 as [_ H1], H2 as (_ & H2 & _), H3 as (_ & H3 & _).
  rewrite Hq, Forall_app in H1. rewrite Hq, adj_app in H2, H3.
  destruct H1 as [H1 _], H2 as (H2 & _), H3 as (H3 & _).
  repeat split; try done.
  - intros c Hc. apply (lstrip_head x0). rewrite Hq.
    destruct (rstrip (lstrip x0)); [done|]. done.
  - apply rstrip_last.
Qed.

Lemma normalize_text_normal t : normal (normalize_text t).
Proof. unfold normalize_text. apply strip_lines_normal, sub_blank_adj. Qed.

Lemma normal_space_free_ends x c :
  normal x -> head x = Some c \/ last x = Some c -> is_newline c = false.
Proof.
  intros (_ & _ & _ & Hh & Hl) H.
  assert (Hc : isspace c = false) by (destruct H; auto).
  destruct (is_newline c) eqn:Hn; [|done]. apply is_newline_LF in Hn as ->. done.
Qed.

Lemma collapse_newlines_normal x : normal x -> normal (collapse_newlines x).
Proof.
  intros Hx. pose proof Hx as (Hlb & Hnb & Hclean & Hhead & Hlast).
  unfold collapse_newlines. repeat split.
  - apply sub_runs_Forall; [by repeat constructor|constructor|done].
  - apply (adj_collapse not_both_blank x [] []); [constructor|by intros [? _]|done].
  - apply (adj_collapse clean_before_newline x [] []); [constructor|by left|done].
  - destruct x as [|c x]; [done|]. cbn [sub_runs].
    rewrite (normal_space_free_ends _ c Hx) by (by left). cbn. intros c' [= <-].
    by apply Hhead.
  - destruct (last x) as [c|] eqn:Hl.
    + rewrite (sub_newline_last x [] c Hl); [|apply (normal_space_free_ends x); auto].
      intros c' [= <-]. by apply Hlast.
    + apply last_None in Hl as ->. done.
Qed.

Lemma normalize_text_of_normal x :
  normal x -> normalize_text x = collapse_newlines x.
Proof.
  intros Hx. apply collapse_newlines_normal in Hx.
  unfold normalize_text. fold (collapse_newlines x).
  rewrite (sub_blank_id (collapse_newlines x) []); [|cbn; lia|apply Hx|constructor].
  by apply strip_lines_fixed.
Qed.

Lemma collapse_newlines_fixed x :
  contains triple_newline x = false -> collapse_newlines x = x.
Proof. intros H. by apply (sub_newline_id x []). Qed.

End Normalize.

(** C10 (amended): a second pass of [normalize_text] changes its own
    output exactly when that output holds a run of three or more
    newlines (left by whitespace-only lines, or by line separators other
    than the newline): [normalize_text (normalize_text t) =
    normalize_text t] if and only if "\n\n\n" does not occur in
    [normalize_text t]; and the second pass always reaches a fixed point:
    a third pass changes nothing. *)
Theorem normalize_text_stable (t : str) :
  (Chunker.normalize_text (Chunker.normalize_text t) = Chunker.normalize_text t <->
   contains Normal.triple_newline (Chunker.normalize_text t) = false) /\
  Chunker.normalize_text (Chunker.normalize_text (Chunker.normalize_text t))
  = Chunker.normalize_text (Chunker.normalize_text t).
Proof.
  pose proof (normalize_text_normal t) as Hx.
  set (x := Chunker.normalize_text t) in *.
  rewrite (normalize_text_of_normal x Hx).
  assert (Hy : contains Normal.triple_newline (Normal.collapse_newlines x) = false)
    by (apply sub_newline_no_triple; constructor).
  split; [split|].
  - intros H. by rewrite H in Hy.
  - apply collapse_newlines_fixed.
  - rewrite (normalize_text_of_normal _ (collapse_newlines_normal x Hx)).
    by apply collapse_newlines_fixed.
Qed.

Example normalize_text_examples :
  Chunker.normalize_text "  Revenue   grew  " = "Revenue grew" /\
  Chunker.normalize_text
    [ascii_of_N 97; ascii_of_N 32; LF; LF; LF; LF; ascii_of_N 9; ascii_of_N 32;
     ascii_of_N 98; ascii_of_N 13; LF]
  = [ascii_of_N 97; LF; LF; ascii_of_N 32; ascii_of_N 98].
Proof. vm_compute. split; reflexivity. Qed.

(* --------------------------------------------------------------------- *)
(** ** Financial facts: parse_column                                       *)
(* --------------------------------------------------------------------- *)

Section ParseColumn.

Import FinancialFacts.

Lemma split_once_spec (d : ascii) (s a b : str) :
  split_once d s = Some (a, b) -> s = a ++ d :: b /\ ~ In d a.
Proof.
  revert a b. induction s as [|c s IH]; intros a b; cbn; [discriminate|].
  case_bool_decide as Hc.
  - intros [= <- <-]. subst. split; [done|]. intros [].
  - destruct (split_once d s) as [[a' b']|]; [|discriminate].
    intros [= <- <-]. destruct (IH a' b' eq_refl) as [-> Hn].
    split; [done|]. intros [H|H]; [by apply Hc|by apply Hn].
Qed.

(** What [parse_column] accepts, and what it returns then. *)
Lemma parse_column_cases (col : str) :
  parse_column col = (None, None) \/
  exists scope year,
    col = scope ++ underscore :: year /\ ~ In underscore scope /\
    isdigit year = true /\
    mem (upper scope) ["GROUP" : str; "COMPANY" : str] = true /\
    parse_column col = (Some (upper scope), Some year).
Proof.
  unfold parse_column.
  destruct (split_once underscore col) as [[scope year]|] eqn:Hs; [|by left].
  destruct (isdigit year) eqn:Hy; [|by left].
  destruct (mem (upper scope) _) eqn:Hm; [|by left].
  right. exists scope, year.
  destruct (split_once_spec _ _ _ _ Hs) as [-> Hn].
  rewrite Hy, Hm. by repeat split.
Qed.

Lemma col_meta_step_rejected (meta : list (str * (str * str))) (col : str) :
  parse_column col = (None, None) -> col_meta_step meta col = meta.
Proof. unfold col_meta_step. by intros ->. Qed.

End ParseColumn.

(** C9 (counterexample): a two-digit year is accepted when the scope is
    one of the two known ones. *)
Lemma parse_column_two_digit_year :
  FinancialFacts.parse_column "Group_24" = (Some ("GROUP" : str), Some ("24" : str)).
Proof. vm_compute. reflexivity. Qed.

(** C9 (amended): "Group_2024" parses to ("GROUP", "2024"); "Revenue_24"
    is rejected (for its scope); every column name is either rejected with
    (None, None) or is [scope ++ "_" ++ year] with no underscore in
    [scope], a non-empty all-digit [year] of any length and a [scope] that
    upper-cases to GROUP or COMPANY, and is then parsed to
    [(upper scope, year)]; a rejected column adds nothing to [col_meta]. *)
Theorem parse_column_spec :
  FinancialFacts.parse_column "Group_2024"
    = (Some ("GROUP" : str), Some ("2024" : str)) /\
  FinancialFacts.parse_column "Revenue_24" = (None, None) /\
  (forall col : str,
      FinancialFacts.parse_column col = (None, None) \/
      exists scope year,
        col = scope ++ FinancialFacts.underscore :: year /\
        ~ In FinancialFacts.underscore scope /\
        isdigit year = true /\
        mem (upper scope) ["GROUP" : str; "COMPANY" : str] = true /\
        FinancialFacts.parse_column col = (Some (upper scope), Some year)) /\
  (forall meta col,
      FinancialFacts.parse_column col = (None, None) ->
      FinancialFacts.col_meta_step meta col = meta).
Proof.
  split; [vm_compute; reflexivity|].
  split; [vm_compute; reflexivity|].
  split; [apply parse_column_cases|apply col_meta_step_rejected].
Qed.

Example col_meta_example :
  FinancialFacts.col_meta_of
    ["item" : str; "Group_2024" : str; "Revenue_24" : str; "company_2023" : str]
  = [ ("group_2024" : str, ("GROUP" : str, "2024" : str));
      ("company_2023" : str, ("COMPANY" : str, "2023" : str)) ].
Proof. vm_compute. reflexivity. Qed.

(* --------------------------------------------------------------------- *)
(** ** Reference extraction                                                *)
(* --------------------------------------------------------------------- *)

Section References.

Import Re ReferenceExtractor.

Lemma dedup_loop_incl (seen : list str) (refs : list reference) (r : reference) :
  In r (dedup_loop seen refs) -> In r refs.
Proof.
  revert seen. induction refs as [|x refs IH]; intros seen; cbn; [done|].
  destruct (mem _ _).
  - intros H. right. by apply (IH seen).
  - intros [->|H]; [by left|]. right. by apply (IH _ H).
Qed.

(** Every reference returned was made from a match of one of the six
    patterns whose window holds a cue word. *)
Lemma extracted_reference_gated (text section_id doc_id : str) (r : reference) :
  In r (extract_cross_section_references text section_id doc_id) ->
  exists pattern ref_type m,
    In (pattern, ref_type) patterns /\
    In m (finditer pattern text) /\
    any_in cue_words (window text m) = true /\
    r = make_reference text section_id doc_id ref_type m.
Proof.
  intros H. apply dedup_loop_incl in H.
  unfold candidates in H. apply in_flat_map in H as ([pattern ref_type] & Hp & H).
  apply in_map_iff in H as (m & <- & Hm).
  apply filter_In in Hm as [Hm Hg].
  by exists pattern, ref_type, m.
Qed.

Lemma infer_reason_priority (w : str) :
  (contains "defined" w = true -> _infer_reference_reason w = "DEFINED_IN") /\
  (contains "defined" w = false ->
   any_in ["detailed" : str; "explained" : str; "described" : str] w = true ->
   _infer_reference_reason w = "DETAILED_IN") /\
  (contains "defined" w = false ->
   any_in ["detailed" : str; "explained" : str; "described" : str] w = false ->
   _infer_reference_reason w = "REFERENCED_IN").
Proof.
  unfold _infer_reference_reason.
  repeat split; intros; repeat match goal with H : _ = _ |- _ => rewrite H end;
    reflexivity.
Qed.

End References.

Example total_assets_no_reference :
  ReferenceExtractor.extract_cross_section_references
    "Total assets were 42." "s1" "doc-1" = [].
Proof. vm_compute. reflexivity. Qed.

(** C8 (counterexample): the window of "see Table 2 for details" holds
    "details", not "detailed", so the reason falls through to the
    default. *)
Lemma see_table_2_reason_not_detailed :
  map ReferenceExtractor.reason
      (ReferenceExtractor.extract_cross_section_references
         "see Table 2 for details" "s1" "doc-1")
  <> ["DETAILED_IN" : str].
Proof. vm_compute. discriminate. Qed.

Example see_table_2_reference (section_id doc_id : str) :
  ReferenceExtractor.extract_cross_section_references
    "see Table 2 for details" section_id doc_id
  = [ {| ReferenceExtractor.reference_id :=
           doc_id ++ (":" : str) ++ section_id ++ (":TABLE:2" : str);
         ReferenceExtractor.reference_type := "TABLE";
         ReferenceExtractor.target_locator := "2";
         ReferenceExtractor.from_section_id := section_id;
         ReferenceExtractor.ref_doc_id := doc_id;
         ReferenceExtractor.reason := "REFERENCED_IN" |} ].
Proof. reflexivity. Qed.

Example as_detailed_in_table_2 :
  map (fun r => (ReferenceExtractor.reference_type r,
                 ReferenceExtractor.target_locator r,
                 ReferenceExtractor.reason r))
      (ReferenceExtractor.extract_cross_section_references
         "as detailed in Table 2.1 and defined on page 7" "s1" "doc-1")
  = [ ("PAGE" : str, "7" : str, "DEFINED_IN" : str);
      ("TABLE" : str, "2.1" : str, "DEFINED_IN" : str) ].
Proof. vm_compute. reflexivity. Qed.

(** C8 (amended): a reference is returned only for a match of one of the
    locator patterns whose window (60 characters either side, lower-cased)
    holds one of the cue words, and its reason is read from that window by
    priority: "defined", then "detailed" / "explained" / "described", then
    the default REFERENCED_IN.  "Total assets were 42." yields no
    reference; "see Table 2 for details" yields exactly one reference, of
    type TABLE with locator "2", and its reason is REFERENCED_IN. *)
Theorem extract_cross_section_references_spec :
  (forall (text section_id doc_id : str) (r : ReferenceExtractor.reference),
      In r (ReferenceExtractor.extract_cross_section_references text section_id doc_id) ->
      exists pattern ref_type m,
        In (pattern, ref_type) ReferenceExtractor.patterns /\
        In m (Re.finditer pattern text) /\
        any_in ReferenceExtractor.cue_words (ReferenceExtractor.window text m) = true /\
        r = ReferenceExtractor.make_reference text section_id doc_id ref_type m /\
        ReferenceExtractor.reason r
          = ReferenceExtractor._infer_reference_reason (ReferenceExtractor.window text m)) /\
  (forall w : str,
      ReferenceExtractor._infer_reference_reason w =
        if contains "defined" w then "DEFINED_IN" : str
        else if contains "detailed" w || contains "explained" w || contains "described" w
             then "DETAILED_IN" : str
             else "REFERENCED_IN" : str) /\
  (forall section_id doc_id : str,
      ReferenceExtractor.extract_cross_section_references
        "Total assets were 42." section_id doc_id = []) /\
  (forall section_id doc_id : str,
      exists r,
        ReferenceExtractor.extract_cross_section_references
          "see Table 2 for details" section_id doc_id = [r] /\
        ReferenceExtractor.reference_type r = "TABLE" /\
        ReferenceExtractor.target_locator r = "2" /\
        ReferenceExtractor.reason r = "REFERENCED_IN").
Proof.
  split; [|split; [|split]].
  - intros text section_id doc_id r H.
    destruct (extracted_reference_gated _ _ _ _ H) as (p & ty & m & Hp & Hm & Hg & ->).
    by exists p, ty, m.
  - intros w. unfold ReferenceExtractor._infer_reference_reason, any_in. cbn [existsb].
    by rewrite orb_false_r, orb_assoc.
  - reflexivity.
  - intros section_id doc_id. eexists. split; [reflexivity|]. by repeat split.
Qed.

(* --------------------------------------------------------------------- *)
(** ** Graph store: create_entity                                          *)
(* --------------------------------------------------------------------- *)

Section CreateEntity.

Import Json Neo4j Upserts.

Lemma str_eqb_eq (a b : str) : str_eqb a b = true <-> a = b.
Proof. unfold str_eqb. by rewrite bool_decide_eq_true. Qed.

Lemma mem_core_important (s : str) :
  mem s ["CORE" : str; "IMPORTANT" : str] = true ->
  s = ("CORE" : str) \/ s = ("IMPORTANT" : str).
Proof.
  unfold mem. cbn [existsb]. rewrite orb_false_r, orb_true_iff.
  by rewrite !str_eqb_eq.
Qed.

Lemma promoted_not_supporting (s : str) :
  mem s ["CORE" : str; "IMPORTANT" : str] = true ->
  str_eqb s "SUPPORTING" = false.
Proof. by intros [-> | ->]%mem_core_important. Qed.

(** What one ON MATCH does to the salience. *)
Lemma on_match_salience (e : entity) (description salience : str) :
  e_salience (on_match e description salience) = e_salience e \/
  (e_salience e = ("SUPPORTING" : str) /\
   (e_salience (on_match e description salience) = ("CORE" : str) \/
    e_salience (on_match e description salience) = ("IMPORTANT" : str))).
Proof.
  unfold on_match. cbn [e_salience].
  destruct (str_eqb (e_salience e) "SUPPORTING") eqn:Hs; [|by left].
  destruct (mem salience _) eqn:Hm; [|by left]. cbn [andb].
  right. split; [by apply str_eqb_eq|]. by apply mem_core_important.
Qed.

Lemma on_match_idempotent (e : entity) (description salience : str) :
  on_match (on_match e description salience) description salience
  = on_match e description salience.
Proof.
  unfold on_match. cbn [e_type e_description e_salience e_created_at]. f_equal.
  - destruct (Nat.ltb_spec (length (e_description e)) (length description)) as [|Hge];
      [by rewrite Nat.ltb_irrefl|].
    destruct (Nat.ltb_spec (length (e_description e)) (length description));
      [lia|done].
  - destruct (str_eqb (e_salience e) "SUPPORTING") eqn:Hs; cbn [andb];
      [|by rewrite Hs].
    destruct (mem salience _) eqn:Hm; [|by rewrite Hs].
    by rewrite (promoted_not_supporting _ Hm).
Qed.

Lemma on_match_after_create (entity_type description salience : str) (now : Z) :
  on_match (on_create entity_type description salience now) description salience
  = on_create entity_type description salience now.
Proof.
  unfold on_match, on_create.
  cbn [e_type e_description e_salience e_created_at]. f_equal.
  - by rewrite Nat.ltb_irrefl.
  - destruct (str_eqb salience "SUPPORTING") eqn:Hs; [|done]. cbn [andb].
    destruct (mem salience _) eqn:Hm; [|done].
    by rewrite (promoted_not_supporting _ Hm) in Hs.
Qed.

Lemma salience_of_create_entity (name entity_type description salience doc_id : str)
      (now : Z) (g : graph) (d n : str) :
  salience_of (fst (create_entity name entity_type description salience doc_id now g)) d n
  = if bool_decide ((doc_id, name) = (d, n))
    then Some (match entities g !! (d, n) with
               | Some old => e_salience (on_match old description salience)
               | None => salience
               end)
    else salience_of g d n.
Proof.
  unfold salience_of, create_entity. cbn.
  case_bool_decide as Hk.
  - rewrite <- Hk, lookup_insert_eq. cbn. by destruct (entities g !! _).
  - by rewrite lookup_insert_ne.
Qed.

Lemma apply_upsert_salience (u : upsert) (g : graph) (d n old : str) :
  salience_of g d n = Some old ->
  exists new,
    salience_of (apply_upsert g u) d n = Some new /\
    (new = old \/
     (old = ("SUPPORTING" : str) /\
      (new = ("CORE" : str) \/ new = ("IMPORTANT" : str)))).
Proof.
  intros Hold. unfold apply_upsert. rewrite salience_of_create_entity.
  case_bool_decide as Hk; [|by exists old; split; [|left]].
  unfold salience_of in Hold.
  destruct (entities g !! (d, n)) as [e|]; [|done].
  injection Hold as <-. eexists. split; [done|].
  apply on_match_salience.
Qed.

Lemma run_upserts_salience (us : list upsert) (g : graph) (d n old : str) :
  salience_of g d n = Some old ->
  exists new,
    salience_of (run_upserts us g) d n = Some new /\
    (new = old \/
     (old = ("SUPPORTING" : str) /\
      (new = ("CORE" : str) \/ new = ("IMPORTANT" : str)))).
Proof.
  revert g old. induction us as [|u us IH]; intros g old Hold; cbn.
  - exists old. by split; [|left].
  - destruct (apply_upsert_salience u g d n old Hold) as (mid & Hmid & Hstep).
    destruct (IH _ _ Hmid) as (new & Hnew & Hrest).
    exists new. split; [done|].
    destruct Hstep as [->|[-> Hm]]; [done|].
    destruct Hrest as [->|[-> _]]; [by right|].
    by destruct Hm.
Qed.

End CreateEntity.

(** C4: along any sequence of [create_entity] upserts (of this or any
    other entity), the stored salience of an entity either stays what it
    was or went from SUPPORTING to CORE or to IMPORTANT; a stored CORE or
    IMPORTANT never changes again; and an entity that is new, or stored
    as SUPPORTING, and is upserted with salience CORE and then with
    SUPPORTING is stored with CORE. *)
Theorem salience_monotone
        (us : list Upserts.upsert) (g : Neo4j.graph) (doc_id name old : str) :
  Upserts.salience_of g doc_id name = Some old ->
  (exists new,
      Upserts.salience_of (Upserts.run_upserts us g) doc_id name = Some new /\
      (new = old \/
       (old = ("SUPPORTING" : str) /\
        (new = ("CORE" : str) \/ new = ("IMPORTANT" : str)))) /\
      (old = ("CORE" : str) \/ old = ("IMPORTANT" : str) -> new = old)) /\
  (forall ty1 d1 ty2 d2 now1 now2 g0,
      Upserts.salience_of g0 doc_id name = None \/
      Upserts.salience_of g0 doc_id name = Some ("SUPPORTING" : str) ->
      Upserts.salience_of
        (fst (Neo4j.create_entity name ty2 d2 "SUPPORTING" doc_id now2
                (fst (Neo4j.create_entity name ty1 d1 "CORE" doc_id now1 g0))))
        doc_id name = Some ("CORE" : str)).
Proof.
  intros Hold. split.
  - destruct (run_upserts_salience us g doc_id name old Hold) as (new & Hnew & Hstep).
    exists new. repeat split; [done..|].
    intros Hfinal. destruct Hstep as [->|[-> _]]; [done|].
    by destruct Hfinal.
  - intros ty1 d1 ty2 d2 now1 now2 g0 Hfresh.
    rewrite salience_of_create_entity, bool_decide_eq_true_2 by done.
    f_equal. unfold Neo4j.create_entity. cbn [fst Neo4j.entities Neo4j.set_entities].
    rewrite lookup_insert_eq. unfold Upserts.salience_of in Hfresh.
    destruct (Neo4j.entities g0 !! (doc_id, name)) as [e|]; [|done].
    destruct Hfresh as [[=]|[= He]].
    unfold Neo4j.on_match. cbn [Neo4j.e_salience]. by rewrite He.
Qed.

(** The theorem at work: "Acme", stored as CORE, is upserted as SUPPORTING
    and then as IMPORTANT, and stays CORE. *)
Lemma salience_monotone_witness :
  Upserts.salience_of (Upserts.acme_graph "CORE") "doc-1" "Acme" = Some ("CORE" : str) /\
  Upserts.salience_of
    (Upserts.run_upserts [Upserts.demote_acme; Upserts.promote_acme]
                         (Upserts.acme_graph "CORE")) "doc-1" "Acme"
  = Some ("CORE" : str).
Proof.
  assert (H : Upserts.salience_of (Upserts.acme_graph "CORE") "doc-1" "Acme"
              = Some ("CORE" : str)) by (vm_compute; reflexivity).
  split; [exact H|].
  destruct (salience_monotone [Upserts.demote_acme; Upserts.promote_acme]
              _ _ _ _ H) as [(new & -> & _ & Hfix) _].
  f_equal. apply Hfix. by left.
Defined.

(** C5: a second [create_entity] with the same arguments (at any later
    clock value) leaves the store as the first one left it, and returns
    the same record. *)
Theorem create_entity_idempotent
        (name entity_type description salience doc_id : str)
        (now1 now2 : Z) (g : Neo4j.graph) :
  Neo4j.create_entity name entity_type description salience doc_id now2
    (fst (Neo4j.create_entity name entity_type description salience doc_id now1 g))
  = Neo4j.create_entity name entity_type description salience doc_id now1 g.
Proof.
  unfold Neo4j.create_entity. cbn.
  rewrite lookup_insert_eq, insert_insert_eq.
  destruct (Neo4j.entities g !! (doc_id, name)) as [old|].
  - by rewrite on_match_idempotent.
  - by rewrite on_match_after_create.
Qed.

(* --------------------------------------------------------------------- *)
(** ** Graph store: create_relationship, and the loop that calls it        *)
(* --------------------------------------------------------------------- *)

Section CreateRelationship.

Import Json Neo4j Extractor.

Lemma create_relationship_disallowed
      (source_name target_name rel_type : str) (description : json)
      (doc_id : str) (g : graph) :
  mem (upper rel_type) allowed = false ->
  create_relationship source_name target_name rel_type description doc_id g
  = (g, false).
Proof. unfold create_relationship. by intros ->. Qed.

Lemma create_relationship_allowed
      (source_name target_name rel_type : str) (description : json)
      (doc_id : str) (g : graph) :
  mem (upper rel_type) allowed = true ->
  snd (create_relationship source_name target_name rel_type description doc_id g)
  = true.
Proof.
  unfold create_relationship. intros ->. cbn [negb].
  by destruct (entities g !! (doc_id, source_name)),
              (entities g !! (doc_id, target_name)).
Qed.

(** The loop drops an item whose two endpoints normalize to the same
    name before the store is called. *)
Lemma persist_relationship_self_loop (r : json) (written : Z) (g : graph) (s : str) :
  normalized_endpoint r "source" = Ok s ->
  normalized_endpoint r "target" = Ok s ->
  fst (persist_relationship r written g) = g /\
  (forall w, snd (persist_relationship r written g) = Ok w -> w = written).
Proof.
  intros Hs Ht. unfold persist_relationship, mbind, lift, ret.
  destruct (py_get r "type" (JStr [])) as [ty|e]; [|by split].
  destruct (py_upper ty) as [rel_type|e]; [|by split].
  destruct (negb (mem rel_type ALLOWED_REL_TYPES)).
  { split; [done|]. by intros w [= <-]. }
  rewrite Hs, Ht.
  replace (str_eqb s s) with true by (symmetry; by apply bool_decide_eq_true).
  rewrite orb_true_r. split; [done|]. by intros w [= <-].
Qed.

End CreateRelationship.

(** C3 (counterexample): with the entity "Acme" in the store, a DEFINES
    relationship from "Acme" to "Acme" is written and [True] is
    returned. *)
Lemma create_relationship_self_loop_written :
  let g := Upserts.acme_graph "CORE" in
  let out := Neo4j.create_relationship "Acme" "Acme" "DEFINES" (Json.JStr [])
                                       "doc-1" g in
  snd out = true /\
  Neo4j.relationships g
    !! ("doc-1" : str, "Acme" : str, "Acme" : str, "DEFINES" : str) = None /\
  Neo4j.relationships (fst out)
    !! ("doc-1" : str, "Acme" : str, "Acme" : str, "DEFINES" : str)
  = Some (Json.JStr []).
Proof. vm_compute. repeat split; reflexivity. Qed.

Example create_relationship_lower_case_type :
  snd (Neo4j.create_relationship "Acme" "Beta" "defines" (Json.JStr [])
                                 "doc-1" Neo4j.empty_graph) = true.
Proof. vm_compute. reflexivity. Qed.

Example persist_relationships_example :
  let g := Upserts.acme_graph "CORE" in
  Extractor.persist_relationships
    [ Upserts.rel_item "DEFINES" " Acme " "Acme";
      Upserts.rel_item "OWNS" "Acme" "Beta" ] 0 g
  = (g, Ok 0).
Proof. vm_compute. reflexivity. Qed.

(** C3 (amended): [create_relationship] returns false, and leaves the
    store as it was, when the upper-cased relationship type is outside
    {DEFINES, DETAILS, REFERS_TO, ASSOCIATED_WITH}; for a type inside the
    set it returns true whatever the two names are.  Self-loops are
    dropped one level up: the relationship loop of [persist_extraction]
    skips an item whose source and target normalize to the same string,
    without a store write and without counting it. *)
Theorem create_relationship_spec :
  (forall (source_name target_name rel_type : str) (description : Json.json)
          (doc_id : str) (g : Neo4j.graph),
      mem (upper rel_type) Neo4j.allowed = false ->
      Neo4j.create_relationship source_name target_name rel_type description doc_id g
      = (g, false)) /\
  (forall (source_name target_name rel_type : str) (description : Json.json)
          (doc_id : str) (g : Neo4j.graph),
      mem (upper rel_type) Neo4j.allowed = true ->
      snd (Neo4j.create_relationship source_name target_name rel_type
                                     description doc_id g) = true) /\
  (forall (r : Json.json) (written : Z) (g : Neo4j.graph) (s : str),
      Extractor.normalized_endpoint r "source" = Ok s ->
      Extractor.normalized_endpoint r "target" = Ok s ->
      fst (Extractor.persist_relationship r written g) = g /\
      (forall w, snd (Extractor.persist_relationship r written g) = Ok w ->
                 w = written)).
Proof.
  split; [apply create_relationship_disallowed|].
  split; [apply create_relationship_allowed|apply persist_relationship_self_loop].
Qed.

(* --------------------------------------------------------------------- *)
(** ** Extractor: extract_entities_and_relationships                       *)
(* --------------------------------------------------------------------- *)

Section Extraction.

Import Json Extractor.

Variable openai_client : option provider.
Variable groq_client : option provider.
Variable EXTRACTION_PROMPT : str.
Variable json_loads : str -> result json.

Let extract :=
  extract_entities_and_relationships openai_client groq_client
                                     EXTRACTION_PROMPT json_loads.
Let chat := chat_completion openai_client groq_client.
Let parse := parse_response json_loads.

(** The call returns a value on every input. *)
Lemma extract_never_raises (text section_id : str) (is_empty : bool) :
  exists log ex, extract text section_id is_empty = (log, Ok ex).
Proof.
  unfold extract, extract_entities_and_relationships.
  destruct (is_empty || _); [by eauto|].
  destruct (chat_completion _ _ _) as [log answer].
  destruct (bind answer _); eauto.
Qed.

(** No request is made for an empty chunk. *)
Lemma extract_empty_chunk (text section_id : str) (is_empty : bool) :
  is_empty = true \/ strip text = [] ->
  extract text section_id is_empty = ([], Ok empty_extraction).
Proof.
  unfold extract, extract_entities_and_relationships.
  intros [-> | ->]; [done|]. by rewrite orb_true_r.
Qed.

(** Otherwise the outcome is that of the backend followed by the
    parse, with every exception turned into the empty result. *)
Lemma extract_nonempty (text section_id : str) :
  strip text <> [] ->
  extract text section_id false =
    let '(log, answer) := chat (request EXTRACTION_PROMPT text section_id) in
    (log, Ok (match bind answer parse with
              | Ok ex => ex
              | Raise _ => empty_extraction
              end)).
Proof.
  unfold extract, extract_entities_and_relationships, chat, parse.
  intros Hne. destruct (strip text) eqn:Hs; [done|]. cbn [orb py_truthy negb].
  destruct (chat_completion _ _ _) as [log answer].
  by destruct (bind answer _).
Qed.

(** The failures of the parse. *)
Lemma parse_response_failures (r : response) :
  (choices r = [] -> parse r = Raise IndexError) /\
  (forall cs, choices r = None :: cs -> parse r = Raise TypeError) /\
  (forall s cs e, choices r = Some s :: cs -> json_loads s = Raise e ->
                  parse r = Raise e) /\
  (forall s cs v, choices r = Some s :: cs -> json_loads s = Ok v ->
                  (forall fields, v <> JObj fields) ->
                  parse r = Raise AttributeError).
Proof.
  unfold parse, parse_response.
  repeat split.
  - by intros ->.
  - by intros cs ->.
  - intros s cs e -> Hl. cbn. by rewrite Hl.
  - intros s cs v -> Hl Hv. cbn. rewrite Hl. cbn.
    destruct v; try done. by destruct (Hv fields).
Qed.

(** A JSON object is taken as it is: the two lists, cut to 25 and 30
    items, whatever the items are. *)
Lemma parse_response_object (r : response) (s : str) (cs : list (option str))
      (fields : list (str * json)) :
  choices r = Some s :: cs ->
  json_loads s = Ok (JObj fields) ->
  parse r = Ok {|
    ex_entities :=
      firstn 25 (_safe_list (default JNull (assoc "entities" fields)));
    ex_relationships :=
      firstn 30 (_safe_list (default JNull (assoc "relationships" fields))) |}.
Proof.
  unfold parse, parse_response. intros -> Hl. cbn. rewrite Hl. cbn.
  by destruct (assoc "entities" fields), (assoc "relationships" fields).
Qed.

End Extraction.

(** C2 (counterexample): the backend answers with an entity whose type
    and salience are outside the enumerations and with a "relationships"
    that is not a list; the entity is returned all the same. *)
Lemma extract_returns_schema_violation :
  snd (Extractor.extract_entities_and_relationships
         (Some (Fixtures.answering Fixtures.alien_content)) None []
         (Fixtures.loads_one Fixtures.alien_content Fixtures.alien_value)
         "Acme builds rockets." "s1" false)
  <> Ok Extractor.empty_extraction.
Proof. vm_compute. discriminate. Qed.

Example extract_alien_entity :
  Extractor.extract_entities_and_relationships
    (Some (Fixtures.answering Fixtures.alien_content)) None []
    (Fixtures.loads_one Fixtures.alien_content Fixtures.alien_value)
    "Acme builds rockets." "s1" false
  = ([ (Extractor.OpenAI, Extractor.request [] "Acme builds rockets." "s1") ],
     Ok {| Extractor.ex_entities := [Fixtures.alien_entity];
           Extractor.ex_relationships := [] |}).
Proof. vm_compute. reflexivity. Qed.

Example extract_falls_back_to_groq :
  Extractor.extract_entities_and_relationships
    (Some Fixtures.failing) (Some Fixtures.failing) []
    (Fixtures.loads_one Fixtures.alien_content Fixtures.alien_value)
    "x" "s1" false
  = ([ (Extractor.OpenAI, Extractor.request [] "x" "s1");
       (Extractor.Groq, Extractor.request [] "x" "s1") ],
     Ok Extractor.empty_extraction).
Proof. vm_compute. reflexivity. Qed.

(** C2 (amended): [extract_entities_and_relationships] returns a value on
    every input, never an exception.  A chunk marked [is_empty], or whose
    text is whitespace only, gives the empty result and no request is
    made.  Otherwise a backend error gives the empty result, and so does
    a reply that cannot be parsed: no choice, a null content, text that
    [json.loads] rejects, or a JSON value that is not an object.  A reply
    that is a JSON object is accepted without validation: the result
    holds its "entities" and "relationships" when they are lists (the
    empty list otherwise), cut to 25 and 30 items, whatever the items
    are. *)
Theorem extract_entities_and_relationships_spec
        (openai_client groq_client : option Extractor.provider)
        (EXTRACTION_PROMPT : str) (json_loads : str -> result Json.json)
        (text section_id : str) :
  let extract :=
    Extractor.extract_entities_and_relationships
      openai_client groq_client EXTRACTION_PROMPT json_loads text section_id in
  let answer :=
    Extractor.chat_completion openai_client groq_client
      (Extractor.request EXTRACTION_PROMPT text section_id) in
  let parse := Extractor.parse_response json_loads in
  (forall is_empty, exists log ex, extract is_empty = (log, Ok ex)) /\
  (forall is_empty,
      is_empty = true \/ strip text = [] ->
      extract is_empty = ([], Ok Extractor.empty_extraction)) /\
  (strip text <> [] ->
   fst (extract false) = fst answer /\
   (forall e, snd answer = Raise e ->
              snd (extract false) = Ok Extractor.empty_extraction) /\
   (forall r e, snd answer = Ok r -> parse r = Raise e ->
                snd (extract false) = Ok Extractor.empty_extraction) /\
   (forall r s cs fields,
       snd answer = Ok r ->
       Extractor.choices r = Some s :: cs ->
       json_loads s = Ok (Json.JObj fields) ->
       snd (extract false) =
       Ok {| Extractor.ex_entities :=
               firstn 25 (Extractor._safe_list
                            (default Json.JNull (Json.assoc "entities" fields)));
             Extractor.ex_relationships :=
               firstn 30 (Extractor._safe_list
                            (default Json.JNull (Json.assoc "relationships" fields)))
          |})) /\
  (forall r,
      (Extractor.choices r = [] -> parse r = Raise IndexError) /\
      (forall cs, Extractor.choices r = None :: cs -> parse r = Raise TypeError) /\
      (forall s cs e, Extractor.choices r = Some s :: cs -> json_loads s = Raise e ->
                      parse r = Raise e) /\
      (forall s cs v, Extractor.choices r = Some s :: cs -> json_loads s = Ok v ->
                      (forall fields, v <> Json.JObj fields) ->
                      parse r = Raise AttributeError)).
Proof.
  intros extract answer parse. subst extract answer parse.
  split; [intros; apply extract_never_raises|].
  split; [intros; by apply extract_empty_chunk|].
  split; [|apply parse_response_failures].
  intros Hne. rewrite extract_nonempty by done.
  destruct (Extractor.chat_completion _ _ _) as [log ans]. cbn [fst snd].
  split; [done|]. split; [|split].
  - by intros e ->.
  - intros r e -> Hp. cbn. by rewrite Hp.
  - intros r s cs fields -> Hc Hl. cbn.
    by rewrite (parse_response_object _ _ _ _ _ Hc Hl).
Qed.

(* --------------------------------------------------------------------- *)
(** ** Community detection                                                 *)
(* --------------------------------------------------------------------- *)

Example fifteen_sections_graph :
  let G := CommunityDetection.get_section_graph Documents.fifteen_sections Documents.doc in
  CommunityDetection.number_of_nodes G = 15 /\
  CommunityDetection.number_of_edges G = 0.
Proof. vm_compute. split; reflexivity. Qed.

Example sixteen_sections_graph :
  let G := CommunityDetection.get_section_graph Documents.sixteen_sections Documents.doc in
  CommunityDetection.number_of_nodes G = 16 /\
  CommunityDetection.number_of_edges G = 10.
Proof. vm_compute. split; reflexivity. Qed.

Example sixteen_sections_skipped :
  CommunityDetection.detect_section_communities
    Documents.one_block Documents.zero_modularity
    Documents.sixteen_sections Documents.doc
  = (Documents.sixteen_sections, CommunityDetection.Skipped 16 10).
Proof. vm_compute. reflexivity. Qed.

Section Communities.

Import Json Neo4j CommunityDetection.

Lemma edges_add_edge u v w s G : edges (add_edge u v w s G) <> [].
Proof.
  unfold add_edge. cbn [edges].
  destruct (existsb (same_edge u v) (edges G)) eqn:He.
  - destruct (edges G); [discriminate|]. cbn. discriminate.
  - destruct (edges G); cbn; discriminate.
Qed.

Lemma add_reference_edges_keep l G :
  edges G <> [] -> edges (fold_left add_reference_edge l G) <> [].
Proof.
  revert G. induction l as [|r l IH]; intros G Hne; cbn; [exact Hne|].
  apply IH, edges_add_edge.
Qed.

Lemma add_shared_edge_keep G r : edges G <> [] -> edges (add_shared_edge G r) <> [].
Proof.
  destruct r as [[a b] n]. unfold add_shared_edge. destruct (1 <=? n); [|done].
  intros _. apply edges_add_edge.
Qed.

Lemma add_shared_edges_keep l G :
  edges G <> [] -> edges (fold_left add_shared_edge l G) <> [].
Proof.
  revert G. induction l as [|r l IH]; intros G Hne; cbn; [exact Hne|].
  by apply IH, add_shared_edge_keep.
Qed.

Lemma add_reference_edges_none l G :
  edges (fold_left add_reference_edge l G) = [] -> fold_left add_reference_edge l G = G.
Proof.
  destruct l as [|r l]; [done|]. cbn. intros H. exfalso.
  revert H. apply add_reference_edges_keep, edges_add_edge.
Qed.

Lemma add_shared_edges_none l G :
  edges (fold_left add_shared_edge l G) = [] -> fold_left add_shared_edge l G = G.
Proof.
  revert G. induction l as [|r l IH]; intros G; cbn; [done|].
  intros H. rewrite (IH _ H).
  destruct r as [[a b] n]. unfold add_shared_edge in *. destruct (1 <=? n); [|done].
  exfalso. revert H. apply add_shared_edges_keep, edges_add_edge.
Qed.

(** Without edges the graph is the one the first loop built. *)
Lemma get_section_graph_no_edges g doc :
  number_of_edges (get_section_graph g doc) = 0 ->
  get_section_graph g doc = fold_left add_section_node (section_rows g doc) nx_empty.
Proof.
  unfold number_of_edges, get_section_graph. intros H.
  assert (H0 : forall G, Z.of_nat (length (edges G)) = 0 -> edges G = []).
  { intros G HG. destruct (edges G); [done|]. cbn in HG. lia. }
  apply H0 in H. rewrite (add_shared_edges_none _ _ H) in H |- *.
  by rewrite (add_reference_edges_none _ _ H).
Qed.

Lemma nodes_add_section_nodes rows G x :
  In x (map fst (nodes (fold_left add_section_node rows G))) <->
  In x (map fst (nodes G)) \/ In x (map fst rows).
Proof.
  revert G. induction rows as [|r rows IH]; intros G; cbn; [tauto|].
  rewrite IH. unfold add_section_node at 1, add_node. cbn [nodes].
  assert (Hn : has_node G r.1 = true <-> In r.1 (map fst (nodes G))).
  { unfold has_node. rewrite existsb_exists, in_map_iff. split.
    - intros (y & Hy & He). apply str_eqb_eq in He. by exists y.
    - intros (y & He & Hy). exists y. split; [done|]. by apply str_eqb_eq. }
  destruct (has_node G r.1) eqn:Hh.
  - rewrite map_map.
    assert (Hm : map (fun y => (if str_eqb y.1 r.1 then (r.1, Some r.2) else y).1) (nodes G)
                 = map fst (nodes G)).
    { apply map_ext. intros y. destruct (str_eqb y.1 r.1) eqn:He; [|done].
      cbn. symmetry. by apply str_eqb_eq. }
    rewrite Hm. split; [tauto|]. intros [H|[<-|H]]; tauto.
  - rewrite map_app, in_app_iff. cbn. tauto.
Qed.

Lemma section_rows_ids g doc sid :
  In sid (map fst (section_rows g doc)) <-> is_Some (sections g !! (doc, sid)).
Proof.
  unfold section_rows. rewrite in_map_iff. split.
  - intros ([sid' t] & <- & H). apply list_elem_of_In, list_elem_of_omap in H.
    destruct H as ([[d s'] sec] & Hin & Hf).
    apply elem_of_map_to_list in Hin.
    destruct (str_eqb d doc) eqn:Hd; [|done]. apply str_eqb_eq in Hd as ->.
    injection Hf as <- <-. by exists sec.
  - intros [sec Hsec]. exists (sid, s_title sec). split; [done|].
    apply list_elem_of_In, list_elem_of_omap. exists ((doc, sid), sec).
    split; [by apply elem_of_map_to_list|].
    cbn. by rewrite (proj2 (str_eqb_eq doc doc) eq_refl).
Qed.

Lemma merge_contains_fold doc cid secs g :
  is_Some (communities g !! (doc, cid)) ->
  let g' := fold_left (merge_contains doc cid) secs g in
  communities g' = communities g /\
  only_communities_changed g g' /\
  (forall x, x ∈ contains_section g' <->
             x ∈ contains_section g \/
             exists sid, In sid secs /\ is_Some (sections g !! (doc, sid)) /\
                         x = ((doc, cid), (doc, sid))).
Proof.
  revert g. induction secs as [|sid secs IH]; intros g Hc; cbn.
  - split; [done|]. split; [by repeat split|]. intros x. split; [tauto|].
    intros [H|(sid & [] & _)]. done.
  - assert (Hstep : let g1 := merge_contains doc cid g sid in
              communities g1 = communities g /\ only_communities_changed g g1 /\
              (forall x, x ∈ contains_section g1 <->
                 x ∈ contains_section g \/
                 (is_Some (sections g !! (doc, sid)) /\ x = ((doc, cid), (doc, sid))))).
    { unfold merge_contains. destruct Hc as [c Hc]. rewrite Hc.
      destruct (sections g !! (doc, sid)) as [sec|] eqn:Hs; cbn.
      - split; [done|]. split; [by repeat split|]. intros x.
        rewrite elem_of_union, elem_of_singleton. split.
        + intros [->|H]; [right|by left]. split; [by eexists|done].
        + intros [H|[_ ->]]; [by right|by left].
      - split; [done|]. split; [by repeat split|]. intros x. split; [tauto|].
        intros [H|[[? [=]] _]]. done. }
    destruct Hstep as (Hc1 & Hf1 & Hx1).
    destruct (IH (merge_contains doc cid g sid)) as (Hc2 & Hf2 & Hx2).
    { by rewrite Hc1. }
    split; [by rewrite Hc2|]. split.
    { destruct Hf1 as (?&?&?&?&?&?&?), Hf2 as (?&?&?&?&?&?&?).
      repeat split; congruence. }
    intros x. rewrite Hx2, Hx1.
    destruct Hf1 as (_&_&Hsec&_). rewrite Hsec. split.
    + intros [[H|[Hs ->]]|(s & Hin & Hs & ->)]; [by left|right..].
      * exists sid. split; [by left|done].
      * exists s. split; [by right|done].
    + intros [H|(s & [<-|Hin] & Hs & ->)]; [by left; left|left; by right|].
      right. by exists s.
Qed.

Lemma get_section_graph_no_sections g doc :
  (forall sid, sections g !! (doc, sid) = None) ->
  get_section_graph g doc = nx_empty.
Proof.
  intros Hnone.
  assert (Hrows : section_rows g doc = []).
  { destruct (section_rows g doc) as [|[sid t] rows] eqn:Hr; [done|].
    assert (H : In sid (map fst (section_rows g doc))) by (rewrite Hr; by left).
    apply section_rows_ids in H as [sec Hsec]. by rewrite Hnone in Hsec. }
  assert (Hsec : forall k, is_section g doc k = false).
  { intros [d sid]. unfold is_section. cbn.
    destruct (str_eqb d doc) eqn:Hd; [|done]. apply str_eqb_eq in Hd as ->.
    by rewrite Hnone. }
  assert (Hrefs : reference_rows g doc = []).
  { unfold reference_rows. induction (elements (reference_paths g)) as [|[[s1 r] s2] l IH];
      [done|]. cbn. by rewrite Hsec, IH. }
  unfold get_section_graph, shared_rows. by rewrite Hrows, Hrefs.
Qed.

Lemma existsb_node ns n :
  existsb (fun x : str * option (option str) => str_eqb (fst x) n) ns = true
  <-> In n (map fst ns).
Proof.
  rewrite existsb_exists, in_map_iff. split.
  - intros (y & Hy & He). apply str_eqb_eq in He. by exists y.
  - intros (y & He & Hy). exists y. split; [done|]. by apply str_eqb_eq.
Qed.

Lemma touch_node_present n ns : In n (map fst ns) -> touch_node n ns = ns.
Proof. intros H. unfold touch_node. by rewrite (proj2 (existsb_node ns n) H). Qed.

Lemma nodes_add_edge_present u v w s G :
  In u (map fst (nodes G)) -> In v (map fst (nodes G)) ->
  nodes (add_edge u v w s G) = nodes G.
Proof.
  intros Hu Hv. unfold add_edge. cbn [nodes].
  rewrite (touch_node_present u) by done. by apply touch_node_present.
Qed.

Lemma section_rows_nodup g doc : NoDup (map fst (section_rows g doc)).
Proof.
  unfold section_rows.
  pose proof (NoDup_fst_map_to_list (sections g)) as Hnd.
  induction (map_to_list (sections g)) as [|[[d sid] sec] l IH]; [constructor|].
  cbn in Hnd. apply NoDup_cons in Hnd as [Hnotin Hnd]. cbn [omap list_omap].
  destruct (str_eqb d doc) eqn:Hd; [|by apply IH].
  apply str_eqb_eq in Hd as ->. cbn [map fst]. apply NoDup_cons. split; [|by apply IH].
  intros Hin. apply Hnotin. apply list_elem_of_In in Hin.
  apply in_map_iff in Hin as ([sid' t] & Heq & Hin). cbn in Heq. subst sid'.
  apply list_elem_of_In, list_elem_of_omap in Hin as ([[d' s'] sec'] & Hin' & Hf).
  destruct (str_eqb d' doc) eqn:Hd'; [|done]. apply str_eqb_eq in Hd' as ->.
  injection Hf as -> _. apply list_elem_of_fmap. by exists ((doc, sid), sec').
Qed.

Lemma nodes_add_section_nodes_fresh rows G :
  NoDup (map fst rows) ->
  (forall x, In x (map fst rows) -> ~ In x (map fst (nodes G))) ->
  nodes (fold_left add_section_node rows G)
  = nodes G ++ map (fun r => (fst r, Some (snd r))) rows.
Proof.
  revert G. induction rows as [|r rows IH]; intros G Hnd Hfresh; cbn [fold_left map].
  - by rewrite app_nil_r.
  - apply NoDup_cons in Hnd as [Hr Hnd].
    assert (Hh : has_node G r.1 = false).
    { destruct (has_node G r.1) eqn:Hh; [|done]. apply existsb_node in Hh.
      destruct (Hfresh r.1); [by left|done]. }
    rewrite IH; [| done |].
    + unfold add_section_node, add_node. cbn [nodes]. rewrite Hh.
      by rewrite <- app_assoc.
    + intros x Hx. unfold add_section_node, add_node. cbn [nodes]. rewrite Hh.
      rewrite map_app, in_app_iff. cbn. intros [H|[<-|[]]].
      * apply (Hfresh x); [by right|done].
      * apply Hr. by apply list_elem_of_In.
Qed.

(** The graph has one node per section of the document. *)
Lemma number_of_nodes_sections g doc :
  number_of_nodes (get_section_graph g doc)
  = Z.of_nat (length (section_rows g doc)) /\
  (forall sid, In sid (map fst (nodes (get_section_graph g doc)))
               <-> is_Some (sections g !! (doc, sid))).
Proof.
  set (G1 := fold_left add_section_node (section_rows g doc) nx_empty).
  assert (H1 : nodes G1 = map (fun r => (fst r, Some (snd r))) (section_rows g doc)).
  { unfold G1. rewrite nodes_add_section_nodes_fresh; [done|apply section_rows_nodup|].
    by intros x _ []. }
  assert (Hids : forall sid, In sid (map fst (nodes G1))
                             <-> is_Some (sections g !! (doc, sid))).
  { intros sid. rewrite H1, map_map. cbn. apply section_rows_ids. }
  set (G2 := fold_left add_reference_edge (reference_rows g doc) G1).
  assert (H2 : nodes G2 = nodes G1).
  { unfold G2.
    assert (Hrows : forall r, In r (reference_rows g doc) ->
                              In r.1 (map fst (nodes G1)) /\ In r.2 (map fst (nodes G1))).
    { intros [a b] Hr. unfold reference_rows in Hr.
      apply list_elem_of_In, list_elem_of_omap in Hr as ([[s1 rid] s2] & _ & Hf).
      destruct (is_section g doc s1) eqn:E1; [|done].
      destruct (is_section g doc s2) eqn:E2; [|done].
      injection Hf as <- <-. unfold is_section in *.
      apply andb_true_iff in E1 as [D1 S1], E2 as [D2 S2].
      apply str_eqb_eq in D1, D2. apply bool_decide_eq_true in S1, S2.
      destruct s1 as [d1 a], s2 as [d2 b]. cbn in *. subst.
      split; by apply Hids. }
    revert Hrows. generalize (reference_rows g doc). intros l.
    assert (Hgen : forall G, nodes G = nodes G1 ->
              (forall r, In r l -> In r.1 (map fst (nodes G1)) /\ In r.2 (map fst (nodes G1))) ->
              nodes (fold_left add_reference_edge l G) = nodes G1); [|by apply Hgen].
    induction l as [|r l IH]; intros G HG Hl; [done|]. cbn [fold_left].
    apply IH; [|intros r' Hr'; apply Hl; by right].
    destruct (Hl r (or_introl eq_refl)) as [Ha Hb].
    unfold add_reference_edge. rewrite nodes_add_edge_present; by rewrite ?HG. }
  assert (H3 : nodes (get_section_graph g doc) = nodes G1).
  { unfold get_section_graph. fold G1. fold G2. rewrite <- H2.
    assert (Hrows : forall r, In r (shared_rows g doc) ->
              In r.1.1 (map fst (nodes G2)) /\ In r.1.2 (map fst (nodes G2))).
    { intros [[a b] n] Hr. unfold shared_rows in Hr.
      apply in_flat_map in Hr as (s1 & Hs1 & Hr).
      apply list_elem_of_In, list_elem_of_omap in Hr as (s2 & Hs2 & Hf).
      destruct (_ && _); [|done]. injection Hf as <- <- _.
      apply list_elem_of_In in Hs2. rewrite H2, H1, map_map. cbn. done. }
    revert Hrows. generalize (shared_rows g doc). intros l.
    assert (Hgen : forall G, nodes G = nodes G2 ->
              (forall r, In r l -> In r.1.1 (map fst (nodes G2)) /\ In r.1.2 (map fst (nodes G2))) ->
              nodes (fold_left add_shared_edge l G) = nodes G2); [|by apply Hgen].
    induction l as [|r l IH]; intros G HG Hl; [done|]. cbn [fold_left].
    apply IH; [|intros r' Hr'; apply Hl; by right].
    destruct (Hl r (or_introl eq_refl)) as [Ha Hb].
    destruct r as [[a b] n]. unfold add_shared_edge. destruct (1 <=? n); [|done].
    rewrite nodes_add_edge_present; by rewrite ?HG. }
  split.
  - unfold number_of_nodes. by rewrite H3, H1, length_map.
  - intros sid. rewrite H3. apply Hids.
Qed.

(** The branches of the detector, by the node and edge counts of the
    section graph: no node gives the "empty" outcome; 15 nodes and no
    edge give the single fallback community "0" of the small mode, which
    CONTAINS every section of the document; 16 nodes and 10 edges give
    "skipped". *)
Lemma detect_section_communities_by_counts
        (best_partition : nxgraph -> list (str * Z))
        (modularity_of : list (str * Z) -> nxgraph -> float)
        (g : graph) (doc_id : str) :
  let G := get_section_graph g doc_id in
  let detect := detect_section_communities best_partition modularity_of g doc_id in
  (number_of_nodes G = 0 -> detect = (g, Empty)) /\
  (number_of_nodes G = 15 -> number_of_edges G = 0 ->
   exists g',
     detect = (g', Persisted "small" 1 0%float) /\
     communities g' =
       <[(doc_id, "0" : str) :=
           {| c_size := 15; c_modularity := 0%float; c_mode := "small" |}]>
         (communities g) /\
     only_communities_changed g g' /\
     (forall x, x ∈ contains_section g' <->
                x ∈ contains_section g \/
                exists sid, is_Some (sections g !! (doc_id, sid)) /\
                            x = ((doc_id, "0" : str), (doc_id, sid)))) /\
  (number_of_nodes G = 16 -> number_of_edges G = 10 ->
   detect = (g, Skipped 16 10)) /\
  ((forall sid, sections g !! (doc_id, sid) = None) -> detect = (g, Empty)).
Proof.
  intros G detect. subst detect. unfold detect_section_communities. fold G.
  split; [by intros ->|]. split; [|split].
  - intros Hn He. rewrite Hn, He. cbn [Z.eqb Z.leb Z.compare Pos.compare Pos.compare_cont].
    unfold _persist_communities. cbn [fold_left length].
    unfold persist_community. cbn [fst snd].
    set (ids := map fst (nodes G)).
    assert (Hlen : Z.of_nat (length ids) = 15).
    { unfold ids. rewrite length_map. exact Hn. }
    rewrite Hlen.
    change (str_of_int 0) with ("0" : str).
    set (g0 := set_communities g _).
    destruct (merge_contains_fold doc_id "0" ids g0) as (Hc & Hf & Hx).
    { unfold g0. cbn. rewrite lookup_insert_eq. by eexists. }
    eexists. split; [reflexivity|].
    split; [by rewrite Hc|]. split.
    { destruct Hf as (?&?&?&?&?&?&?). by repeat split. }
    intros x. rewrite Hx. unfold g0 at 1 2. cbn [contains_section sections set_communities].
    assert (Hids : forall sid, In sid ids <-> is_Some (sections g !! (doc_id, sid))).
    { intros sid. unfold ids, G. rewrite (get_section_graph_no_edges _ _ He).
      rewrite nodes_add_section_nodes, section_rows_ids. cbn. tauto. }
    split.
    + intros [H|(sid & Hin & Hs & ->)]; [by left|right]. by exists sid.
    + intros [H|(sid & Hs & ->)]; [by left|right]. exists sid.
      split; [by apply Hids|done].
  - intros Hn He. by rewrite Hn, He.
  - intros Hnone. unfold G. by rewrite (get_section_graph_no_sections _ _ Hnone).
Qed.

End Communities.

Example fifteen_sections_fallback :
  let out := CommunityDetection.detect_section_communities
               Documents.one_block Documents.zero_modularity
               Documents.fifteen_sections Documents.doc in
  snd out = CommunityDetection.Persisted "small" 1 0%float /\
  Neo4j.communities (fst out) !! (Documents.doc, "0" : str)
    = Some {| Neo4j.c_size := 15; Neo4j.c_modularity := 0%float;
              Neo4j.c_mode := "small" |} /\
  size (Neo4j.communities (fst out)) = 1%nat /\
  size (Neo4j.contains_section (fst out)) = 15%nat.
Proof. vm_compute. repeat split; reflexivity. Qed.

Example no_sections_empty :
  CommunityDetection.detect_section_communities
    Documents.one_block Documents.zero_modularity Neo4j.empty_graph Documents.doc
  = (Neo4j.empty_graph, CommunityDetection.Empty).
Proof. vm_compute. reflexivity. Qed.

(* --------------------------------------------------------------------- *)
(** ** Query orchestrator                                                  *)
(* --------------------------------------------------------------------- *)

Section Query.

Import Json Neo4j Extractor GlobalQuery.

(** A document none of whose sections mentions a CORE or IMPORTANT
    entity has no context row. *)
Lemma fetch_graph_context_no_salient_mention (g : graph) (doc_id : str) (limit : Z) :
  (forall sid ek e,
      ((doc_id, sid), ek) ∈ mentions g -> entities g !! ek = Some e ->
      mem (e_salience e) ["CORE" : str; "IMPORTANT" : str] = false) ->
  fetch_graph_context g doc_id limit = [].
Proof.
  intros Hno. unfold fetch_graph_context.
  assert (Hrows : flat_map (mention_rows g doc_id) (elements (mentions g)) = []).
  { assert (Hin : forall m, In m (elements (mentions g)) -> m ∈ mentions g).
    { intros m Hm. by apply elem_of_elements, list_elem_of_In. }
    induction (elements (mentions g)) as [|[[d sid] ek] l IH]; [done|].
    cbn [flat_map]. rewrite IH by (intros m Hm; apply Hin; by right).
    rewrite app_nil_r. unfold mention_rows. cbn [fst].
    destruct (entities g !! ek) as [e|] eqn:He; repeat case_match; try done.
    destruct (str_eqb d doc_id) eqn:Hd; [|done].
    apply str_eqb_eq in Hd as ->.
    rewrite (Hno sid ek e (Hin _ (or_introl eq_refl)) He) in *. done. }
  rewrite Hrows. cbn. by destruct (Z.to_nat limit).
Qed.

End Query.

(** C7: when the context fetch returns no row, [global_query_v5] returns
    the question with the fixed no-information answer and an empty
    reference list; no request goes to a provider or to the summarizer
    and the store is left as it was, whatever the question and its
    intent. *)
Theorem global_query_v5_no_context
        (openai_client groq_client : option Extractor.provider)
        (summarize_communities :
           option (Neo4j.graph -> str ->
                   Neo4j.graph * list Extractor.call * result (list str)))
        (ARROW PROMPT_HEAD PROMPT_MIDDLE PROMPT_TAIL OVERVIEW_HEADER : str)
        (question : str) (g : Neo4j.graph) (doc_id : str) :
  GlobalQuery.fetch_graph_context g doc_id 80 = [] ->
  GlobalQuery.global_query_v5 openai_client groq_client summarize_communities
    ARROW PROMPT_HEAD PROMPT_MIDDLE PROMPT_TAIL OVERVIEW_HEADER
    question g doc_id
  = (g, [],
     Ok {| GlobalQuery.q_query := question;
           GlobalQuery.q_answer :=
             "No relevant information found in the document graph.";
           GlobalQuery.q_references := [] |}).
Proof. unfold GlobalQuery.global_query_v5. by intros ->. Qed.

(** The theorem at work: the only entity mentioned is SUPPORTING, so a
    summary question gets the fixed answer and no request is made. *)
Lemma global_query_v5_no_context_witness :
  GlobalQuery.fetch_graph_context (Library.acme_mentioned "SUPPORTING")
                                  Documents.doc 80 = [] /\
  Library.query (Library.acme_mentioned "SUPPORTING") "Give me a summary of Acme"
  = (Library.acme_mentioned "SUPPORTING", [],
     Ok {| GlobalQuery.q_query := "Give me a summary of Acme";
           GlobalQuery.q_answer :=
             "No relevant information found in the document graph.";
           GlobalQuery.q_references := [] |}).
Proof.
  assert (H : GlobalQuery.fetch_graph_context (Library.acme_mentioned "SUPPORTING")
                                              Documents.doc 80 = [])
    by (vm_compute; reflexivity).
  split; [exact H|].
  exact (global_query_v5_no_context _ _ _ _ _ _ _ _ _ _ _ H).
Defined.

(** With a CORE entity mentioned the provider is asked, once. *)
Example global_query_v5_with_context :
  let '(_, log, out) := Library.query (Library.acme_mentioned "CORE") "Who is Acme?" in
  length log = 1%nat /\
  out = Ok {| GlobalQuery.q_query := "Who is Acme?";
              GlobalQuery.q_answer := "Acme is a company.";
              GlobalQuery.q_references := [("s01" : str, None)] |}.
Proof. vm_compute. split; reflexivity. Qed.

(** A summary question with context stops at the import of the
    summarizer when that module is missing. *)
Example global_query_v5_summary_import :
  snd (Library.query (Library.acme_mentioned "CORE") "Give me a summary of Acme")
  = Raise ImportError.
Proof. vm_compute. reflexivity. Qed.

Example detect_query_intent_examples :
  GlobalQuery.detect_query_intent "Summarize the trend" = "SUMMARY" /\
  GlobalQuery.detect_query_intent "Compare revenue over time" = "TEMPORAL" /\
  GlobalQuery.detect_query_intent "Who audits the group?" = "GRAPH_ONLY".
Proof. vm_compute. repeat split; reflexivity. Qed.

(* --------------------------------------------------------------------- *)
(** ** Communities: the section graph counted on the store                 *)
(* --------------------------------------------------------------------- *)

Section StoreCounts.

Import Neo4j CommunityDetection SectionLinks.

(** *** The string order *)

Lemma code_inj a b : code a = code b -> a = b.
Proof.
  unfold code. intros H. rewrite <- (ascii_N_embedding a), <- (ascii_N_embedding b).
  by rewrite H.
Qed.

Lemma str_ltb_irrefl a : str_ltb a a = false.
Proof.
  induction a as [|x a IH]; [done|]. cbn [str_ltb].
  rewrite N.ltb_irrefl, N.eqb_refl, IH. done.
Qed.

Lemma str_ltb_asym a b : str_ltb a b = true -> str_ltb b a = false.
Proof.
  revert b. induction a as [|x a IH]; intros [|y b]; cbn [str_ltb]; try done.
  intros H. apply orb_prop in H as [H|H].
  - apply N.ltb_lt in H.
    rewrite (proj2 (N.ltb_ge _ _)) by lia. rewrite (proj2 (N.eqb_neq _ _)) by lia. done.
  - apply andb_prop in H as [He Hl]. apply N.eqb_eq in He.
    rewrite He, N.ltb_irrefl, N.eqb_refl. cbn. by apply IH.
Qed.

Lemma str_ltb_total a b : str_ltb a b = false -> str_ltb b a = false -> a = b.
Proof.
  revert b. induction a as [|x a IH]; intros [|y b]; cbn [str_ltb]; try done.
  intros H1 H2. apply orb_false_elim in H1 as [H1 H1'], H2 as [H2 H2'].
  apply N.ltb_ge in H1, H2. assert (Hc : code x = code y) by lia.
  rewrite Hc, N.eqb_refl in H1', H2'. cbn in H1', H2'.
  apply code_inj in Hc as ->. f_equal. by apply IH.
Qed.

(** *** Pairs in either orientation *)

Lemma same_pair_sym p q : same_pair p q -> same_pair q p.
Proof. destruct p, q. intros [[= -> ->]|[= -> ->]]; [by left|by right]. Qed.

Lemma same_pair_trans p q r : same_pair p q -> same_pair q r -> same_pair p r.
Proof.
  destruct p, q, r. intros [[= -> ->]|[= -> ->]] [[= -> ->]|[= -> ->]]; cbn;
    (by left) || (by right).
Qed.

Lemma canon_same p q : canon p = canon q <-> same_pair p q.
Proof.
  destruct p as [a b], q as [c d]. unfold canon, same_pair. cbn [fst snd]. split.
  - destruct (str_ltb b a), (str_ltb d c); intros [= -> ->]; auto.
  - intros [[= -> ->]|[= -> ->]]; [done|].
    destruct (str_ltb d c) eqn:H1, (str_ltb c d) eqn:H2; try done.
    + by rewrite (str_ltb_asym _ _ H1) in H2.
    + by rewrite (str_ltb_total _ _ H1 H2).
Qed.

Lemma distinct_pairs_canon pairs :
  distinct_pairs pairs -> NoDup (map canon pairs).
Proof.
  induction pairs as [|p pairs IH]; [constructor|]. intros [Hp Hd]. cbn [map].
  apply NoDup_cons. split; [|by apply IH].
  intros Hin%list_elem_of_In. apply in_map_iff in Hin as (q & Hq & Hin).
  rewrite List.Forall_forall in Hp. apply (Hp q Hin). apply canon_same. by rewrite Hq.
Qed.

(** Two lists that hold the same pairs, each once, have the same
    length. *)
Lemma distinct_pairs_length P Q :
  distinct_pairs P -> distinct_pairs Q ->
  (forall x, (exists p, In p P /\ same_pair p x) <-> (exists q, In q Q /\ same_pair q x)) ->
  length P = length Q.
Proof.
  intros HP HQ Hsame.
  rewrite <- (length_map canon P), <- (length_map canon Q).
  apply Permutation_length, NoDup_Permutation;
    [by apply distinct_pairs_canon|by apply distinct_pairs_canon|].
  intros x. rewrite !list_elem_of_In, !in_map_iff. split.
  - intros (p & <- & Hp).
    destruct (proj1 (Hsame p)) as (q & Hq & Hs); [exists p; split; [done|by left]|].
    exists q. split; [by apply canon_same|done].
  - intros (q & <- & Hq).
    destruct (proj2 (Hsame q)) as (p & Hp & Hs); [exists q; split; [done|by left]|].
    exists p. split; [by apply canon_same|done].
Qed.

Lemma add_pair_spec P r :
  distinct_pairs P ->
  distinct_pairs (add_pair P r) /\
  forall x, (exists p, In p (add_pair P r) /\ same_pair p x) <->
            (exists p, In p P /\ same_pair p x) \/ same_pair r x.
Proof.
  intros HP. unfold add_pair.
  destruct (existsb _ P) eqn:He.
  - split; [done|]. intros x. split; [auto|]. intros [H|Hr]; [done|].
    apply existsb_exists in He as ([a b] & Hin & Hab). exists (a, b). split; [done|].
    apply same_pair_trans with r; [|done]. destruct r as [c d]. cbn [fst snd] in Hab.
    apply orb_prop in Hab as [H|H]; apply andb_prop in H as [H1 H2];
      apply str_eqb_eq in H1, H2; subst; [by left|by right].
  - assert (Hnot : forall p, In p P -> ~ same_pair p r).
    { intros [a b] Hin Hs.
      assert (Ht : existsb (fun p => (str_eqb (fst p) (fst r) && str_eqb (snd p) (snd r))
                                     || (str_eqb (fst p) (snd r) && str_eqb (snd p) (fst r)))
                           P = true); [|by rewrite Ht in He].
      apply existsb_exists. exists (a, b). split; [done|]. destruct r as [c d].
      cbn [fst snd]. destruct Hs as [[= -> ->]|[= -> ->]].
      - by rewrite !(proj2 (str_eqb_eq _ _) eq_refl).
      - rewrite !(proj2 (str_eqb_eq _ _) eq_refl). cbn. by rewrite orb_true_r. }
    split.
    + clear He. induction P as [|p P IH]; [by repeat constructor|].
      destruct HP as [Hp HP]. cbn [app distinct_pairs]. split.
      * apply Forall_app. split; [done|]. constructor; [|constructor].
        apply Hnot. by left.
      * apply IH; [done|]. intros q Hq. apply Hnot. by right.
    + intros x. split.
      * intros (p & Hin & Hs). apply in_app_iff in Hin as [Hin|[<-|[]]]; [left|by right].
        by exists p.
      * intros [(p & Hin & Hs)|Hr].
        -- exists p. split; [apply in_app_iff; by left|done].
        -- exists r. split; [apply in_app_iff; right; by left|done].
Qed.

Lemma add_pairs_spec rows P :
  distinct_pairs P ->
  distinct_pairs (fold_left add_pair rows P) /\
  forall x, (exists p, In p (fold_left add_pair rows P) /\ same_pair p x) <->
            (exists p, In p P /\ same_pair p x) \/ (exists r, In r rows /\ same_pair r x).
Proof.
  revert P. induction rows as [|r rows IH]; intros P HP; cbn [fold_left].
  - split; [done|]. intros x. split; [auto|]. intros [H|(r & [] & _)]. done.
  - destruct (add_pair_spec P r HP) as [Hd Hx].
    destruct (IH _ Hd) as [Hd' Hx']. split; [done|].
    intros x. rewrite Hx', Hx. split.
    + intros [[H|Hr]|(r' & Hin & Hs)]; [by left| |].
      * right. exists r. split; [by left|done].
      * right. exists r'. split; [by right|done].
    + intros [H|(r' & [<-|Hin] & Hs)]; [by left; left|by left; right|].
      right. by exists r'.
Qed.

(** *** The edges of the section graph *)

Lemma existsb_map_pairs (f : str * str -> bool) (es : list edge) :
  existsb f (map (fun e => (ed_u e, ed_v e)) es)
  = existsb (fun e => f (ed_u e, ed_v e)) es.
Proof. induction es as [|e es IH]; [done|]. cbn. by rewrite IH. Qed.

Lemma pairs_of_add_edge u v w s G :
  pairs_of (add_edge u v w s G) = add_pair (pairs_of G) (u, v).
Proof.
  unfold pairs_of, add_edge, add_pair. cbn [edges fst snd].
  rewrite existsb_map_pairs. cbn [fst snd]. unfold same_edge.
  destruct (existsb _ (edges G)); [|by rewrite map_app].
  rewrite map_map. apply map_ext. intros e. by destruct (_ || _).
Qed.

Lemma pairs_of_reference_edges rows G :
  pairs_of (fold_left add_reference_edge rows G) = fold_left add_pair rows (pairs_of G).
Proof.
  revert G. induction rows as [|[a b] rows IH]; intros G; [done|]. cbn [fold_left].
  rewrite IH. unfold add_reference_edge. by rewrite pairs_of_add_edge.
Qed.

Lemma pairs_of_shared_edges rows G :
  Forall (fun r => 1 <= snd r) rows ->
  pairs_of (fold_left add_shared_edge rows G)
  = fold_left add_pair (map fst rows) (pairs_of G).
Proof.
  intros Hrows. revert G. induction Hrows as [|[[a b] n] rows Hn _ IH]; intros G; [done|].
  cbn [fold_left map fst]. rewrite IH. unfold add_shared_edge.
  cbn [snd] in Hn. destruct (Z.leb_spec 1 n); [|lia]. by rewrite pairs_of_add_edge.
Qed.

Lemma add_section_nodes_edges rows G :
  edges (fold_left add_section_node rows G) = edges G.
Proof.
  revert G. induction rows as [|r rows IH]; intros G; [done|]. cbn. by rewrite IH.
Qed.

Lemma reference_rows_sections g doc a b :
  In (a, b) (reference_rows g doc) ->
  is_Some (sections g !! (doc, a)) /\ is_Some (sections g !! (doc, b)).
Proof.
  unfold reference_rows. intros H.
  apply list_elem_of_In, list_elem_of_omap in H as ([[[d1 s1] rid] [d2 s2]] & _ & Hf).
  destruct (is_section g doc (d1, s1)) eqn:H1; [|done].
  destruct (is_section g doc (d2, s2)) eqn:H2; [|done].
  cbn in Hf. injection Hf as <- <-.
  unfold is_section in H1, H2. cbn [fst] in H1, H2.
  apply andb_prop in H1 as [Hd1 Hs1]. apply andb_prop in H2 as [Hd2 Hs2].
  apply str_eqb_eq in Hd1 as ->. apply str_eqb_eq in Hd2 as ->.
  by apply bool_decide_eq_true in Hs1, Hs2.
Qed.

Lemma shared_rows_sections g doc a b n :
  In (a, b, n) (shared_rows g doc) ->
  is_Some (sections g !! (doc, a)) /\ is_Some (sections g !! (doc, b)) /\
  str_ltb a b = true /\ 1 <= n.
Proof.
  unfold shared_rows. intros H. apply in_flat_map in H as (s1 & Hs1 & H).
  apply list_elem_of_In, list_elem_of_omap in H as (s2 & Hs2 & Hf).
  apply list_elem_of_In in Hs2.
  destruct (str_ltb s1 s2) eqn:Hlt; [|done].
  destruct (Z.leb_spec 1 (shared_count g (doc, s1) (doc, s2))); [|done].
  cbn in Hf. injection Hf as <- <- <-.
  apply section_rows_ids in Hs1, Hs2. done.
Qed.

Lemma pairs_of_section_graph g doc :
  pairs_of (get_section_graph g doc)
  = fold_left add_pair (map fst (shared_rows g doc))
              (fold_left add_pair (reference_rows g doc) []).
Proof.
  unfold get_section_graph. rewrite pairs_of_shared_edges.
  - rewrite pairs_of_reference_edges. unfold pairs_of at 1.
    by rewrite add_section_nodes_edges.
  - apply List.Forall_forall. intros [[a b] n] Hin.
    apply shared_rows_sections in Hin. cbn. tauto.
Qed.

(** *** The rows of the two edge queries, read on the store *)

Lemma reference_rows_refers g doc a b :
  In (a, b) (reference_rows g doc) <-> refers g doc a b.
Proof.
  split.
  - intros H. pose proof (reference_rows_sections _ _ _ _ H) as [Ha Hb].
    split; [done|]. split; [done|].
    unfold reference_rows in H.
    apply list_elem_of_In, list_elem_of_omap in H as ([[[d1 s1] rid] [d2 s2]] & Hin & Hf).
    destruct (is_section g doc (d1, s1)) eqn:H1; [|done].
    destruct (is_section g doc (d2, s2)) eqn:H2; [|done].
    cbn in Hf. injection Hf as <- <-.
    unfold is_section in H1, H2. cbn [fst] in H1, H2.
    apply andb_prop in H1 as [Hd1 _]. apply andb_prop in H2 as [Hd2 _].
    apply str_eqb_eq in Hd1 as ->. apply str_eqb_eq in Hd2 as ->.
    exists rid. by apply elem_of_elements in Hin.
  - intros (Ha & Hb & rid & Hin). unfold reference_rows.
    apply list_elem_of_In, list_elem_of_omap.
    exists ((doc, a), rid, (doc, b)). split; [by apply elem_of_elements|].
    unfold is_section. cbn [fst snd].
    rewrite (proj2 (str_eqb_eq doc doc) eq_refl).
    rewrite !bool_decide_eq_true_2 by done. done.
Qed.

Lemma salient_mentions_spec g s e :
  e ∈ salient_mentions g s <-> (s, e) ∈ mentions g /\ is_salient g e = true.
Proof.
  unfold salient_mentions. rewrite list_elem_of_omap. split.
  - intros ([s' e'] & Hin & Hf). apply elem_of_elements in Hin.
    destruct (bool_decide (s' = s)) eqn:Hs; [|done].
    apply bool_decide_eq_true in Hs as ->.
    destruct (is_salient g e') eqn:He; [|done]. cbn in Hf. by injection Hf as <-.
  - intros [Hin He]. exists (s, e). split; [by apply elem_of_elements|].
    rewrite bool_decide_eq_true_2 by done. by rewrite He.
Qed.

Lemma shared_count_positive g s1 s2 :
  1 <= shared_count g s1 s2 <->
  exists e, (s1, e) ∈ mentions g /\ (s2, e) ∈ mentions g /\ is_salient g e = true.
Proof.
  unfold shared_count. split.
  - intros H.
    destruct (List.filter _ (salient_mentions g s1)) as [|e rest] eqn:Hf; [cbn in H; lia|].
    assert (Hin : In e (List.filter (fun e => bool_decide (e ∈ salient_mentions g s2))
                                    (salient_mentions g s1))) by (rewrite Hf; by left).
    apply filter_In in Hin as [H1 H2]. apply bool_decide_eq_true in H2.
    apply list_elem_of_In, salient_mentions_spec in H1 as [H1 Hs].
    apply salient_mentions_spec in H2 as [H2 _]. by exists e.
  - intros (e & H1 & H2 & Hs).
    assert (Hin : In e (List.filter (fun e => bool_decide (e ∈ salient_mentions g s2))
                                    (salient_mentions g s1))).
    { apply filter_In. split.
      - apply list_elem_of_In, salient_mentions_spec. done.
      - apply bool_decide_eq_true, salient_mentions_spec. done. }
    destruct (List.filter _ (salient_mentions g s1)); [destruct Hin|]. cbn. lia.
Qed.

Lemma shared_rows_shares g doc a b :
  In (a, b) (map fst (shared_rows g doc)) <-> shares g doc a b /\ str_ltb a b = true.
Proof.
  split.
  - intros H. apply in_map_iff in H as ([[a' b'] n] & [= -> ->] & Hin).
    pose proof (shared_rows_sections _ _ _ _ _ Hin) as (Ha & Hb & Hlt & Hn).
    split; [|done]. split; [done|]. split; [done|]. split.
    + intros ->. by rewrite str_ltb_irrefl in Hlt.
    + unfold shared_rows in Hin. apply in_flat_map in Hin as (s1 & Hs1 & Hin).
      apply list_elem_of_In, list_elem_of_omap in Hin as (s2 & Hs2 & Hf).
      destruct (str_ltb s1 s2); [|done].
      destruct (Z.leb_spec 1 (shared_count g (doc, s1) (doc, s2))) as [Hc|]; [|done].
      cbn in Hf. injection Hf as <- <- <-. by apply shared_count_positive.
  - intros [(Ha & Hb & Hne & He) Hlt]. apply in_map_iff.
    exists (a, b, shared_count g (doc, a) (doc, b)). split; [done|].
    unfold shared_rows. apply in_flat_map. exists a.
    split; [by apply section_rows_ids|].
    apply list_elem_of_In, list_elem_of_omap. exists b.
    split; [by apply list_elem_of_In, section_rows_ids|].
    rewrite Hlt. apply shared_count_positive in He.
    destruct (Z.leb_spec 1 (shared_count g (doc, a) (doc, b))); [done|lia].
Qed.

Lemma shares_sym g doc a b : shares g doc a b -> shares g doc b a.
Proof.
  intros (Ha & Hb & Hne & e & H1 & H2 & Hs).
  split; [done|]. split; [done|]. split; [by intros ->|]. by exists e.
Qed.

Lemma linked_sym g doc a b : linked g doc a b -> linked g doc b a.
Proof.
  intros [H|[H|H]]; [right; by left|by left|right; right; by apply shares_sym].
Qed.

(** The edges of the section graph are the linked pairs of sections,
    each once. *)
Lemma section_graph_pairs g doc :
  links_of g doc (pairs_of (get_section_graph g doc)).
Proof.
  rewrite pairs_of_section_graph.
  destruct (add_pairs_spec (reference_rows g doc) [] I) as [Hd1 Hx1].
  destruct (add_pairs_spec (map fst (shared_rows g doc)) _ Hd1) as [Hd2 Hx2].
  split; [done|]. intros a b. rewrite Hx2, Hx1. split.
  - intros [H|[H|H]].
    + left. right. exists (a, b). split; [by apply reference_rows_refers|by left].
    + left. right. exists (b, a). split; [by apply reference_rows_refers|by right].
    + right. destruct (str_ltb a b) eqn:Hab.
      * exists (a, b). split; [by apply shared_rows_shares|by left].
      * destruct (str_ltb b a) eqn:Hba.
        -- exists (b, a). split; [apply shared_rows_shares; split; [by apply shares_sym|done]|by right].
        -- destruct H as (_ & _ & Hne & _). destruct Hne. by apply str_ltb_total.
  - intros [[(p & [] & _)|([c d] & Hin & Hs)]|([c d] & Hin & Hs)].
    + apply reference_rows_refers in Hin.
      destruct Hs as [[= -> ->]|[= -> ->]]; [by left|right; by left].
    + apply shared_rows_shares in Hin as [Hin _].
      destruct Hs as [[= -> ->]|[= -> ->]]; [right; by right|].
      right. right. by apply shares_sym.
Qed.

(** The node and edge counts of the section graph are the numbers of
    sections and of linked pairs of sections in the store. *)
Lemma section_graph_counts g doc ids pairs :
  sections_of g doc ids -> links_of g doc pairs ->
  number_of_nodes (get_section_graph g doc) = Z.of_nat (length ids) /\
  number_of_edges (get_section_graph g doc) = Z.of_nat (length pairs).
Proof.
  intros [Hnd Hids] [Hdp Hpairs]. split.
  - destruct (number_of_nodes_sections g doc) as [-> _]. f_equal.
    rewrite <- (length_map fst (section_rows g doc)).
    apply Permutation_length, NoDup_Permutation; [apply section_rows_nodup|done|].
    intros sid. rewrite !list_elem_of_In, Hids. apply section_rows_ids.
  - unfold number_of_edges. f_equal.
    destruct (section_graph_pairs g doc) as [Hdg Hg].
    rewrite <- (length_map (fun e => (ed_u e, ed_v e)) (edges _)).
    apply distinct_pairs_length; [done|done|].
    intros [a b]. fold (pairs_of (get_section_graph g doc)).
    by rewrite <- Hg, <- Hpairs.
Qed.

End StoreCounts.

Section StoreBoundaries.

Import Neo4j CommunityDetection SectionLinks.

(** C6: the boundary cases of the detector, read on the store.  [ids]
    lists the sections the store holds for the document and [pairs] the
    pairs of them that are linked by a reference or by a shared CORE or
    IMPORTANT entity (the edges of the section graph).  With no section
    the outcome is "empty" and the store is unchanged.  With exactly 15
    sections and no linked pair the small mode persists exactly one
    fallback community, "0", of size 15 and modularity 0.0, and a CONTAINS
    edge from it to each of the 15 sections, and nothing else changes.
    With 16 sections and 10 linked pairs the outcome is "skipped" with 16
    nodes and 10 edges and the store is unchanged. *)
Theorem detect_section_communities_boundaries
        (best_partition : nxgraph -> list (str * Z))
        (modularity_of : list (str * Z) -> nxgraph -> float)
        (g : graph) (doc_id : str) (ids : list str) (pairs : list (str * str)) :
  sections_of g doc_id ids ->
  links_of g doc_id pairs ->
  let detect := detect_section_communities best_partition modularity_of g doc_id in
  (ids = [] -> detect = (g, Empty)) /\
  (length ids = 15%nat -> pairs = [] ->
   exists g',
     detect = (g', Persisted "small" 1 0%float) /\
     communities g'
     = <[(doc_id, "0" : str) := {| c_size := 15; c_modularity := 0%float;
                                   c_mode := "small" |}]> (communities g) /\
     only_communities_changed g g' /\
     (forall x, x ∈ contains_section g' <->
                x ∈ contains_section g \/
                exists sid, In sid ids /\ x = ((doc_id, "0" : str), (doc_id, sid)))) /\
  (length ids = 16%nat -> length pairs = 10%nat -> detect = (g, Skipped 16 10)).
Proof.
  intros Hids Hpairs detect.
  destruct (section_graph_counts g doc_id ids pairs Hids Hpairs) as [Hn He].
  destruct (detect_section_communities_by_counts best_partition modularity_of g doc_id)
    as (H0 & H15 & H16 & _).
  split; [|split].
  - intros ->. apply H0. by rewrite Hn.
  - intros Hlen ->. destruct H15 as (g' & Hd & Hc & Ho & Hx).
    + by rewrite Hn, Hlen.
    + by rewrite He.
    + exists g'. split; [done|]. split; [done|]. split; [done|].
      intros x. rewrite Hx. destruct Hids as [_ Hids].
      split; (intros [H|(sid & Hs & ->)]; [by left|right; exists sid; split; [by apply Hids|done]]).
  - intros Hlen Hp. apply H16; [by rewrite Hn, Hlen|by rewrite He, Hp].
Qed.

(** *** The two documents of [Documents] *)

Lemma with_sections_sections l g d sid :
  is_Some (sections (fold_left Documents.with_section l g) !! (d, sid)) <->
  (d = Documents.doc /\ In sid l) \/ is_Some (sections g !! (d, sid)).
Proof.
  revert g. induction l as [|s l IH]; intros g; cbn [fold_left].
  - split; [by right|]. by intros [[_ []]|H].
  - rewrite IH. unfold Documents.with_section. cbn [sections Documents.set_sections].
    destruct (decide ((Documents.doc, s) = (d, sid))) as [[= <- <-]|Hne].
    + rewrite lookup_insert_eq. split; [intros _; left; split; [done|by left]|].
      intros _. right. by eexists.
    + rewrite lookup_insert_ne by done. split.
      * intros [[-> H]|H]; [left; split; [done|by right]|by right].
      * intros [[-> [->|H]]|H]; [done|left; by split|by right].
Qed.

Lemma with_sections_frame l g :
  reference_paths (fold_left Documents.with_section l g) = reference_paths g /\
  mentions (fold_left Documents.with_section l g) = mentions g.
Proof. revert g. induction l as [|s l IH]; intros g; [done|]. cbn [fold_left]. by rewrite !(proj1 (IH _)), !(proj2 (IH _)). Qed.

Lemma with_references_frame l g :
  sections (fold_left Documents.with_reference l g) = sections g /\
  mentions (fold_left Documents.with_reference l g) = mentions g.
Proof. revert g. induction l as [|s l IH]; intros g; [done|]. cbn [fold_left]. by rewrite !(proj1 (IH _)), !(proj2 (IH _)). Qed.

Lemma with_references_paths l g x :
  x ∈ reference_paths (fold_left Documents.with_reference l g) <->
  x ∈ reference_paths g \/
  exists ab, In ab l /\
             x = ((Documents.doc, fst ab), fst ab ++ ("->" : str) ++ snd ab,
                  (Documents.doc, snd ab)).
Proof.
  revert g. induction l as [|r l IH]; intros g; cbn [fold_left].
  - split; [by left|]. by intros [H|(ab & [] & _)].
  - rewrite IH. unfold Documents.with_reference.
    cbn [reference_paths Documents.set_reference_paths].
    rewrite elem_of_union, elem_of_singleton. split.
    + intros [[->|H]|(ab & Hin & ->)]; [right; exists r; split; [by left|done]|by left|].
      right. exists ab. split; [by right|done].
    + intros [H|(ab & [<-|Hin] & ->)]; [left; by right|left; by left|].
      right. by exists ab.
Qed.

Lemma fifteen_sections_store :
  sections_of Documents.fifteen_sections Documents.doc Documents.ids15 /\
  links_of Documents.fifteen_sections Documents.doc [].
Proof.
  unfold Documents.fifteen_sections. split; [split|split].
  - apply (bool_decide_unpack _). vm_compute. reflexivity.
  - intros sid. rewrite with_sections_sections. cbn [sections empty_graph].
    rewrite lookup_empty. split; [intros H; left; by split|].
    intros [[_ H]|H]; [done|]. by destruct H.
  - exact I.
  - intros a b. split; [|by intros (p & [] & _)].
    destruct (with_sections_frame Documents.ids15 empty_graph) as [Hr Hm].
    intros [(_ & _ & rid & H)|[(_ & _ & rid & H)|(_ & _ & _ & e & H & _)]];
      rewrite ?Hr, ?Hm in H; cbn in H; set_solver.
Qed.

Lemma sixteen_sections_store :
  sections_of Documents.sixteen_sections Documents.doc ids16 /\
  links_of Documents.sixteen_sections Documents.doc refs10.
Proof.
  assert (Hsec : forall sid, is_Some (sections Documents.sixteen_sections
                                        !! (Documents.doc, sid)) <-> In sid ids16).
  { intros sid. unfold Documents.sixteen_sections.
    rewrite (proj1 (with_references_frame _ _)).
    change (Documents.with_section ?g ?s) with (fold_left Documents.with_section [s] g).
    unfold Documents.fifteen_sections. rewrite <- fold_left_app.
    rewrite with_sections_sections. cbn [sections empty_graph]. rewrite lookup_empty.
    fold ids16. split; [|intros H; left; by split].
    intros [[_ H]|H]; [done|]. by destruct H. }
  assert (Hends : forall a b, In (a, b) refs10 -> In a ids16 /\ In b ids16).
  { intros a b H. unfold refs10 in H. cbn [In] in H.
    repeat (destruct H as [[= <- <-]|H]; [split; vm_compute; tauto|]). destruct H. }
  assert (Hrefers : forall a b, refers Documents.sixteen_sections Documents.doc a b
                                <-> In (a, b) refs10).
  { intros a b. unfold refers. rewrite !Hsec. split.
    - intros (_ & _ & rid & H). unfold Documents.sixteen_sections in H.
      apply with_references_paths in H as [H|([a' b'] & Hin & [= -> _ ->])]; [|done].
      change (Documents.with_section ?g ?s) with (fold_left Documents.with_section [s] g) in H.
      unfold Documents.fifteen_sections in H. rewrite <- fold_left_app in H.
      rewrite (proj1 (with_sections_frame _ _)) in H. cbn in H. set_solver.
    - intros H. destruct (Hends a b H) as [Ha Hb]. split; [done|]. split; [done|].
      exists (a ++ ("->" : str) ++ b). unfold Documents.sixteen_sections.
      apply with_references_paths. right. by exists (a, b). }
  split; [split|split].
  - apply (bool_decide_unpack _). vm_compute. reflexivity.
  - intros sid. by rewrite Hsec.
  - unfold refs10. cbn [distinct_pairs].
    repeat (split; [repeat (constructor; [intros [H|H]; discriminate H|]); constructor|]).
    exact I.
  - intros a b. unfold linked. rewrite !Hrefers. split.
    + intros [H|[H|(_ & _ & _ & e & H & _)]].
      * exists (a, b). split; [done|by left].
      * exists (b, a). split; [done|by right].
      * unfold Documents.sixteen_sections in H.
        rewrite (proj2 (with_references_frame _ _)) in H.
        change (Documents.with_section ?g ?s) with (fold_left Documents.with_section [s] g) in H.
        unfold Documents.fifteen_sections in H. rewrite <- fold_left_app in H.
        rewrite (proj2 (with_sections_frame _ _)) in H. cbn in H. set_solver.
    + intros ([c d] & Hin & [[= -> ->]|[= -> ->]]); [by left|right; by left].
Qed.

Lemma detect_section_communities_boundaries_witness :
  (sections_of Documents.sixteen_sections Documents.doc ids16 /\
   links_of Documents.sixteen_sections Documents.doc refs10 /\
   detect_section_communities Documents.one_block Documents.zero_modularity
     Documents.sixteen_sections Documents.doc
   = (Documents.sixteen_sections, Skipped 16 10)) /\
  (sections_of Documents.fifteen_sections Documents.doc Documents.ids15 /\
   links_of Documents.fifteen_sections Documents.doc [] /\
   exists g',
     detect_section_communities Documents.one_block Documents.zero_modularity
       Documents.fifteen_sections Documents.doc
     = (g', Persisted "small" 1 0%float) /\
     communities g'
     = <[(Documents.doc, "0" : str) := {| c_size := 15; c_modularity := 0%float;
                                          c_mode := "small" |}]>
         (communities Documents.fifteen_sections) /\
     only_communities_changed Documents.fifteen_sections g' /\
     forall x, x ∈ contains_section g' <->
               x ∈ contains_section Documents.fifteen_sections \/
               exists sid, In sid Documents.ids15 /\
                           x = ((Documents.doc, "0" : str), (Documents.doc, sid))).
Proof.
  split.
  - destruct sixteen_sections_store as [Hs Hl]. split; [done|]. split; [done|].
    apply (detect_section_communities_boundaries
             Documents.one_block Documents.zero_modularity
             Documents.sixteen_sections Documents.doc ids16 refs10 Hs Hl);
      reflexivity.
  - destruct fifteen_sections_store as [Hs Hl]. split; [done|]. split; [done|].
    apply (detect_section_communities_boundaries
             Documents.one_block Documents.zero_modularity
             Documents.fifteen_sections Documents.doc Documents.ids15 [] Hs Hl);
      reflexivity.
Defined.

End StoreBoundaries.

Section ChunkCoverage.

Import Chunker Settings Stitch.

Context {token : Type}.
Variable encode : str -> list token.
Variable decode : list token -> str.

Lemma slice_exact {A} (a b : Z) (l : list A) :
  0 <= a -> a <= b -> b <= Z.of_nat (length l) ->
  slice a b l = firstn (Z.to_nat (b - a)) (skipn (Z.to_nat a) l) /\
  length (slice a b l) = Z.to_nat (b - a).
Proof.
  intros Ha Hab Hb. unfold slice, clamp_index.
  destruct (Z.ltb_spec a 0); [lia|]. destruct (Z.ltb_spec b 0); [lia|].
  rewrite !Z.min_l by lia. split; [done|].
  rewrite length_take, length_drop. lia.
Qed.

(** The rest of a slice after [d] tokens, followed by what comes after
    the slice, is the token list from [a + d] on. *)
Lemma slice_then_rest {A} (a b d : Z) (l : list A) :
  0 <= a -> 0 <= d -> a + d <= b -> b <= Z.of_nat (length l) ->
  skipn (Z.to_nat d) (slice a b l) ++ skipn (Z.to_nat b) l
  = skipn (Z.to_nat (a + d)) l.
Proof.
  intros Ha Hd Hab Hb. rewrite (proj1 (slice_exact a b l Ha ltac:(lia) Hb)).
  rewrite skipn_firstn_comm, skipn_skipn.
  replace (Z.to_nat d + Z.to_nat a)%nat with (Z.to_nat (a + d)) by lia.
  replace (Z.to_nat (b - a) - Z.to_nat d)%nat with (Z.to_nat (b - (a + d))) by lia.
  set (l' := skipn (Z.to_nat (a + d)) l).
  replace (skipn (Z.to_nat b) l) with (skipn (Z.to_nat (b - (a + d))) l').
  - apply firstn_skipn.
  - unfold l'. rewrite skipn_skipn. f_equal. lia.
Qed.

(** What the loop appends from [start] on, when the tokens before
    [start + d] are already covered. *)
Lemma chunk_loop_covers (fuel : nat) (tokens : list token)
      (chunk_size overlap start d : Z) (chunks out : list str) :
  0 <= overlap < chunk_size -> 0 <= start -> 0 <= d < chunk_size ->
  start + d <= Z.of_nat (length tokens) ->
  chunk_loop token decode fuel tokens chunk_size overlap start chunks = Some (Ok out) ->
  exists slices,
    out = chunks ++ map decode slices /\
    Forall (fun ts => (0 < length ts)%nat /\ Z.of_nat (length ts) <= chunk_size) slices /\
    (start < Z.of_nat (length tokens) ->
     match slices with
     | [] => []
     | s :: rest => skipn (Z.to_nat d) s ++ concat (map (skipn (Z.to_nat overlap)) rest)
     end = skipn (Z.to_nat (start + d)) tokens).
Proof.
  intros Hov. revert start d chunks.
  induction fuel as [|fuel IH]; intros start d chunks Hstart Hd Hcovered;
    cbn [chunk_loop];
    [discriminate|].
  destruct (Z.ltb_spec start (Z.of_nat (length tokens))) as [Hlt|Hge].
  2:{ intros [= <-]. exists []. split; [by rewrite app_nil_r|].
      split; [constructor|]. intros; exfalso; lia. }
  set (e := Z.min (start + chunk_size) (Z.of_nat (length tokens))).
  assert (He : start < e <= Z.of_nat (length tokens)) by lia.
  destruct (slice_exact start e tokens Hstart ltac:(lia) ltac:(lia)) as [_ Hlen].
  assert (Hsl : (0 < length (slice start e tokens))%nat /\
                Z.of_nat (length (slice start e tokens)) <= chunk_size).
  { rewrite Hlen. lia. }
  destruct (MAX_CHUNK_SIZE <? _); [discriminate|].
  destruct (Z.eqb_spec e (Z.of_nat (length tokens))) as [Hend|Hnot].
  - intros [= <-]. exists [slice start e tokens]. split; [done|].
    split; [by constructor|]. intros _. cbn [map concat]. rewrite app_nil_r.
    rewrite <- (slice_then_rest start e d tokens) by lia.
    rewrite Hend, Nat2Z.id, skipn_all. by rewrite app_nil_r.
  - intros H.
    replace (Z.max (e - overlap) (start + 1)) with (e - overlap) in H by lia.
    apply (IH (e - overlap) overlap) in H as (slices & -> & Hall & Hcov); [|lia..].
    exists (slice start e tokens :: slices). split; [by rewrite <- app_assoc|].
    split; [by constructor|]. intros _.
    rewrite <- (slice_then_rest start e d tokens) by lia. f_equal.
    specialize (Hcov ltac:(lia)). replace (e - overlap + overlap) with e in Hcov by lia.
    rewrite <- Hcov. by destruct slices.
Qed.

End ChunkCoverage.

(** X1: the token loop of [chunk_by_tokens] always comes to an end, for
    every text, chunk size and overlap (also an overlap as large as the
    chunk size, or negative values): its start index grows by at least
    one at each round, so the number of tokens plus one bounds the
    rounds. *)
Theorem chunk_by_tokens_terminates
        (token : Type) (encode : str -> list token) (decode : list token -> str)
        (text : str) (chunk_size overlap : Z) :
  exists r, Chunker.chunk_by_tokens token encode decode text chunk_size overlap = Some r.
Proof.
  unfold Chunker.chunk_by_tokens. destruct (_ <=? _); [by eexists|].
  apply chunk_loop_terminates; lia.
Qed.

(** X2: with 0 <= overlap < chunk_size <= MAX_CHUNK_SIZE,
    [chunk_by_tokens] returns without raising, and either the text has
    at most [chunk_size] tokens and comes back whole as the only chunk,
    or every chunk is the decoding of a slice of at least one and at
    most [chunk_size] tokens. *)
Theorem chunk_by_tokens_within_chunk_size
        (token : Type) (encode : str -> list token) (decode : list token -> str)
        (text : str) (chunk_size overlap : Z) :
  0 <= overlap < chunk_size -> chunk_size <= Settings.MAX_CHUNK_SIZE ->
  exists out,
    Chunker.chunk_by_tokens token encode decode text chunk_size overlap = Some (Ok out) /\
    (out = [text] /\ Chunker.count_tokens token encode text <= chunk_size \/
     exists slices,
       out = map decode slices /\
       Forall (fun ts => (0 < length ts)%nat /\ Z.of_nat (length ts) <= chunk_size)
              slices).
Proof.
  intros Hov Hmax.
  destruct (chunk_by_tokens_configured encode decode text chunk_size overlap)
    as (out & Hout & _); [lia|].
  exists out. split; [done|]. revert Hout.
  unfold Chunker.chunk_by_tokens, Chunker.count_tokens.
  destruct (Z.leb_spec (Z.of_nat (length (encode text))) chunk_size) as [Hle|Hbig].
  - intros [= <-]. by left.
  - intros H. right.
    apply (chunk_loop_covers decode _ _ _ _ 0 0) in H as (slices & -> & Hall & _);
      [|lia..].
    by exists slices.
Qed.

(** X3: the chunks of [chunk_by_tokens] lose no token and repeat only
    the overlap: with 0 <= overlap < chunk_size, either the text comes
    back whole, or the chunks decode token slices that, with the first
    [overlap] tokens of every slice but the first dropped, concatenate
    to the token sequence of the text. *)
Theorem chunk_by_tokens_covers
        (token : Type) (encode : str -> list token) (decode : list token -> str)
        (text : str) (chunk_size overlap : Z) (out : list str) :
  0 <= overlap < chunk_size ->
  Chunker.chunk_by_tokens token encode decode text chunk_size overlap = Some (Ok out) ->
  out = [text] \/
  exists slices,
    out = map decode slices /\ Stitch.stitch overlap slices = encode text.
Proof.
  intros Hov. unfold Chunker.chunk_by_tokens.
  destruct (Z.leb_spec (Z.of_nat (length (encode text))) chunk_size) as [|Hbig].
  - intros [= <-]. by left.
  - intros H. right.
    apply (chunk_loop_covers decode _ _ _ _ 0 0) in H as (slices & -> & _ & Hcov);
      [|lia..].
    exists slices. split; [done|]. specialize (Hcov ltac:(lia)).
    unfold Stitch.stitch. destruct slices; [done|]. exact Hcov.
Qed.

Lemma chunk_by_tokens_within_chunk_size_witness :
  0 <= 1 < 4 /\ 4 <= Settings.MAX_CHUNK_SIZE /\
  exists out,
    Chunker.chunk_by_tokens N Chunker.char_encode Chunker.char_decode
      "abcdefghij" 4 1 = Some (Ok out) /\
    (out = ["abcdefghij" : str] /\
     Chunker.count_tokens N Chunker.char_encode "abcdefghij" <= 4 \/
     exists slices,
       out = map Chunker.char_decode slices /\
       Forall (fun ts => (0 < length ts)%nat /\ Z.of_nat (length ts) <= 4) slices).
Proof.
  split; [lia|]. split; [unfold Settings.MAX_CHUNK_SIZE; lia|].
  apply chunk_by_tokens_within_chunk_size; [lia|unfold Settings.MAX_CHUNK_SIZE; lia].
Defined.

Lemma chunk_by_tokens_covers_witness :
  0 <= 1 < 4 /\
  (["abcd" : str; "defg" : str; "ghij" : str] = ["abcdefghij" : str] \/
   exists slices,
     ["abcd" : str; "defg" : str; "ghij" : str] = map Chunker.char_decode slices /\
     Stitch.stitch 1 slices = Chunker.char_encode "abcdefghij").
Proof.
  split; [lia|].
  apply (chunk_by_tokens_covers N Chunker.char_encode Chunker.char_decode
           "abcdefghij" 4 1); [lia|].
  vm_compute. reflexivity.
Defined.

Section BuildChunks.

Import Json Chunker SectionChunks.

Context {token : Type}.
Variable encode : str -> list token.
Variable decode : list token -> str.

Lemma chunk_by_tokens_nonempty (txt : str) (chunk_size overlap : Z) (out : list str) :
  0 <= chunk_size ->
  chunk_by_tokens token encode decode txt chunk_size overlap = Some (Ok out) ->
  out <> [].
Proof.
  intros Hcs. unfold chunk_by_tokens.
  destruct (Z.leb_spec (Z.of_nat (length (encode txt))) chunk_size) as [|Hbig];
    [by intros [= <-]|].
  cbn [chunk_loop].
  destruct (Z.ltb_spec 0 (Z.of_nat (length (encode txt)))); [|lia].
  destruct (_ <? _); [discriminate|].
  destruct (_ =? _); [by intros [= <-]|].
  intros Hloop. apply chunk_loop_checked in Hloop as (slices & -> & _). done.
Qed.

Lemma map_seq_from {A} (f : nat -> A) (a n : nat) :
  map f (seq a n) = map (fun i => f (a + i)%nat) (seq 0 n).
Proof.
  rewrite <- (Nat.add_0_r a) at 1. rewrite <- fmap_add_seq.
  change (fmap ?g ?l) with (map g l). by rewrite map_map.
Qed.

Lemma append_chunks_spec (s : section) (sid doc_id : str) (texts : list str)
      (idx : Z) (chunks : list chunk) :
  section_id s = Some sid ->
  exists grp,
    append_chunks token encode s doc_id idx texts chunks = Ok (chunks ++ grp) /\
    length grp = length texts /\
    Forall (fun c => c_section_id c = sid /\ c_doc_id c = doc_id
                     /\ c_is_empty c = false) grp /\
    map c_chunk_id grp
    = map (fun '(i, _) => chunk_id_of doc_id sid i) (enumerate_from idx grp) /\
    map c_chunk_index grp
    = map (fun i => Z.of_nat (length chunks + i)) (seq 0 (length grp)).
Proof.
  intros Hsid. revert idx chunks.
  induction texts as [|t texts IH]; intros idx chunks; cbn [append_chunks].
  - exists []. by rewrite app_nil_r.
  - unfold _make_chunk. rewrite Hsid.
    match goal with
    | |- context [append_chunks _ _ _ _ _ _ (chunks ++ [?c])] => set (c0 := c)
    end.
    destruct (IH (idx + 1) (chunks ++ [c0])) as (grp & -> & Hlen & Hall & Hids & Hidx).
    exists (c0 :: grp). split; [by rewrite <- app_assoc|].
    split; [cbn; by rewrite Hlen|]. split; [by constructor|].
    split; [cbn; by rewrite Hids|].
    cbn [map length seq]. rewrite Hidx. f_equal; [cbn; f_equal; lia|].
    rewrite <- seq_shift, map_map. apply map_ext. intros i.
    rewrite length_app. cbn. f_equal. lia.
Qed.

(** Without an id the first chunk of a section already fails. *)
Lemma append_chunks_no_id (s : section) (doc_id : str) (texts : list str)
      (idx : Z) (chunks : list chunk) :
  section_id s = None -> texts <> [] ->
  append_chunks token encode s doc_id idx texts chunks = Raise (KeyError "section_id").
Proof.
  intros Hsid Hne. destruct texts as [|t texts]; [done|].
  cbn [append_chunks]. unfold _make_chunk. by rewrite Hsid.
Qed.

(** What the section loop adds to the chunks it started with. *)
Lemma build_loop_spec (normalized : str) (sections : list section) (doc_id : str)
      (chunk_size overlap : Z) (chunks out : list chunk) :
  0 <= chunk_size ->
  build_loop token encode decode normalized sections doc_id chunk_size overlap chunks
    = Some (Ok out) ->
  exists groups,
    out = chunks ++ concat groups /\
    Forall2 (section_group token encode doc_id) sections groups /\
    map c_chunk_index (concat groups)
    = map (fun i => Z.of_nat (length chunks + i)) (seq 0 (length (concat groups))).
Proof.
  intros Hcs. revert chunks.
  induction sections as [|s sections IH]; intros chunks; cbn [build_loop].
  - intros [= <-]. exists []. rewrite app_nil_r. by repeat split.
  - assert (Htxt : extract_text_for_section [] s = extract_text_for_section normalized s)
      by done.
    destruct (extract_text_for_section normalized s) as [| | | |txt| |] eqn:Hjs;
      try discriminate.
    destruct (section_id s) as [sid|] eqn:Hsid.
    2:{ destruct (strip txt) as [|c0 st] eqn:Hstrip.
        - unfold _make_chunk. rewrite Hsid. discriminate.
        - destruct (chunk_by_tokens token encode decode txt chunk_size overlap)
            as [[texts|e]|] eqn:Hchunk; [|discriminate..].
          rewrite append_chunks_no_id; [discriminate|done|].
          by eapply chunk_by_tokens_nonempty. }
    destruct (strip txt) as [|c0 st] eqn:Hstrip.
    + unfold _make_chunk at 1. rewrite Hsid.
      match goal with
      | |- context [build_loop _ _ _ _ _ _ _ _ (chunks ++ [?c])] => set (m := c)
      end.
      intros H. apply IH in H as (groups & -> & Hgroups & Hidx).
      exists ([m] :: groups). split; [by rewrite <- app_assoc|]. split.
      * constructor; [|done]. exists sid, txt.
        split; [done|]. split; [done|]. split; [done|].
        split; [by repeat constructor|]. split; [done|]. split.
        -- intros _. exists (Z.of_nat (length chunks)), m. split; [|done].
           unfold _make_chunk. by rewrite Hsid.
        -- by rewrite Hstrip.
      * cbn [concat app map length seq]. f_equal; [cbn; f_equal; lia|].
        rewrite Hidx, <- seq_shift, map_map. apply map_ext. intros i.
        rewrite length_app. cbn. f_equal. lia.
    + destruct (chunk_by_tokens token encode decode txt chunk_size overlap)
        as [[texts|e]|] eqn:Hchunk; [|discriminate..].
      pose proof (chunk_by_tokens_nonempty _ _ _ _ Hcs Hchunk) as Hne.
      destruct (append_chunks_spec s sid doc_id texts 1 chunks Hsid)
        as (grp & -> & Hlen & Hall & Hids & Hidx1).
      intros H. apply IH in H as (groups & -> & Hgroups & Hidx).
      exists (grp :: groups). split; [by rewrite <- app_assoc|]. split.
      * constructor; [|done]. exists sid, txt.
        split; [done|]. split; [done|].
        split; [destruct grp, texts; done|].
        split; [eapply Forall_impl; [exact Hall|]; by intros c (? & ? & ?)|].
        split; [done|]. split; [by rewrite Hstrip|].
        intros _. eapply Forall_impl; [exact Hall|]. by intros c (? & ? & ?).
      * cbn [concat]. rewrite map_app, length_app, seq_app, map_app, Hidx1, Hidx.
        f_equal. cbn [Nat.add]. rewrite (map_seq_from _ (length grp)).
        apply map_ext. intros i. rewrite length_app. f_equal. lia.
Qed.

Lemma build_loop_ignores_text (n1 n2 : str) (sections : list section) (doc_id : str)
      (chunk_size overlap : Z) (chunks : list chunk) :
  build_loop token encode decode n1 sections doc_id chunk_size overlap chunks
  = build_loop token encode decode n2 sections doc_id chunk_size overlap chunks.
Proof.
  revert chunks. induction sections as [|s sections IH]; intros chunks; [done|].
  cbn [build_loop]. unfold extract_text_for_section.
  destruct (match text s with Some v => v | None => JStr [] end); try done.
  destruct (strip _).
  - destruct (_make_chunk _ _ _ _ _ _ _ _); [apply IH|done].
  - destruct (chunk_by_tokens _ _ _ _ _ _) as [[texts|e]|]; [|done..].
    destruct (append_chunks _ _ _ _ _ _ _); [apply IH|done].
Qed.

(** With a configured chunk size the loop ends; it returns its chunks
    when every section has an id and a string for its text, and raises
    AttributeError or KeyError otherwise. *)
Lemma build_loop_configured (normalized : str) (sections : list section) (doc_id : str)
      (chunk_size overlap : Z) (chunks : list chunk) :
  0 < chunk_size <= Settings.MAX_CHUNK_SIZE ->
  exists out,
    build_loop token encode decode normalized sections doc_id chunk_size overlap chunks
    = Some out /\
    ((exists l, out = Ok l) <-> Forall (fun s => section_ok s = true) sections) /\
    (forall e, out = Raise e -> e = AttributeError \/ e = KeyError "section_id").
Proof.
  intros Hcs. revert chunks.
  induction sections as [|s sections IH]; intros chunks; cbn [build_loop].
  - eexists. split; [done|]. split; [|done]. split; [done|]. intros _. by eexists.
  - assert (Hbad : section_ok s = false ->
                   forall out : result (list chunk),
                     ((exists l, out = Ok l) <->
                      Forall (fun s => section_ok s = true) (s :: sections)) <->
                     ~ exists l, out = Ok l).
    { intros Hs out. split.
      - intros Hiff Hex. apply Hiff in Hex. inversion Hex; subst. congruence.
      - intros Hno. split; [done|]. intros Hall. inversion Hall; subst. congruence. }
    assert (Hgood : section_ok s = true ->
                    forall out : result (list chunk),
                      ((exists l, out = Ok l) <->
                       Forall (fun s => section_ok s = true) sections) ->
                      ((exists l, out = Ok l) <->
                       Forall (fun s => section_ok s = true) (s :: sections))).
    { intros Hs out Hiff. rewrite Hiff. split; [by constructor|].
      intros Hall. by inversion Hall. }
    unfold section_ok in Hbad, Hgood.
    change (extract_text_for_section [] s)
      with (extract_text_for_section normalized s) in Hbad, Hgood.
    destruct (extract_text_for_section normalized s) as [| | | |txt| |] eqn:Hjs;
      try (eexists; split; [done|]; split;
           [apply Hbad; [by destruct (section_id s)|]; by intros [l Hl]
           |intros e [= <-]; by left]).
    destruct (section_id s) as [sid|] eqn:Hsid.
    + destruct (strip txt) as [|c0 st] eqn:Hstrip.
      * unfold _make_chunk. rewrite Hsid.
        match goal with
        | |- context [build_loop _ _ _ _ _ _ _ _ ?cs] =>
            destruct (IH cs) as (out & -> & Hiff & Herr)
        end.
        exists out. split; [done|]. split; [by apply Hgood|done].
      * destruct (chunk_by_tokens_configured encode decode txt chunk_size overlap Hcs)
          as (texts & -> & _).
        destruct (append_chunks_spec s sid doc_id texts 1 chunks Hsid) as (grp & -> & _).
        destruct (IH (chunks ++ grp)) as (out & -> & Hiff & Herr).
        exists out. split; [done|]. split; [by apply Hgood|done].
    + assert (Hres : forall out : result (list chunk),
                 out = Raise (KeyError "section_id") ->
                 ((exists l, out = Ok l) <->
                  Forall (fun s => section_ok s = true) (s :: sections)) /\
                 (forall e, out = Raise e -> e = AttributeError \/ e = KeyError "section_id")).
      { intros out ->. split; [apply Hbad; [done|]; by intros [l Hl]|].
        intros e [= <-]. by right. }
      destruct (strip txt) as [|c0 st] eqn:Hstrip.
      * unfold _make_chunk. rewrite Hsid. eexists. split; [done|]. by apply Hres.
      * destruct (chunk_by_tokens_configured encode decode txt chunk_size overlap Hcs)
          as (texts & Hchunk & _).
        rewrite Hchunk, append_chunks_no_id; [|done|].
        -- eexists. split; [done|]. by apply Hres.
        -- eapply chunk_by_tokens_nonempty; [|exact Hchunk]. lia.
Qed.

(** The chunks [build_chunks_without_sections] makes of the chunk texts,
    numbered from [idx]. *)
Lemma fallback_chunks_spec (doc_id : str) (texts : list str) (idx : Z) :
  let chunks := map (fun '(i, c) => fallback_chunk token encode doc_id i c)
                    (enumerate_from idx texts) in
  map c_text chunks = texts /\
  map c_chunk_index chunks
  = map (fun k => idx - 1 + Z.of_nat k) (seq 0 (length chunks)) /\
  map c_chunk_id chunks
  = map (fun k => chunk_id_of doc_id section_0 (idx + Z.of_nat k))
        (seq 0 (length chunks)) /\
  Forall (fun c => c_section_id c = section_0 /\ c_doc_id c = doc_id /\
                   c_is_empty c = false) chunks.
Proof.
  revert idx. induction texts as [|t texts IH]; intros idx; [by repeat split|].
  destruct (IH (idx + 1)) as (Htxt & Hidx & Hids & Hall).
  cbn [enumerate_from map length seq]. cbv zeta in *.
  split; [by rewrite Htxt|].
  split.
  { rewrite Hidx. cbn [c_chunk_index fallback_chunk].
    f_equal; [lia|]. rewrite <- seq_shift, map_map. apply map_ext. intros; lia. }
  split.
  { rewrite Hids. cbn [c_chunk_id fallback_chunk].
    f_equal; [f_equal; lia|]. rewrite <- seq_shift, map_map. apply map_ext.
    intros; f_equal; lia. }
  by constructor.
Qed.

End BuildChunks.

(** X5: when [build_chunks_from_sections] returns (with a chunk size that
    is not negative), every section has an id and a string (or no) text,
    and the chunks are the sections' groups one after the other, in the
    order of the sections: every section gives at least one chunk, its
    chunks carry its section id and the document id and are numbered
    [doc:section:1], [doc:section:2], ...; a section whose text is
    missing or whitespace gives exactly one chunk, the empty marker with
    text [""], and the chunks of any other section are not marked empty.
    [chunk_index] counts the chunks of the whole document from 0. *)
Theorem build_chunks_from_sections_groups
        (token : Type) (encode : str -> list token) (decode : list token -> str)
        (full_text : str) (sections : list SectionChunks.section) (doc_id : str)
        (chunk_size overlap : Z) (chunks : list SectionChunks.chunk) :
  0 <= chunk_size ->
  SectionChunks.build_chunks_from_sections token encode decode
    full_text sections doc_id chunk_size overlap = Some (Ok chunks) ->
  map SectionChunks.c_chunk_index chunks = map Z.of_nat (seq 0 (length chunks)) /\
  exists groups,
    chunks = concat groups /\
    Forall2 (SectionChunks.section_group token encode doc_id) sections groups.
Proof.
  intros Hcs H. apply build_loop_spec in H as (groups & -> & Hgroups & Hidx); [|done].
  cbn [app]. split; [by rewrite Hidx|]. by exists groups.
Qed.

Lemma build_chunks_from_sections_groups_witness :
  let intro := {| SectionChunks.section_id := Some (lit "s1");
                  SectionChunks.title := Some (lit "Intro");
                  SectionChunks.level := Some 1; SectionChunks.parent_id := None;
                  SectionChunks.page_start := Some 1; SectionChunks.page_end := None;
                  SectionChunks.text := Some (Json.JStr "   ") |} in
  let body := {| SectionChunks.section_id := Some (lit "s2"); SectionChunks.title := None;
                 SectionChunks.level := None; SectionChunks.parent_id := Some (lit "s1");
                 SectionChunks.page_start := None; SectionChunks.page_end := None;
                 SectionChunks.text := Some (Json.JStr "abcdefghij") |} in
  0 <= 4 /\
  exists chunks,
    map SectionChunks.c_text chunks = ["" : str; "abcd" : str; "defg" : str; "ghij" : str] /\
    map SectionChunks.c_chunk_id chunks
    = ["d:s1:1" : str; "d:s2:1" : str; "d:s2:2" : str; "d:s2:3" : str] /\
    map SectionChunks.c_chunk_index chunks = map Z.of_nat (seq 0 (length chunks)) /\
    exists groups,
      chunks = concat groups /\
      Forall2 (SectionChunks.section_group N Chunker.char_encode "d") [intro; body] groups.
Proof.
  intros intro body. split; [lia|].
  destruct (SectionChunks.build_chunks_from_sections N Chunker.char_encode
              Chunker.char_decode "ignored" [intro; body] "d" 4 1)
    as [[chunks|e]|] eqn:Hrun; [|discriminate Hrun..].
  exists chunks. split; [|split].
  - revert Hrun. vm_compute. by intros [= <-].
  - revert Hrun. vm_compute. by intros [= <-].
  - exact (build_chunks_from_sections_groups N Chunker.char_encode Chunker.char_decode
             "ignored" [intro; body] "d" 4 1 chunks ltac:(lia) Hrun).
Defined.

(** X6: with a configured chunk size (0 < chunk_size <= MAX_CHUNK_SIZE)
    [build_chunks_from_sections] terminates, and the safety check of the
    token loop cannot fire, whatever the sections, the tokenizer and the
    overlap are.  It returns its chunks exactly when every section has a
    [section_id] and a [text] that is a string or missing; otherwise it
    raises AttributeError (a text that is not a string, such as a null) or
    KeyError (no [section_id]), and nothing else. *)
Theorem build_chunks_from_sections_configured
        (token : Type) (encode : str -> list token) (decode : list token -> str)
        (full_text : str) (sections : list SectionChunks.section) (doc_id : str)
        (chunk_size overlap : Z) :
  0 < chunk_size <= Settings.MAX_CHUNK_SIZE ->
  exists out,
    SectionChunks.build_chunks_from_sections token encode decode
      full_text sections doc_id chunk_size overlap = Some out /\
    ((exists chunks, out = Ok chunks) <->
     Forall (fun s => SectionChunks.section_ok s = true) sections) /\
    (forall e, out = Raise e -> e = AttributeError \/ e = KeyError "section_id").
Proof.
  intros Hcs. by apply build_loop_configured.
Qed.

Lemma build_chunks_from_sections_configured_witness :
  let words := {| SectionChunks.section_id := Some (lit "s1"); SectionChunks.title := None;
                  SectionChunks.level := None; SectionChunks.parent_id := None;
                  SectionChunks.page_start := None; SectionChunks.page_end := None;
                  SectionChunks.text := Some (Json.JStr "some words") |} in
  let null := {| SectionChunks.section_id := Some (lit "s2"); SectionChunks.title := None;
                 SectionChunks.level := None; SectionChunks.parent_id := None;
                 SectionChunks.page_start := None; SectionChunks.page_end := None;
                 SectionChunks.text := Some Json.JNull |} in
  0 < 800 <= Settings.MAX_CHUNK_SIZE /\
  (exists out,
     SectionChunks.build_chunks_from_sections N Chunker.char_encode Chunker.char_decode
       "text" [words] "doc-1" 800 100 = Some out /\
     ((exists chunks, out = Ok chunks) <->
      Forall (fun s => SectionChunks.section_ok s = true) [words]) /\
     (forall e, out = Raise e -> e = AttributeError \/ e = KeyError "section_id")) /\
  (exists out,
     SectionChunks.build_chunks_from_sections N Chunker.char_encode Chunker.char_decode
       "text" [words; null] "doc-1" 800 100 = Some out /\
     ((exists chunks, out = Ok chunks) <->
      Forall (fun s => SectionChunks.section_ok s = true) [words; null]) /\
     (forall e, out = Raise e -> e = AttributeError \/ e = KeyError "section_id")).
Proof.
  intros words null.
  assert (Hcs : 0 < 800 <= Settings.MAX_CHUNK_SIZE)
    by (unfold Settings.MAX_CHUNK_SIZE; lia).
  split; [exact Hcs|]. split.
  - exact (build_chunks_from_sections_configured N Chunker.char_encode
             Chunker.char_decode "text" [words] "doc-1" 800 100 Hcs).
  - exact (build_chunks_from_sections_configured N Chunker.char_encode
             Chunker.char_decode "text" [words; null] "doc-1" 800 100 Hcs).
Defined.

(** X7: [build_chunks_from_sections] does not use its [full_text]
    argument: the text is normalized, but every section is chunked from
    its own [text] field as it is (not normalized), so two calls that
    differ only in [full_text] give the same result. *)
Theorem build_chunks_from_sections_ignores_full_text
        (token : Type) (encode : str -> list token) (decode : list token -> str)
        (full_text1 full_text2 : str) (sections : list SectionChunks.section)
        (doc_id : str) (chunk_size overlap : Z) :
  SectionChunks.build_chunks_from_sections token encode decode
    full_text1 sections doc_id chunk_size overlap
  = SectionChunks.build_chunks_from_sections token encode decode
      full_text2 sections doc_id chunk_size overlap.
Proof.
  apply build_loop_ignores_text.
Qed.

(** X8: with a configured chunk size, [build_chunks_without_sections]
    returns at least one chunk (also for an empty text); its chunks all
    belong to the synthetic section [section_0], none is marked empty, the
    k-th has [chunk_index] k-1 and id [doc:section_0:k]; their texts are
    the chunks of the normalized text. *)
Theorem build_chunks_without_sections_spec
        (token : Type) (encode : str -> list token) (decode : list token -> str)
        (text doc_id : str) (chunk_size overlap : Z) :
  0 < chunk_size <= Settings.MAX_CHUNK_SIZE ->
  exists chunks,
    SectionChunks.build_chunks_without_sections token encode decode
      text doc_id chunk_size overlap = Some (Ok chunks) /\
    chunks <> [] /\
    Chunker.chunk_by_tokens token encode decode (Chunker.normalize_text text)
      chunk_size overlap = Some (Ok (map SectionChunks.c_text chunks)) /\
    map SectionChunks.c_chunk_index chunks = map Z.of_nat (seq 0 (length chunks)) /\
    map SectionChunks.c_chunk_id chunks
    = map (fun k => SectionChunks.chunk_id_of doc_id SectionChunks.section_0
                      (Z.of_nat k + 1))
          (seq 0 (length chunks)) /\
    Forall (fun c => SectionChunks.c_section_id c = SectionChunks.section_0 /\
                     SectionChunks.c_doc_id c = doc_id /\
                     SectionChunks.c_is_empty c = false) chunks.
Proof.
  intros Hcs. unfold SectionChunks.build_chunks_without_sections.
  destruct (chunk_by_tokens_configured encode decode (Chunker.normalize_text text)
              chunk_size overlap Hcs) as (texts & Htexts & _).
  assert (Hne : texts <> []).
  { eapply chunk_by_tokens_nonempty; [|exact Htexts]. lia. }
  rewrite Htexts. eexists. split; [done|].
  destruct (fallback_chunks_spec encode doc_id texts 1) as (Htxt & Hidx & Hids & Hall).
  cbv zeta in *.
  split; [destruct texts; done|]. split; [by rewrite Htxt|].
  split; [rewrite Hidx; apply map_ext; intros; lia|].
  split; [rewrite Hids; apply map_ext; intros; f_equal; lia|done].
Qed.

Lemma build_chunks_without_sections_spec_witness :
  0 < 4 <= Settings.MAX_CHUNK_SIZE /\
  exists chunks,
    SectionChunks.build_chunks_without_sections N Chunker.char_encode Chunker.char_decode
      "abcdefghij" "d" 4 1 = Some (Ok chunks) /\
    chunks <> [] /\
    Chunker.chunk_by_tokens N Chunker.char_encode Chunker.char_decode
      (Chunker.normalize_text "abcdefghij") 4 1
    = Some (Ok (map SectionChunks.c_text chunks)) /\
    map SectionChunks.c_chunk_index chunks = map Z.of_nat (seq 0 (length chunks)) /\
    map SectionChunks.c_chunk_id chunks
    = map (fun k => SectionChunks.chunk_id_of "d" SectionChunks.section_0
                      (Z.of_nat k + 1))
          (seq 0 (length chunks)) /\
    Forall (fun c => SectionChunks.c_section_id c = SectionChunks.section_0 /\
                     SectionChunks.c_doc_id c = lit "d" /\
                     SectionChunks.c_is_empty c = false) chunks.
Proof.
  split; [unfold Settings.MAX_CHUNK_SIZE; lia|].
  apply build_chunks_without_sections_spec. unfold Settings.MAX_CHUNK_SIZE. lia.
Defined.

(* --------------------------------------------------------------------- *)
(** ** Chunker: what normalized text looks like                            *)
(* --------------------------------------------------------------------- *)

(** X4: the text [normalize_text] returns is clean, whatever the input:
    stripping it again changes nothing, no line of it ends in whitespace,
    its lines joined by a newline give the text back (the newline is its
    only line boundary and it does not end with one), and it holds no two
    adjacent blanks (space or tab). *)
Theorem normalize_text_clean (t : str) :
  let x := Chunker.normalize_text t in
  strip x = x /\
  map rstrip (splitlines x) = splitlines x /\
  join [LF] (splitlines x) = x /\
  Normal.adj Normal.not_both_blank x.
Proof.
  intros x. pose proof (normalize_text_normal t) as Hx. fold x in Hx.
  pose proof Hx as (Hlb & Hnb & Hclean & Hhead & Hlast).
  split; [|split; [|split]].
  - unfold strip. rewrite lstrip_fixed by done. by apply rstrip_fixed.
  - pose proof (lines_rstripped x Hlb Hclean Hlast) as H.
    induction H as [|l ls Hl _ IH]; [done|]. cbn. by rewrite Hl, IH.
  - apply join_splitlines; [done|]. intros c Hc ->. by apply Hlast in Hc.
  - done.
Qed.

(* --------------------------------------------------------------------- *)
(** ** Extractor: names                                                    *)
(* --------------------------------------------------------------------- *)

Section NormalizeName.

Import Json Extractor Words.

Lemma split_ws_spaces q : Forall (fun c => isspace c = true) q -> split_ws q = [].
Proof. induction 1 as [|c q Hc _ IH]; [done|]. cbn. by rewrite Hc. Qed.

Lemma split_ws_cons c s :
  split_ws (c :: s) =
  if isspace c then split_ws s
  else match s with
       | [] => [[c]]
       | d :: _ => if isspace d then [c] :: split_ws s
                   else match split_ws s with
                        | w :: ws => (c :: w) :: ws
                        | [] => [[c]]
                        end
       end.
Proof. done. Qed.

Lemma split_ws_words s : Forall word (split_ws s).
Proof.
  induction s as [|c s IH]; [constructor|]. rewrite split_ws_cons.
  destruct (isspace c) eqn:Hc; [done|].
  destruct s as [|d s]; [by repeat constructor|].
  destruct (isspace d) eqn:Hd; [constructor; [by repeat constructor|done]|].
  destruct (split_ws (d :: s)) as [|w ws]; [by repeat constructor|].
  inversion IH as [|? ? [Hw1 Hw2] Hws]; subst.
  constructor; [|done]. split; [done|by constructor].
Qed.

Lemma split_ws_lstrip s : split_ws (lstrip s) = split_ws s.
Proof.
  induction s as [|c s IH]; [done|]. cbn [lstrip]. rewrite (split_ws_cons c s).
  destruct (isspace c) eqn:Hc; [exact IH|]. by rewrite split_ws_cons, Hc.
Qed.

Lemma split_ws_app_spaces a q :
  Forall (fun c => isspace c = true) q -> split_ws (a ++ q) = split_ws a.
Proof.
  intros Hq. induction a as [|c a IH]; [by apply split_ws_spaces|].
  rewrite <- app_comm_cons, !split_ws_cons, IH.
  destruct (isspace c); [done|].
  destruct a as [|d a]; [|done]. cbn [app].
  destruct Hq as [|e q He Hq]; [done|]. by rewrite He.
Qed.

Lemma split_ws_rstrip s : split_ws (rstrip s) = split_ws s.
Proof.
  destruct (rstrip_prefix s) as (q & Hs & Hq). rewrite Hs at 2.
  by rewrite split_ws_app_spaces.
Qed.

Lemma split_ws_strip s : split_ws (strip s) = split_ws s.
Proof. unfold strip. by rewrite split_ws_rstrip, split_ws_lstrip. Qed.

Lemma split_ws_word_then w sp r :
  word w -> isspace sp = true -> split_ws (w ++ sp :: r) = w :: split_ws (sp :: r).
Proof.
  intros [Hne Hw] Hsp. induction Hw as [|c w Hc Hw IH]; [done|].
  rewrite <- app_comm_cons, split_ws_cons, Hc.
  destruct w as [|d w].
  - cbn [app]. by rewrite Hsp.
  - rewrite <- app_comm_cons. inversion Hw as [|? ? Hd _]; subst. rewrite Hd.
    rewrite app_comm_cons, IH by done. done.
Qed.

Lemma split_ws_word w : word w -> split_ws w = [w].
Proof.
  intros [Hne Hw]. induction Hw as [|c w Hc Hw IH]; [done|].
  rewrite split_ws_cons, Hc. destruct w as [|d w]; [done|].
  inversion Hw as [|? ? Hd _]; subst. rewrite Hd, IH by done. done.
Qed.

Lemma split_ws_join ws : Forall word ws -> split_ws (join space ws) = ws.
Proof.
  induction 1 as [|w ws Hw Hws IH]; [done|].
  destruct ws as [|w' ws]; [by apply split_ws_word|].
  rewrite join_cons by done. change (space ++ ?r) with (ascii_of_N 32 :: r).
  rewrite split_ws_word_then by done. rewrite split_ws_cons.
  change (isspace (ascii_of_N 32)) with true. cbv iota. by rewrite IH.
Qed.

Lemma join_words_ends ws :
  Forall word ws ->
  (forall c, head (join space ws) = Some c -> isspace c = false) /\
  (forall c, last (join space ws) = Some c -> isspace c = false).
Proof.
  induction 1 as [|w ws [Hne Hw] Hws [IHh IHl]]; [done|].
  destruct ws as [|w' ws].
  - cbn [join]. split; intros c Hc.
    + destruct w as [|d w]; [done|]. injection Hc as <-. by inversion Hw.
    + apply last_Some in Hc as [l' ->]. apply Forall_app in Hw as [_ Hw].
      by inversion Hw.
  - rewrite join_cons by done. split; intros c Hc.
    + destruct w as [|d w]; [done|]. injection Hc as <-. by inversion Hw.
    + apply IHl. rewrite !last_app in Hc.
      destruct (last (join space (w' :: ws))) as [x|] eqn:Hl; [done|].
      apply last_None in Hl. inversion Hws as [|? ? [Hne' Hw'] _]; subst.
      destruct ws; [cbn in Hl; done|].
      rewrite join_cons in Hl by done. by destruct w'.
Qed.

Lemma strip_join_words ws : Forall word ws -> strip (join space ws) = join space ws.
Proof.
  intros Hws. destruct (join_words_ends ws Hws) as [Hh Hl].
  unfold strip. rewrite lstrip_fixed by done. by apply rstrip_fixed.
Qed.

End NormalizeName.

(** X9: [normalize_name] returns a name in a fixed form: normalizing the
    result again gives it back, its words are the words of the input,
    separated by single spaces, with no whitespace at either end; and a
    name of whitespace only (or a missing one) normalizes to [""]. *)
Theorem normalize_name_idempotent (name : Json.json) (n : str) :
  Extractor.normalize_name name = Ok n ->
  Extractor.normalize_name (Json.JStr n) = Ok n /\
  strip n = n /\
  n = join Extractor.space (split_ws n) /\
  (forall s, name = Json.JStr s -> split_ws n = split_ws s) /\
  (Json.py_truthy name = false -> n = []).
Proof.
  unfold Extractor.normalize_name at 1.
  destruct (Json.py_truthy name) eqn:Ht.
  2:{ intros [= <-]. repeat split; try done.
      intros s ->. by destruct s. }
  destruct name as [| | | |s| |]; try done. intros [= <-].
  pose proof (split_ws_words (strip s)) as Hws.
  set (ws := split_ws (strip s)) in *.
  assert (Hsplit : split_ws (join Extractor.space ws) = ws) by by apply split_ws_join.
  assert (Hstrip : strip (join Extractor.space ws) = join Extractor.space ws)
    by by apply strip_join_words.
  split; [|split; [|split; [|split]]].
  - unfold Extractor.normalize_name. cbn [Json.py_truthy].
    rewrite Hstrip, Hsplit. by destruct (join Extractor.space ws).
  - done.
  - by rewrite Hsplit.
  - intros s' [= <-]. rewrite Hsplit. apply split_ws_strip.
  - done.
Qed.

Lemma normalize_name_idempotent_witness :
  Extractor.normalize_name (Json.JStr "  Acme   Holdings  ") = Ok (lit "Acme Holdings") /\
  Extractor.normalize_name (Json.JStr "Acme Holdings") = Ok (lit "Acme Holdings") /\
  strip (lit "Acme Holdings") = lit "Acme Holdings".
Proof.
  assert (H : Extractor.normalize_name (Json.JStr "  Acme   Holdings  ")
              = Ok (lit "Acme Holdings")) by reflexivity.
  split; [exact H|].
  destruct (normalize_name_idempotent _ _ H) as (H1 & H2 & _).
  split; [exact H1|exact H2].
Defined.

Section Persistence.

Import Json Neo4j Extractor Provenance Persist.

(** What [create_entity] leaves alone. *)
Lemma create_entity_frame name ty d sal doc now g :
  let g' := fst (create_entity name ty d sal doc now g) in
  sections g' = sections g /\ mentions g' = mentions g /\
  relationships g' = relationships g /\
  (forall k, k <> (doc, name) -> entities g' !! k = entities g !! k) /\
  is_Some (entities g' !! (doc, name)).
Proof.
  cbn. split; [done|]. split; [done|]. split; [done|]. split.
  - intros k Hk. by rewrite lookup_insert_ne.
  - rewrite lookup_insert_eq. by eexists.
Qed.

Lemma create_section_frame sid title level parent doc ps pe g :
  let g' := fst (fst (create_section sid title level parent doc ps pe g)) in
  entities g' = entities g /\ mentions g' = mentions g /\
  relationships g' = relationships g /\
  is_Some (sections g' !! (doc, sid)) /\
  (forall k, is_Some (sections g !! k) -> sections g' !! k = sections g !! k) /\
  (forall k, k <> (doc, sid) -> sections g' !! k = sections g !! k).
Proof.
  unfold create_section. cbn [fst]. cbv zeta.
  destruct (sections g !! (doc, sid)) as [s|] eqn:Hs;
    cbn [entities sections mentions relationships Documents.set_sections].
  - rewrite ?Hs. split; [done|]. split; [done|]. split; [done|].
    split; [by eexists|]. done.
  - split; [done|]. split; [done|]. split; [done|].
    split; [rewrite lookup_insert_eq; by eexists|]. split.
    + intros k [s Hk]. rewrite lookup_insert_ne; [done|]. intros Heq. subst k.
      discriminate (eq_trans (eq_sym Hk) Hs).
    + intros k Hk. by rewrite lookup_insert_ne.
Qed.

Lemma link_entity_to_section_frame name sid doc g :
  let g' := link_entity_to_section name sid doc g in
  entities g' = entities g /\ sections g' = sections g /\
  relationships g' = relationships g /\
  mentions g ⊆ mentions g' /\
  (forall m, m ∈ mentions g' -> m ∈ mentions g \/ m = ((doc, sid), (doc, name))) /\
  (entities g !! (doc, name) = None -> g' = g) /\
  (is_Some (sections g !! (doc, sid)) -> is_Some (entities g !! (doc, name)) ->
   ((doc, sid), (doc, name)) ∈ mentions g').
Proof.
  unfold link_entity_to_section.
  destruct (sections g !! (doc, sid)) as [s|], (entities g !! (doc, name)) as [e|];
    cbn [entities sections mentions relationships Library.set_mentions].
  - split; [done|]. split; [done|]. split; [done|].
    split; [apply union_subseteq_r|].
    split; [intros m [->%elem_of_singleton|?]%elem_of_union; auto|].
    split; [done|]. intros _ _. by apply elem_of_union_l, elem_of_singleton.
  - repeat (split; [by auto|]). by intros _ [? ?].
  - repeat (split; [by auto|]). by intros [? ?].
  - repeat (split; [by auto|]). by intros [? ?].
Qed.

(** The relationship loop writes relationships only. *)
Lemma persist_relationship_frame r w g :
  let g' := fst (persist_relationship r w g) in
  entities g' = entities g /\ sections g' = sections g /\ mentions g' = mentions g.
Proof.
  unfold persist_relationship, mbind, lift, ret.
  destruct (py_get r "type" (JStr [])) as [ty|]; [|done].
  destruct (py_upper ty) as [rel_type|]; [|done].
  destruct (negb (mem rel_type ALLOWED_REL_TYPES)); [done|].
  destruct (normalized_endpoint r "source") as [src|]; [|done].
  destruct (normalized_endpoint r "target") as [tgt|]; [|done].
  destruct (_ || _); [done|].
  destruct (py_get r "description" (JStr [])) as [d|]; [|done].
  unfold create_relationship.
  destruct (negb _); [done|].
  by destruct (entities g !! (default_doc_id, src)),
              (entities g !! (default_doc_id, tgt)).
Qed.

Lemma persist_relationships_frame rs w g :
  let g' := fst (persist_relationships rs w g) in
  entities g' = entities g /\ sections g' = sections g /\ mentions g' = mentions g.
Proof.
  revert w g. induction rs as [|r rs IH]; intros w g; [done|].
  cbn [persist_relationships]. unfold mbind.
  pose proof (persist_relationship_frame r w g) as Hr.
  destruct (persist_relationship r w g) as [g1 [w1|x]]; [|exact Hr].
  cbn [fst] in Hr. destruct Hr as (He & Hs & Hm).
  destruct (IH w1 g1) as (He' & Hs' & Hm'). cbv zeta.
  rewrite He', Hs', Hm'. done.
Qed.

(** The shape of one iteration of the entity loop that writes. *)
Lemma persist_entity_cases sid doc now e w g g' r :
  persist_entity sid doc now e w g = Some (g', r) ->
  (g' = g /\ (named e = false /\ r = Ok w \/ exists x, r = Raise x)) \/
  (exists name ty d sal,
      named e = true /\
      (do v <- py_get e "name" JNull; normalize_name v)%exc = Ok name /\
      g' = link_entity_to_section name sid doc
             (fst (create_entity name ty d sal default_doc_id now g)) /\
      r = Ok (w + 1)).
Proof.
  unfold persist_entity, named.
  destruct (do v <- py_get e "name" JNull; normalize_name v)%exc as [[|c name]|x].
  - intros [= <- <-]. left. auto.
  - destruct (do v <- py_get e "salience" (JStr "SUPPORTING"); checked_salience v)%exc
      as [sal|x]; [|intros [= <- <-]; left; eauto].
    destruct (py_get e "type" (JStr "OTHER")) as [ty|x];
      [|intros [= <- <-]; left; eauto].
    destruct (py_get e "description" (JStr [])) as [d|x];
      [|intros [= <- <-]; left; eauto].
    destruct (as_text ty) as [ty'|]; [|done].
    destruct (as_text d) as [d'|]; [|done].
    cbn. intros [= <- <-]. right. by exists (c :: name), ty', d', sal.
  - intros [= <- <-]. left. eauto.
Qed.

(** Entities of another document than the client's default are out of
    the entity loop's reach, and so are their MENTIONS edges. *)
Lemma persist_entities_other_document sid doc clock k es w g g' r :
  doc <> default_doc_id ->
  (forall n, entities g !! (doc, n) = None) ->
  persist_entities sid doc clock k es w g = Some (g', r) ->
  mentions g' = mentions g /\ sections g' = sections g /\
  (forall n, entities g' !! (doc, n) = None).
Proof.
  intros Hdoc. revert k w g.
  induction es as [|e es IH]; intros k w g Hnone; cbn [persist_entities].
  - by intros [= <- <-].
  - destruct (persist_entity sid doc (clock k) e w g) as [[g1 r1]|] eqn:Hstep; [|done].
    assert (Hg1 : mentions g1 = mentions g /\ sections g1 = sections g /\
                  (forall n, entities g1 !! (doc, n) = None)).
    { apply persist_entity_cases in Hstep
        as [[-> _]|(name & ty & d & sal & _ & _ & -> & _)]; [done|].
      destruct (create_entity_frame name ty d sal default_doc_id (clock k) g)
        as (Hs & Hm & _ & He & _).
      set (gc := fst (create_entity name ty d sal default_doc_id (clock k) g)) in *.
      assert (Hnone' : forall n, entities gc !! (doc, n) = None).
      { intros n. rewrite He; [done|]. intros [= ? ?]. done. }
      destruct (link_entity_to_section_frame name sid doc gc)
        as (_ & _ & _ & _ & _ & Hsame & _).
      cbv zeta in Hsame. rewrite (Hsame (Hnone' name)). done. }
    destruct Hg1 as (Hm1 & Hs1 & He1).
    destruct r1 as [w1|x].
    + intros H. apply IH in H as (Hm & Hs & He); [|done].
      by rewrite Hm, Hs, Hm1, Hs1.
    + by intros [= <- <-].
Qed.


Lemma persist_entities_spec sid doc clock es k w g g' w' :
  persist_entities sid doc clock k es w g = Some (g', Ok w') ->
  w' = w + Z.of_nat (length (List.filter named es)) /\
  sections g' = sections g /\ relationships g' = relationships g /\
  mentions g ⊆ mentions g' /\
  (forall ek, is_Some (entities g !! ek) -> is_Some (entities g' !! ek)) /\
  (is_Some (sections g !! (doc, sid)) -> doc = default_doc_id ->
   forall e c name, In e es ->
     (do v <- py_get e "name" JNull; normalize_name v)%exc = Ok (c :: name) ->
     ((doc, sid), (doc, c :: name)) ∈ mentions g' /\
     is_Some (entities g' !! (doc, c :: name))).
Proof.
  revert k w g. induction es as [|e es IH]; intros k w g; cbn [persist_entities].
  - intros [= <- <-]. cbn [List.filter length].
    split; [lia|]. do 4 (split; [done|]). by intros _ _ e0 c0 name0 [].
  - destruct (persist_entity sid doc (clock k) e w g) as [[g1 r1]|] eqn:Hstep; [|done].
    destruct r1 as [w1|x]; [|done]. intros Hrest.
    apply IH in Hrest as (Hw & Hs & Hr & Hm & He & Hlink).
    apply persist_entity_cases in Hstep
      as [[-> [[Hn [= ->]]|[x [=]]]]|(name & ty & d & sal & Hn & Hname & -> & [= ->])].
    + cbn [List.filter]. rewrite Hn. do 5 (split; [done|]).
      intros Hsec Hdoc e' c name' [<-|Hin] Hname'.
      * unfold named in Hn. by rewrite Hname' in Hn.
      * by apply (Hlink Hsec Hdoc e').
    + cbn [List.filter]. rewrite Hn. cbn [length].
      destruct (create_entity_frame name ty d sal default_doc_id (clock k) g)
        as (Hcs & Hcm & Hcr & Hce & Hcnew).
      set (gc := fst (create_entity name ty d sal default_doc_id (clock k) g)) in *.
      destruct (link_entity_to_section_frame name sid doc gc)
        as (Hle & Hls & Hlr & Hlm & _ & _ & Hlnew).
      set (gl := link_entity_to_section name sid doc gc) in *.
      cbv zeta in *.
      assert (Hgrow : forall ek, is_Some (entities g !! ek) -> is_Some (entities gl !! ek)).
      { intros ek Hek. rewrite Hle.
        destruct (decide (ek = (default_doc_id, name))) as [->|Hne]; [done|].
        by rewrite Hce. }
      split; [lia|]. split; [by rewrite Hs, Hls, Hcs|].
      split; [by rewrite Hr, Hlr, Hcr|].
      split; [rewrite <- Hcm; by etrans|].
      split; [intros ek Hek; by apply He, Hgrow|].
      intros Hsec Hdoc e' c name' [<-|Hin] Hname'.
      * rewrite Hname in Hname'. injection Hname' as ->. subst doc.
        assert (Hin1 : ((default_doc_id, sid), (default_doc_id, c :: name')) ∈ mentions gl).
        { apply Hlnew; [by rewrite Hcs|done]. }
        split; [by apply (proj1 (elem_of_subseteq _ _) Hm)|]. apply He. by rewrite Hle.
      * apply (Hlink ltac:(by rewrite Hls, Hcs) Hdoc e'); done.
Qed.

Lemma persist_relationship_cases r w g g' w' :
  persist_relationship r w g = (g', Ok w') ->
  entities g' = entities g /\
  (linkable r = false /\ g' = g /\ w' = w \/
   linkable r = true /\ w' = w + 1 /\
   forall rk, is_Some (relationships g' !! rk) ->
     is_Some (relationships g !! rk) \/
     exists src tgt ty,
       rk = (default_doc_id, src, tgt, ty) /\ mem ty allowed = true /\ src <> tgt /\
       is_Some (entities g !! (default_doc_id, src)) /\
       is_Some (entities g !! (default_doc_id, tgt))).
Proof.
  unfold persist_relationship, linkable, mbind, lift, ret, bind.
  destruct (py_get r "type" (JStr [])) as [ty|]; [|done].
  destruct (py_upper ty) as [rel_type|]; [|done].
  destruct (mem rel_type ALLOWED_REL_TYPES) eqn:Hmem; cbn [negb andb].
  2:{ intros Heq; inversion Heq; subst; clear Heq. split; [done|]. left.
      by destruct (normalized_endpoint r "source") as [[|? ?]|?],
                  (normalized_endpoint r "target") as [[|? ?]|?]. }
  destruct (normalized_endpoint r "source") as [src|]; [|done].
  destruct (normalized_endpoint r "target") as [tgt|]; [|done].
  destruct src as [|a src]; [intros Heq; inversion Heq; subst; clear Heq; auto|].
  destruct tgt as [|b tgt]; [intros Heq; inversion Heq; subst; clear Heq; auto|].
  cbn [py_truthy negb orb].
  destruct (str_eqb (a :: src) (b :: tgt)) eqn:Hsame; [intros Heq; inversion Heq; subst; clear Heq; auto|].
  cbn [negb].
  destruct (py_get r "description" (JStr [])) as [d|]; [|done].
  unfold create_relationship.
  destruct (negb (mem (upper rel_type) allowed)) eqn:Hup.
  { intros _. (* the type is upper-cased twice *)
    exfalso. revert Hmem Hup. unfold mem, ALLOWED_REL_TYPES, allowed.
    cbn [existsb]. rewrite !orb_false_r.
    intros Hm. repeat (apply orb_prop in Hm as [Hm|Hm]);
      apply str_eqb_eq in Hm as ->; by vm_compute. }
  assert (Hne : a :: src <> b :: tgt).
  { intros Hx. rewrite Hx in Hsame. unfold str_eqb in Hsame.
    by rewrite bool_decide_eq_true_2 in Hsame. }
  match goal with
  | |- context [match ?x with Some _ => _ | None => _ end] => destruct x eqn:Hs
  end;
    [match goal with
     | |- context [match ?x with Some _ => _ | None => _ end] => destruct x eqn:Ht
     end|];
    intros Heq; inversion Heq; subst; clear Heq; (split; [reflexivity|]); right;
    (split; [reflexivity|]); (split; [reflexivity|]); intros rk Hrk; auto.
  cbn [relationships set_relationships] in Hrk.
  destruct (decide (rk = (default_doc_id, a :: src, b :: tgt, upper rel_type)))
    as [->|Hrkne].
  - right. exists (a :: src), (b :: tgt), (upper rel_type).
    split; [done|]. split; [by apply negb_false_iff|]. split; [done|].
    split; eexists; [exact Hs|exact Ht].
  - left. by rewrite lookup_insert_ne in Hrk.
Qed.

Lemma persist_relationships_spec rs w g g' w' :
  persist_relationships rs w g = (g', Ok w') ->
  entities g' = entities g /\
  w' = w + Z.of_nat (length (List.filter linkable rs)) /\
  forall rk, is_Some (relationships g' !! rk) ->
    is_Some (relationships g !! rk) \/
    exists src tgt ty,
      rk = (default_doc_id, src, tgt, ty) /\ mem ty allowed = true /\ src <> tgt /\
      is_Some (entities g !! (default_doc_id, src)) /\
      is_Some (entities g !! (default_doc_id, tgt)).
Proof.
  revert w g. induction rs as [|r rs IH]; intros w g; cbn [persist_relationships].
  - unfold ret. intros [= <- <-]. cbn. split; [done|]. split; [lia|]. auto.
  - unfold mbind.
    destruct (persist_relationship r w g) as [g1 [w1|x]] eqn:Hstep; [|done].
    intros Hrest. apply IH in Hrest as (He & Hw & Hrel).
    apply persist_relationship_cases in Hstep as (He1 & Hcase).
    split; [by rewrite He, He1|].
    destruct Hcase as [(Hl & -> & ->)|(Hl & -> & Hrel1)]; cbn [List.filter]; rewrite Hl.
    + split; [done|]. exact Hrel.
    + split; [cbn [length]; lia|].
      intros rk Hrk. destruct (Hrel rk Hrk) as [Hold|(src & tgt & ty & -> & ? & ? & Hs & Ht)].
      * by apply Hrel1.
      * right. exists src, tgt, ty. rewrite <- He1. done.
Qed.


Lemma normalize_name_text s : exists n, normalize_name (JStr s) = Ok n.
Proof. unfold normalize_name. destruct (py_truthy (JStr s)); by eexists. Qed.

(** An item with text fields makes neither loop raise. *)
Lemma persist_entity_ok sid doc now e w g :
  entity_item_ok e = true ->
  exists g' w', persist_entity sid doc now e w g = Some (g', Ok w').
Proof.
  destruct e as [| | | | | |fields]; try done. unfold entity_item_ok, is_text_or_missing.
  intros H. apply andb_prop in H as [H Hsal]. apply andb_prop in H as [H Hd].
  apply andb_prop in H as [Hname Hty].
  unfold persist_entity. cbn [py_get bind].
  destruct (assoc "name" fields) as [[| | | |s| |]|]; try done.
  destruct (normalize_name_text s) as [n ->].
  destruct n as [|c n]; [by eexists _, _|].
  destruct (assoc "salience" fields) as [[| | | |sal| |]|]; try done;
    cbn [checked_salience];
    (destruct (assoc "type" fields) as [[| | | |ty| |]|]; try done);
    (destruct (assoc "description" fields) as [[| | | |d| |]|]; try done);
    cbn [as_text]; by eexists _, _.
Qed.

Lemma persist_entities_ok sid doc clock es k w g :
  Forall (fun e => entity_item_ok e = true) es ->
  exists g' w', persist_entities sid doc clock k es w g = Some (g', Ok w').
Proof.
  intros Hes. revert k w g.
  induction Hes as [|e es He _ IH]; intros k w g; cbn [persist_entities];
    [by eexists _, _|].
  destruct (persist_entity_ok sid doc (clock k) e w g He) as (g1 & w1 & ->).
  apply IH.
Qed.

(** The entity loop is covered when every item hands the store a text
    (or nothing) for its type and its description. *)
Lemma persist_entity_some sid doc now e w g :
  text_fields_ok e = true ->
  exists g' r, persist_entity sid doc now e w g = Some (g', r).
Proof.
  intros He. unfold persist_entity.
  destruct (bind (py_get e "name" JNull) normalize_name) as [[|c n]|x];
    [by eexists _, _| |by eexists _, _].
  destruct (bind (py_get e "salience" (JStr "SUPPORTING")) checked_salience)
    as [sal|x]; [|by eexists _, _].
  destruct e as [| | | | | |fields]; try (cbn; by eexists _, _).
  unfold text_fields_ok, is_text_or_missing in He.
  apply andb_prop in He as [Hty Hd]. cbn [py_get].
  destruct (assoc "type" fields) as [[| | | |ty| |]|]; try done;
    (destruct (assoc "description" fields) as [[| | | |d| |]|]; try done);
    cbn [as_text];
    match goal with
    | |- context [create_entity ?a ?b ?c ?d ?e ?f ?g] =>
        destruct (create_entity a b c d e f g) as [g1 created]
    end; by eexists _, _.
Qed.

Lemma persist_entities_some sid doc clock es k w g :
  Forall (fun e => text_fields_ok e = true) es ->
  exists g' r, persist_entities sid doc clock k es w g = Some (g', r).
Proof.
  intros Hes. revert k w g.
  induction Hes as [|e es He _ IH]; intros k w g; cbn [persist_entities];
    [by eexists _, _|].
  destruct (persist_entity_some sid doc (clock k) e w g He) as (g1 & [w1|x] & ->);
    [apply IH|by eexists _, _].
Qed.

Lemma persist_extraction_some ex sid doc clock g :
  Forall (fun e => text_fields_ok e = true) (ex_entities ex) ->
  exists g' r, persist_extraction ex sid doc clock g = Some (g', r).
Proof.
  intros Hes. unfold persist_extraction.
  destruct (create_section _ _ _ _ _ _ _ g) as [[g0 po] rec].
  destruct (persist_entities_some sid doc clock _ 0%nat 0 g0 Hes) as (g1 & [ne|x] & ->);
    [|by eexists _, _].
  destruct (persist_relationships _ _ g1) as [g2 [nr|x]]; by eexists _, _.
Qed.

Lemma normalized_endpoint_ok fields key :
  match assoc key fields with
  | Some (JStr _) | Some JNull | None => true
  | Some _ => false
  end = true ->
  exists n, normalized_endpoint (JObj fields) key = Ok n.
Proof.
  unfold normalized_endpoint. cbn [py_get bind].
  destruct (assoc key fields) as [[| | | |s| |]|]; try done; intros _;
    try (by exists []). apply normalize_name_text.
Qed.

Lemma persist_relationship_ok r w g :
  relationship_item_ok r = true ->
  exists g' w', persist_relationship r w g = (g', Ok w').
Proof.
  destruct r as [| | | | | |fields]; try done.
  unfold relationship_item_ok, is_text_or_missing.
  intros H. apply andb_prop in H as [H Htgt]. apply andb_prop in H as [Hty Hsrc].
  destruct (normalized_endpoint_ok fields "source" Hsrc) as [src Hs].
  destruct (normalized_endpoint_ok fields "target" Htgt) as [tgt Ht].
  unfold persist_relationship, mbind, lift, ret. cbn [py_get].
  assert (Hup : exists t,
             py_upper (match assoc "type" fields with Some x => x | None => JStr [] end)
             = Ok t).
  { destruct (assoc "type" fields) as [[| | | |ty| |]|]; try done; by eexists. }
  destruct Hup as [t ->].
  destruct (negb (mem t ALLOWED_REL_TYPES)); [by eexists _, _|].
  rewrite Hs, Ht. destruct (_ || _); [by eexists _, _|].
  destruct (create_relationship _ _ _ _ _ g) as [g1 created]. by eexists _, _.
Qed.

Lemma persist_relationships_ok rs w g :
  Forall (fun r => relationship_item_ok r = true) rs ->
  exists g' w', persist_relationships rs w g = (g', Ok w').
Proof.
  intros Hrs. revert w g.
  induction Hrs as [|r rs Hr _ IH]; intros w g; cbn [persist_relationships];
    [by eexists _, _|].
  unfold mbind. destruct (persist_relationship_ok r w g Hr) as (g1 & w1 & ->).
  apply IH.
Qed.

Lemma no_mention_no_context g doc limit :
  (forall sid ek, ((doc, sid), ek) ∉ mentions g) ->
  GlobalQuery.fetch_graph_context g doc limit = [].
Proof.
  intros Hno. apply fetch_graph_context_no_salient_mention.
  intros sid ek e Hin. by destruct (Hno sid ek).
Qed.

End Persistence.

(** A run for a document other than "doc-1" adds no MENTIONS edge and
    gives the document no entity. *)
Lemma persist_extraction_frame_other
        (ex : Extractor.extraction) (section_id doc_id : str) (clock : nat -> Z)
        (g g' : Neo4j.graph) (r : result (Z * Z)) :
  doc_id <> Neo4j.default_doc_id ->
  (forall n, Neo4j.entities g !! (doc_id, n) = None) ->
  Persist.persist_extraction ex section_id doc_id clock g = Some (g', r) ->
  Neo4j.mentions g' = Neo4j.mentions g /\
  (forall n, Neo4j.entities g' !! (doc_id, n) = None).
Proof.
  intros Hdoc Hnone. unfold Persist.persist_extraction.
  destruct (create_section_frame section_id (Some section_id) 1 None doc_id None None g)
    as (He0 & Hm0 & _).
  destruct (Provenance.create_section _ _ _ _ _ _ _ g) as [[g0 po] rec].
  cbn [fst] in He0, Hm0.
  destruct (Persist.persist_entities _ _ _ _ _ _ g0) as [[g1 r1]|] eqn:Hents; [|done].
  apply persist_entities_other_document in Hents as (Hm1 & _ & He1);
    [|done|intros n; by rewrite He0].
  destruct r1 as [ne|x]; [|intros [= <- <-]; by rewrite Hm1, Hm0].
  destruct (persist_relationships_frame (Extractor.ex_relationships ex) 0 g1)
    as (He2 & _ & Hm2).
  destruct (Extractor.persist_relationships _ _ g1) as [g2 [nr|x]];
    cbn [fst] in He2, Hm2; intros [= <- <-];
    (split; [by rewrite Hm2, Hm1, Hm0|intros n; by rewrite He2]).
Qed.

(** X10: [persist_extraction] writes its entities under the client's
    default document "doc-1" and links them to the section under the
    [doc_id] it was given.  So for any other [doc_id], on a store that
    holds no entity of that document, and for an extraction whose entity
    items carry a string (or nothing) as type and as description, the
    call ends (returning or raising), adds no MENTIONS edge at all, and
    the document still has no entity afterwards. *)
Theorem persist_extraction_other_document
        (ex : Extractor.extraction) (section_id doc_id : str) (clock : nat -> Z)
        (g : Neo4j.graph) :
  doc_id <> Neo4j.default_doc_id ->
  (forall n, Neo4j.entities g !! (doc_id, n) = None) ->
  Forall (fun e => Persist.text_fields_ok e = true) (Extractor.ex_entities ex) ->
  exists g' r,
    Persist.persist_extraction ex section_id doc_id clock g = Some (g', r) /\
    Neo4j.mentions g' = Neo4j.mentions g /\
    (forall n, Neo4j.entities g' !! (doc_id, n) = None).
Proof.
  intros Hdoc Hnone Hes.
  destruct (persist_extraction_some ex section_id doc_id clock g Hes) as (g' & r & Hrun).
  exists g', r. split; [done|].
  by apply (persist_extraction_frame_other ex section_id doc_id clock g g' r).
Qed.

Lemma persist_extraction_other_document_witness :
  let ex := {| Extractor.ex_entities :=
                 [Json.JObj [("name" : str, Json.JStr "Acme");
                             ("type" : str, Json.JStr "ORGANIZATION");
                             ("salience" : str, Json.JStr "CORE")];
                  Json.JObj [("name" : str, Json.JStr "Policy");
                             ("salience" : str, Json.JList [])]];
               Extractor.ex_relationships := [] |} in
  lit "report" <> Neo4j.default_doc_id /\
  Forall (fun e => Persist.text_fields_ok e = true) (Extractor.ex_entities ex) /\
  exists g' r,
    Persist.persist_extraction ex "s1" "report" (fun _ => 0) Neo4j.empty_graph
    = Some (g', r) /\
    r = Raise TypeError /\
    Neo4j.mentions g' = Neo4j.mentions Neo4j.empty_graph /\
    (forall n, Neo4j.entities g' !! (lit "report", n) = None).
Proof.
  intros ex. split; [done|].
  assert (Hes : Forall (fun e => Persist.text_fields_ok e = true)
                       (Extractor.ex_entities ex)) by (by repeat constructor).
  split; [exact Hes|].
  destruct (persist_extraction_other_document ex "s1" "report" (fun _ => 0)
              Neo4j.empty_graph) as (g' & r & Hrun & Hm & He); [done|done|exact Hes|].
  assert (Hr : snd <$> Persist.persist_extraction ex "s1" "report" (fun _ => 0)
                          Neo4j.empty_graph = Some (Raise TypeError))
    by (vm_compute; reflexivity).
  rewrite Hrun in Hr. cbn in Hr. injection Hr as ->.
  exists g', (Raise TypeError). split; [exact Hrun|]. split; [done|]. split; [exact Hm|exact He].
Defined.

(** What the two counters of a run that returns count. *)
Lemma persist_extraction_counted
        (ex : Extractor.extraction) (section_id doc_id : str) (clock : nat -> Z)
        (g g' : Neo4j.graph) (entities_written relationships_written : Z) :
  Persist.persist_extraction ex section_id doc_id clock g
  = Some (g', Ok (entities_written, relationships_written)) ->
  entities_written
  = Z.of_nat (length (List.filter Persist.named (Extractor.ex_entities ex))) /\
  relationships_written
  = Z.of_nat (length (List.filter Persist.linkable (Extractor.ex_relationships ex))) /\
  forall rk, is_Some (Neo4j.relationships g' !! rk) ->
    is_Some (Neo4j.relationships g !! rk) \/
    exists src tgt ty,
      rk = (Neo4j.default_doc_id, src, tgt, ty) /\
      mem ty Neo4j.allowed = true /\ src <> tgt /\
      is_Some (Neo4j.entities g' !! (Neo4j.default_doc_id, src)) /\
      is_Some (Neo4j.entities g' !! (Neo4j.default_doc_id, tgt)).
Proof.
  unfold Persist.persist_extraction.
  destruct (create_section_frame section_id (Some section_id) 1 None doc_id None None g)
    as (_ & _ & Hr0 & _).
  destruct (Provenance.create_section _ _ _ _ _ _ _ g) as [[g0 po] rec].
  cbn [fst] in Hr0.
  destruct (Persist.persist_entities _ _ _ _ _ _ g0) as [[g1 [ne|x]]|] eqn:Hents;
    [|done..].
  apply persist_entities_spec in Hents as (Hne & _ & Hr1 & _).
  destruct (Extractor.persist_relationships _ _ g1) as [g2 [nr|x]] eqn:Hrels; [|done].
  apply persist_relationships_spec in Hrels as (He2 & Hnr & Hrel).
  intros [= <- <- <-]. split; [lia|]. split; [lia|].
  intros rk Hrk. destruct (Hrel rk Hrk) as [Hold|(src & tgt & ty & -> & ? & ? & ? & ?)].
  - left. by rewrite <- Hr0, <- Hr1.
  - right. exists src, tgt, ty. by rewrite He2.
Qed.

(** X11: for an extraction whose entity items carry a string (or
    nothing) as type and as description, [persist_extraction] ends, and
    when it returns, its two counters count the items it handed to the
    store, not what the store wrote: [entities] is the number of entity
    items whose name normalizes to a non-empty string (an entity that
    existed already counts again), and [relationships] is the number of
    relationship items with an allowed type and two distinct non-empty
    endpoints, whether or not the endpoints exist.  A relationship that is
    in the store afterwards and was not before joins two distinct entities
    of "doc-1" that exist, under an allowed type. *)
Theorem persist_extraction_counts
        (ex : Extractor.extraction) (section_id doc_id : str) (clock : nat -> Z)
        (g : Neo4j.graph) :
  Forall (fun e => Persist.text_fields_ok e = true) (Extractor.ex_entities ex) ->
  exists g' r,
    Persist.persist_extraction ex section_id doc_id clock g = Some (g', r) /\
    forall entities_written relationships_written,
      r = Ok (entities_written, relationships_written) ->
      entities_written
      = Z.of_nat (length (List.filter Persist.named (Extractor.ex_entities ex))) /\
      relationships_written
      = Z.of_nat (length (List.filter Persist.linkable
                                      (Extractor.ex_relationships ex))) /\
      forall rk, is_Some (Neo4j.relationships g' !! rk) ->
        is_Some (Neo4j.relationships g !! rk) \/
        exists src tgt ty,
          rk = (Neo4j.default_doc_id, src, tgt, ty) /\
          mem ty Neo4j.allowed = true /\ src <> tgt /\
          is_Some (Neo4j.entities g' !! (Neo4j.default_doc_id, src)) /\
          is_Some (Neo4j.entities g' !! (Neo4j.default_doc_id, tgt)).
Proof.
  intros Hes.
  destruct (persist_extraction_some ex section_id doc_id clock g Hes) as (g' & r & Hrun).
  exists g', r. split; [done|]. intros ne nr ->.
  by apply (persist_extraction_counted ex section_id doc_id clock g g' ne nr).
Qed.

Lemma persist_extraction_counts_witness :
  let ex := {| Extractor.ex_entities :=
                 [Json.JObj [("name" : str, Json.JStr "Acme");
                             ("description" : str, Json.JStr "A company")];
                  Json.JObj [("name" : str, Json.JStr "  ")];
                  Json.JObj [("name" : str, Json.JStr "Acme")]];
               Extractor.ex_relationships :=
                 [Upserts.rel_item "DEFINES" "Acme" "Nobody";
                  Upserts.rel_item "OWNS" "Acme" "Nobody"] |} in
  Forall (fun e => Persist.text_fields_ok e = true) (Extractor.ex_entities ex) /\
  exists g',
    Persist.persist_extraction ex "s1" "doc-1" (fun _ => 0) Neo4j.empty_graph
    = Some (g', Ok (2, 1)) /\
    2 = Z.of_nat (length (List.filter Persist.named (Extractor.ex_entities ex))) /\
    1 = Z.of_nat (length (List.filter Persist.linkable
                                      (Extractor.ex_relationships ex))).
Proof.
  intros ex.
  assert (Hes : Forall (fun e => Persist.text_fields_ok e = true)
                       (Extractor.ex_entities ex)) by (by repeat constructor).
  split; [exact Hes|].
  destruct (persist_extraction_counts ex "s1" "doc-1" (fun _ => 0) Neo4j.empty_graph Hes)
    as (g' & r & Hrun & Hcounts).
  assert (Hr : snd <$> Persist.persist_extraction ex "s1" "doc-1" (fun _ => 0)
                          Neo4j.empty_graph = Some (Ok (2, 1)))
    by (vm_compute; reflexivity).
  rewrite Hrun in Hr. cbn in Hr. injection Hr as ->.
  exists g'. split; [exact Hrun|].
  destruct (Hcounts 2 1 eq_refl) as (Hne & Hnr & _). split; [exact Hne|exact Hnr].
Defined.

(** What a run under "doc-1" that returns leaves in the store. *)
Lemma persist_extraction_linked
        (ex : Extractor.extraction) (section_id : str) (clock : nat -> Z)
        (g g' : Neo4j.graph) (counts : Z * Z) :
  Persist.persist_extraction ex section_id Neo4j.default_doc_id clock g
  = Some (g', Ok counts) ->
  is_Some (Neo4j.sections g' !! (Neo4j.default_doc_id, section_id)) /\
  forall e c name,
    In e (Extractor.ex_entities ex) ->
    bind (Json.py_get e "name" Json.JNull) Extractor.normalize_name = Ok (c :: name) ->
    is_Some (Neo4j.entities g' !! (Neo4j.default_doc_id, c :: name)) /\
    ((Neo4j.default_doc_id, section_id), (Neo4j.default_doc_id, c :: name))
      ∈ Neo4j.mentions g'.
Proof.
  unfold Persist.persist_extraction.
  destruct (create_section_frame section_id (Some section_id) 1 None
              Neo4j.default_doc_id None None g) as (_ & _ & _ & Hsec & _).
  destruct (Provenance.create_section _ _ _ _ _ _ _ g) as [[g0 po] rec].
  cbn [fst] in Hsec.
  destruct (Persist.persist_entities _ _ _ _ _ _ g0) as [[g1 [ne|x]]|] eqn:Hents;
    [|done..].
  apply persist_entities_spec in Hents as (_ & Hs1 & _ & _ & _ & Hlink).
  destruct (persist_relationships_frame (Extractor.ex_relationships ex) 0 g1)
    as (He2 & Hs2 & Hm2).
  destruct (Extractor.persist_relationships _ _ g1) as [g2 [nr|x]]; [|done].
  cbn [fst] in He2, Hs2, Hm2. intros [= <- _].
  split; [by rewrite Hs2, Hs1|].
  intros e c name Hin Hname. rewrite He2, Hm2.
  destruct (Hlink Hsec eq_refl e c name Hin Hname). done.
Qed.

(** X12: under the default document "doc-1", for an extraction whose
    entity items carry a string (or nothing) as type and as description,
    [persist_extraction] ends, and when it returns it leaves the section
    in the store and every entity item whose name normalizes to a
    non-empty string both stored as an entity of "doc-1" and mentioned by
    the section. *)
Theorem persist_extraction_links
        (ex : Extractor.extraction) (section_id : str) (clock : nat -> Z)
        (g : Neo4j.graph) :
  Forall (fun e => Persist.text_fields_ok e = true) (Extractor.ex_entities ex) ->
  exists g' r,
    Persist.persist_extraction ex section_id Neo4j.default_doc_id clock g
    = Some (g', r) /\
    forall counts, r = Ok counts ->
      is_Some (Neo4j.sections g' !! (Neo4j.default_doc_id, section_id)) /\
      forall e c name,
        In e (Extractor.ex_entities ex) ->
        bind (Json.py_get e "name" Json.JNull) Extractor.normalize_name
        = Ok (c :: name) ->
        is_Some (Neo4j.entities g' !! (Neo4j.default_doc_id, c :: name)) /\
        ((Neo4j.default_doc_id, section_id), (Neo4j.default_doc_id, c :: name))
          ∈ Neo4j.mentions g'.
Proof.
  intros Hes.
  destruct (persist_extraction_some ex section_id Neo4j.default_doc_id clock g Hes)
    as (g' & r & Hrun).
  exists g', r. split; [done|]. intros counts ->.
  by apply (persist_extraction_linked ex section_id clock g g' counts).
Qed.

Lemma persist_extraction_links_witness :
  let ex := {| Extractor.ex_entities :=
                 [Json.JObj [("name" : str, Json.JStr " Acme  Holdings ");
                             ("type" : str, Json.JStr "ORGANIZATION")]];
               Extractor.ex_relationships := [] |} in
  Forall (fun e => Persist.text_fields_ok e = true) (Extractor.ex_entities ex) /\
  exists g',
    Persist.persist_extraction ex "s1" Neo4j.default_doc_id (fun _ => 0)
      Neo4j.empty_graph = Some (g', Ok (1, 0)) /\
    ((Neo4j.default_doc_id, lit "s1"), (Neo4j.default_doc_id, lit "Acme Holdings"))
      ∈ Neo4j.mentions g'.
Proof.
  intros ex.
  assert (Hes : Forall (fun e => Persist.text_fields_ok e = true)
                       (Extractor.ex_entities ex)) by (by repeat constructor).
  split; [exact Hes|].
  destruct (persist_extraction_links ex "s1" (fun _ => 0) Neo4j.empty_graph Hes)
    as (g' & r & Hrun & Hlinks).
  assert (Hr : snd <$> Persist.persist_extraction ex "s1" Neo4j.default_doc_id
                          (fun _ => 0) Neo4j.empty_graph = Some (Ok (1, 0)))
    by (vm_compute; reflexivity).
  rewrite Hrun in Hr. cbn in Hr. injection Hr as ->.
  exists g'. split; [exact Hrun|].
  destruct (Hlinks (1, 0) eq_refl) as [_ Hall].
  apply (Hall (Json.JObj [("name" : str, Json.JStr " Acme  Holdings ");
                          ("type" : str, Json.JStr "ORGANIZATION")])
              (ascii_of_N 65) (lit "cme Holdings")); [by left|reflexivity].
Defined.

(** The sections a run leaves are the old ones, plus its own. *)
Lemma persist_extraction_sections
        (ex : Extractor.extraction) (section_id doc_id : str) (clock : nat -> Z)
        (g g' : Neo4j.graph) (r : result (Z * Z)) :
  Persist.persist_extraction ex section_id doc_id clock g = Some (g', r) ->
  Neo4j.sections g'
  = match Neo4j.sections g !! (doc_id, section_id) with
    | Some _ => Neo4j.sections g
    | None =>
        <[(doc_id, section_id) :=
            {| Neo4j.s_title := Some section_id; Neo4j.s_level := 1;
               Neo4j.s_page_start := None; Neo4j.s_page_end := None |}]>
          (Neo4j.sections g)
    end.
Proof.
  unfold Persist.persist_extraction.
  assert (Hs0 : Neo4j.sections
                  (fst (fst (Provenance.create_section section_id (Some section_id) 1
                                                       None doc_id None None g)))
                = match Neo4j.sections g !! (doc_id, section_id) with
                  | Some _ => Neo4j.sections g
                  | None =>
                      <[(doc_id, section_id) :=
                          {| Neo4j.s_title := Some section_id; Neo4j.s_level := 1;
                             Neo4j.s_page_start := None; Neo4j.s_page_end := None |}]>
                        (Neo4j.sections g)
                  end).
  { unfold Provenance.create_section. cbn [fst].
    by destruct (Neo4j.sections g !! (doc_id, section_id)). }
  destruct (Provenance.create_section _ _ _ _ _ _ _ g) as [[g0 po] rec].
  cbn [fst] in Hs0. rewrite <- Hs0. clear Hs0.
  destruct (Persist.persist_entities _ _ _ _ _ _ g0) as [[g1 r1]|] eqn:Hents; [|done].
  assert (Hs1 : Neo4j.sections g1 = Neo4j.sections g0).
  { clear -Hents. revert Hents. generalize 0%nat as k, 0 as w. revert g0.
    induction (Extractor.ex_entities ex) as [|e es IH]; intros g0 k w;
      cbn [Persist.persist_entities]; [by intros [= <- _]|].
    destruct (Persist.persist_entity _ _ _ e w g0) as [[ga ra]|] eqn:Hstep; [|done].
    assert (Hsa : Neo4j.sections ga = Neo4j.sections g0).
    { apply persist_entity_cases in Hstep
        as [[-> _]|(name & ty & d & sal & _ & _ & -> & _)]; [done|].
      destruct (create_entity_frame name ty d sal Neo4j.default_doc_id (clock k) g0)
        as (Hcs & _).
      destruct (link_entity_to_section_frame name section_id doc_id
                  (fst (Neo4j.create_entity name ty d sal Neo4j.default_doc_id
                                            (clock k) g0))) as (_ & Hls & _).
      cbv zeta in *. by rewrite Hls, Hcs. }
    destruct ra as [wa|x]; [|by intros [= <- _]].
    intros H. apply IH in H. by rewrite H. }
  destruct r1 as [ne|x]; [|by intros [= <- _]].
  destruct (persist_relationships_frame (Extractor.ex_relationships ex) 0 g1)
    as (_ & Hs2 & _).
  destruct (Extractor.persist_relationships _ _ g1) as [g2 [nr|x]];
    cbn [fst] in Hs2; intros [= <- _]; by rewrite Hs2.
Qed.

(** X13: for an extraction whose entity items carry a string (or
    nothing) as type and as description, [persist_extraction] ends, and
    it creates the section node when it is missing, with the section id
    as its title and level 1, and never changes a section node that
    exists: whether the call returns or raises, the sections of the store
    are the old ones, plus that node. *)
Theorem persist_extraction_section
        (ex : Extractor.extraction) (section_id doc_id : str) (clock : nat -> Z)
        (g : Neo4j.graph) :
  Forall (fun e => Persist.text_fields_ok e = true) (Extractor.ex_entities ex) ->
  exists g' r,
    Persist.persist_extraction ex section_id doc_id clock g = Some (g', r) /\
    Neo4j.sections g'
    = match Neo4j.sections g !! (doc_id, section_id) with
      | Some _ => Neo4j.sections g
      | None =>
          <[(doc_id, section_id) :=
              {| Neo4j.s_title := Some section_id; Neo4j.s_level := 1;
                 Neo4j.s_page_start := None; Neo4j.s_page_end := None |}]>
            (Neo4j.sections g)
      end.
Proof.
  intros Hes.
  destruct (persist_extraction_some ex section_id doc_id clock g Hes) as (g' & r & Hrun).
  exists g', r. split; [done|].
  by apply (persist_extraction_sections ex section_id doc_id clock g g' r).
Qed.

Lemma persist_extraction_section_witness :
  let ex := {| Extractor.ex_entities :=
                 [Json.JObj [("name" : str, Json.JStr "Acme");
                             ("type" : str, Json.JStr "ORGANIZATION");
                             ("description" : str, Json.JStr "A company")];
                  Json.JInt 7];
               Extractor.ex_relationships :=
                 [Upserts.rel_item "DEFINES" "Acme" "Policy"] |} in
  Forall (fun e => Persist.text_fields_ok e = true) (Extractor.ex_entities ex) /\
  exists g' r,
    Persist.persist_extraction ex "s1" "report" (fun _ => 0) Neo4j.empty_graph
    = Some (g', r) /\
    r = Raise AttributeError /\
    Neo4j.sections g'
    = <[(lit "report", lit "s1") :=
          {| Neo4j.s_title := Some (lit "s1"); Neo4j.s_level := 1;
             Neo4j.s_page_start := None; Neo4j.s_page_end := None |}]> ∅.
Proof.
  intros ex.
  assert (Hes : Forall (fun e => Persist.text_fields_ok e = true)
                       (Extractor.ex_entities ex)) by (by repeat constructor).
  split; [exact Hes|].
  destruct (persist_extraction_section ex "s1" "report" (fun _ => 0)
              Neo4j.empty_graph Hes) as (g' & r & Hrun & Hsec).
  assert (Hr : snd <$> Persist.persist_extraction ex "s1" "report" (fun _ => 0)
                          Neo4j.empty_graph = Some (Raise AttributeError))
    by (vm_compute; reflexivity).
  rewrite Hrun in Hr. cbn in Hr. injection Hr as ->.
  exists g', (Raise AttributeError). split; [exact Hrun|]. split; [done|]. exact Hsec.
Defined.

(** X14: an extraction whose entity items are objects with a string name
    and string (or missing) type, description and salience, and whose
    relationship items are objects with string (or missing) type, source
    and target, is persisted without an exception. *)
Theorem persist_extraction_well_formed
        (ex : Extractor.extraction) (section_id doc_id : str) (clock : nat -> Z)
        (g : Neo4j.graph) :
  Forall (fun e => Persist.entity_item_ok e = true) (Extractor.ex_entities ex) ->
  Forall (fun r => Persist.relationship_item_ok r = true) (Extractor.ex_relationships ex) ->
  exists g' counts,
    Persist.persist_extraction ex section_id doc_id clock g = Some (g', Ok counts).
Proof.
  intros Hes Hrs. unfold Persist.persist_extraction.
  destruct (Provenance.create_section _ _ _ _ _ _ _ g) as [[g0 po] rec].
  destruct (persist_entities_ok section_id doc_id clock _ 0%nat 0 g0 Hes)
    as (g1 & ne & ->).
  destruct (persist_relationships_ok _ 0 g1 Hrs) as (g2 & nr & ->).
  by eexists _, _.
Qed.

Lemma persist_extraction_well_formed_witness :
  let ex := {| Extractor.ex_entities :=
                 [Json.JObj [("name" : str, Json.JStr "Acme");
                             ("type" : str, Json.JStr "ORGANIZATION")]];
               Extractor.ex_relationships :=
                 [Upserts.rel_item "DEFINES" "Acme" "Policy"] |} in
  exists g' counts,
    Persist.persist_extraction ex "s1" "doc-1" (fun _ => 0) Neo4j.empty_graph
    = Some (g', Ok counts).
Proof.
  intros ex. apply persist_extraction_well_formed; by repeat constructor.
Defined.

(** X15: for an empty chunk ([is_empty] set, or a text of whitespace
    only) [process_section_text] makes no request to a provider, returns
    the counters (0, 0), and changes the store by the section node only,
    which it creates when it is missing. *)
Theorem process_section_text_empty
        (openai_client groq_client : option Extractor.provider)
        (EXTRACTION_PROMPT : str) (json_loads : str -> result Json.json)
        (section_text section_id doc_id : str) (is_empty : bool)
        (clock : nat -> Z) (g : Neo4j.graph) :
  is_empty = true \/ strip section_text = [] ->
  Persist.process_section_text openai_client groq_client EXTRACTION_PROMPT json_loads
    section_text section_id doc_id is_empty clock g
  = ([], Some (fst (fst (Provenance.create_section section_id (Some section_id) 1 None
                                                   doc_id None None g)),
               Ok (0, 0))).
Proof.
  intros Hempty. unfold Persist.process_section_text.
  rewrite (extract_empty_chunk openai_client groq_client EXTRACTION_PROMPT json_loads
             section_text section_id is_empty Hempty).
  unfold Persist.persist_extraction.
  by destruct (Provenance.create_section _ _ _ _ _ _ _ g) as [[g0 po] rec].
Qed.

Lemma process_section_text_empty_witness :
  (true = true \/ strip (lit "anything") = []) /\
  Persist.process_section_text (Some Fixtures.failing) None "PROMPT"
    (fun _ => Raise JSONDecodeError) "anything" "s1" "report" true (fun _ => 0)
    Neo4j.empty_graph
  = ([], Some (fst (fst (Provenance.create_section "s1" (Some (lit "s1")) 1 None
                                                   "report" None None
                                                   Neo4j.empty_graph)),
               Ok (0, 0))).
Proof.
  split; [by left|]. apply process_section_text_empty. by left.
Defined.

(** The store a run for another document leaves gives the query no
    row for that document. *)
Lemma persist_extraction_no_context
        (openai_client groq_client : option Extractor.provider)
        (summarize_communities :
           option (Neo4j.graph -> str ->
                   Neo4j.graph * list Extractor.call * result (list str)))
        (ARROW PROMPT_HEAD PROMPT_MIDDLE PROMPT_TAIL OVERVIEW_HEADER : str)
        (ex : Extractor.extraction) (section_id doc_id : str) (clock : nat -> Z)
        (g g' : Neo4j.graph) (r : result (Z * Z)) (question : str) (limit : Z) :
  doc_id <> Neo4j.default_doc_id ->
  (forall n, Neo4j.entities g !! (doc_id, n) = None) ->
  (forall sid ek, ((doc_id, sid), ek) ∉ Neo4j.mentions g) ->
  Persist.persist_extraction ex section_id doc_id clock g = Some (g', r) ->
  GlobalQuery.fetch_graph_context g' doc_id limit = [] /\
  GlobalQuery.global_query_v5 openai_client groq_client summarize_communities
    ARROW PROMPT_HEAD PROMPT_MIDDLE PROMPT_TAIL OVERVIEW_HEADER question g' doc_id
  = (g', [], Ok {| GlobalQuery.q_query := question;
                   GlobalQuery.q_answer := GlobalQuery.NO_INFORMATION;
                   GlobalQuery.q_references := [] |}).
Proof.
  intros Hdoc Hnone Hno Hrun.
  assert (Hm : Neo4j.mentions g' = Neo4j.mentions g).
  { unfold Persist.persist_extraction in Hrun.
    destruct (create_section_frame section_id (Some section_id) 1 None doc_id None None g)
      as (He0 & Hm0 & _).
    destruct (Provenance.create_section _ _ _ _ _ _ _ g) as [[g0 po] rec].
    cbn [fst] in He0, Hm0.
    destruct (Persist.persist_entities _ _ _ _ _ _ g0) as [[g1 r1]|] eqn:Hents; [|done].
    apply persist_entities_other_document in Hents as (Hm1 & _ & He1);
      [|done|intros n; by rewrite He0].
    destruct r1 as [ne|x]; [|injection Hrun as <- _; by rewrite Hm1, Hm0].
    destruct (persist_relationships_frame (Extractor.ex_relationships ex) 0 g1)
      as (_ & _ & Hm2).
    destruct (Extractor.persist_relationships _ _ g1) as [g2 [nr|x]];
      cbn [fst] in Hm2; injection Hrun as <- _; by rewrite Hm2, Hm1, Hm0. }
  assert (Hrows : forall l, GlobalQuery.fetch_graph_context g' doc_id l = []).
  { intros l. apply no_mention_no_context. intros sid ek. rewrite Hm. apply Hno. }
  split; [apply Hrows|].
  unfold GlobalQuery.global_query_v5. by rewrite Hrows.
Qed.

(** X16: a document indexed under a [doc_id] other than "doc-1" cannot be
    queried: when the store holds no entity of that document and none of
    its sections mentions anything, then for an extraction whose entity
    items carry a string (or nothing) as type and as description,
    [persist_extraction] ends (returning or raising) and the store it
    leaves still gives [fetch_graph_context] no row for the document, so
    [global_query_v5] answers that no information was found, without
    asking a provider. *)
Theorem persisted_document_has_no_context
        (openai_client groq_client : option Extractor.provider)
        (summarize_communities :
           option (Neo4j.graph -> str ->
                   Neo4j.graph * list Extractor.call * result (list str)))
        (ARROW PROMPT_HEAD PROMPT_MIDDLE PROMPT_TAIL OVERVIEW_HEADER : str)
        (ex : Extractor.extraction) (section_id doc_id : str) (clock : nat -> Z)
        (g : Neo4j.graph) (question : str) (limit : Z) :
  doc_id <> Neo4j.default_doc_id ->
  (forall n, Neo4j.entities g !! (doc_id, n) = None) ->
  (forall sid ek, ((doc_id, sid), ek) ∉ Neo4j.mentions g) ->
  Forall (fun e => Persist.text_fields_ok e = true) (Extractor.ex_entities ex) ->
  exists g' r,
    Persist.persist_extraction ex section_id doc_id clock g = Some (g', r) /\
    GlobalQuery.fetch_graph_context g' doc_id limit = [] /\
    GlobalQuery.global_query_v5 openai_client groq_client summarize_communities
      ARROW PROMPT_HEAD PROMPT_MIDDLE PROMPT_TAIL OVERVIEW_HEADER question g' doc_id
    = (g', [], Ok {| GlobalQuery.q_query := question;
                     GlobalQuery.q_answer := GlobalQuery.NO_INFORMATION;
                     GlobalQuery.q_references := [] |}).
Proof.
  intros Hdoc Hnone Hno Hes.
  destruct (persist_extraction_some ex section_id doc_id clock g Hes) as (g' & r & Hrun).
  exists g', r. split; [done|].
  by apply (persist_extraction_no_context openai_client groq_client
              summarize_communities ARROW PROMPT_HEAD PROMPT_MIDDLE PROMPT_TAIL
              OVERVIEW_HEADER ex section_id doc_id clock g g' r).
Qed.

Lemma persisted_document_has_no_context_witness :
  let ex := {| Extractor.ex_entities :=
                 [Json.JObj [("name" : str, Json.JStr "Acme");
                             ("type" : str, Json.JStr "ORGANIZATION");
                             ("salience" : str, Json.JStr "CORE")]];
               Extractor.ex_relationships := [] |} in
  lit "report" <> Neo4j.default_doc_id /\
  Forall (fun e => Persist.text_fields_ok e = true) (Extractor.ex_entities ex) /\
  exists g' r,
    Persist.persist_extraction ex "s1" "report" (fun _ => 0) Neo4j.empty_graph
    = Some (g', r) /\
    r = Ok (1, 0) /\
    GlobalQuery.fetch_graph_context g' "report" 80 = [] /\
    snd (GlobalQuery.global_query_v5 (Some (Fixtures.answering "Acme")) None None
           " -> " "CONTEXT: " " QUESTION: " " ANSWER:" " OVERVIEW: "
           "What is Acme?" g' "report")
    = Ok {| GlobalQuery.q_query := "What is Acme?";
            GlobalQuery.q_answer := GlobalQuery.NO_INFORMATION;
            GlobalQuery.q_references := [] |}.
Proof.
  intros ex. split; [done|].
  assert (Hes : Forall (fun e => Persist.text_fields_ok e = true)
                       (Extractor.ex_entities ex)) by (by repeat constructor).
  split; [exact Hes|].
  destruct (persisted_document_has_no_context
              (Some (Fixtures.answering "Acme")) None None
              " -> " "CONTEXT: " " QUESTION: " " ANSWER:" " OVERVIEW: "
              ex "s1" "report" (fun _ => 0) Neo4j.empty_graph "What is Acme?" 80)
    as (g' & r & Hrun & Hrows & Hanswer);
    [done|done|intros sid ek; apply not_elem_of_empty|exact Hes|].
  assert (Hr : snd <$> Persist.persist_extraction ex "s1" "report" (fun _ => 0)
                          Neo4j.empty_graph = Some (Ok (1, 0)))
    by (vm_compute; reflexivity).
  rewrite Hrun in Hr. cbn in Hr. injection Hr as ->.
  exists g', (Ok (1, 0)). split; [exact Hrun|]. split; [done|].
  split; [exact Hrows|]. by rewrite Hanswer.
Defined.

(* --------------------------------------------------------------------- *)
(** ** References: the deduplication                                       *)
(* --------------------------------------------------------------------- *)

Section Deduplicate.

Import Re ReferenceExtractor.

Lemma mem_In (s : str) (ks : list str) : mem s ks = true <-> In s ks.
Proof.
  unfold mem. rewrite existsb_exists. split.
  - intros (k & Hk & He). apply str_eqb_eq in He. by subst.
  - intros H. exists s. split; [done|]. by apply str_eqb_eq.
Qed.

Lemma mem_not_In (s : str) (ks : list str) : mem s ks = false <-> ~ In s ks.
Proof.
  rewrite <- mem_In. destruct (mem s ks); split; try done.
Qed.

Lemma dedup_loop_spec (refs : list reference) (seen : list str) :
  let out := dedup_loop seen refs in
  NoDup (map reference_id out) /\
  sublist out refs /\
  (forall r, In r out -> ~ In (reference_id r) seen /\
                         find (fun x => str_eqb (reference_id x) (reference_id r)) refs = Some r) /\
  (forall r, In r refs -> ~ In (reference_id r) seen ->
             In (reference_id r) (map reference_id out)).
Proof.
  revert seen. induction refs as [|x refs IH]; intros seen; cbn [dedup_loop].
  - cbn. split; [constructor|]. split; [constructor|]. by split.
  - destruct (mem (reference_id x) seen) eqn:Hx.
    + apply mem_In in Hx. destruct (IH seen) as (Hnd & Hsub & Hfirst & Hall).
      cbv zeta in *. split; [done|]. split; [by apply sublist_cons|]. split.
      * intros r Hr. destruct (Hfirst r Hr) as [Hns Hf]. split; [done|].
        cbn [find].
        destruct (str_eqb (reference_id x) (reference_id r)) eqn:He; [|done].
        apply str_eqb_eq in He. by rewrite He in Hx.
      * intros r [<-|Hr] Hns; [done|]. by apply Hall.
    + apply mem_not_In in Hx.
      destruct (IH (reference_id x :: seen)) as (Hnd & Hsub & Hfirst & Hall).
      cbv zeta in *. split; [|split; [|split]].
      * cbn [map]. apply NoDup_cons. split; [|done].
        intros Hin%list_elem_of_In. apply in_map_iff in Hin as (r & Hid & Hr).
        destruct (Hfirst r Hr) as [Hns _]. apply Hns. left. by rewrite Hid.
      * by apply sublist_skip.
      * intros r [<-|Hr].
        -- split; [done|]. cbn [find].
           by rewrite (proj2 (str_eqb_eq _ _) eq_refl).
        -- destruct (Hfirst r Hr) as [Hns Hf]. split; [intros H; apply Hns; by right|].
           cbn [find].
           destruct (str_eqb (reference_id x) (reference_id r)) eqn:He; [|done].
           apply str_eqb_eq in He. destruct Hns. by left.
      * intros r [<-|Hr] Hns; [by left|]. cbn [map].
        destruct (decide (reference_id x = reference_id r)) as [He|Hne]; [by left|].
        right. apply Hall; [done|]. by intros [?|?].
Qed.

Lemma dedup_loop_fixed (refs : list reference) (seen : list str) :
  NoDup (map reference_id refs) ->
  (forall r, In r refs -> ~ In (reference_id r) seen) ->
  dedup_loop seen refs = refs.
Proof.
  revert seen. induction refs as [|x refs IH]; intros seen Hnd Hseen; [done|].
  cbn [dedup_loop]. cbn [map] in Hnd. apply NoDup_cons in Hnd as [Hx Hnd].
  rewrite (proj2 (mem_not_In _ _) (Hseen x (or_introl eq_refl))).
  f_equal. apply IH; [done|]. intros r Hr [Heq|Hin].
  - apply Hx. rewrite Heq. apply list_elem_of_In, in_map_iff. by exists r.
  - by apply (Hseen r (or_intror Hr)).
Qed.

Lemma deduplicate_references_nodup (refs : list reference) :
  NoDup (map reference_id (_deduplicate_references refs)).
Proof. by destruct (dedup_loop_spec refs []). Qed.

End Deduplicate.

(** X17: [_deduplicate_references] keeps, for every reference id of its
    input, the first reference that carries it, and nothing else: the
    result is a sub-list of the input in the input's order, its ids are
    pairwise distinct, each of its members is the first of the input with
    its id, every id of the input is still there, and deduplicating
    again changes nothing. *)
Theorem deduplicate_references_spec (refs : list ReferenceExtractor.reference) :
  let out := ReferenceExtractor._deduplicate_references refs in
  NoDup (map ReferenceExtractor.reference_id out) /\
  sublist out refs /\
  (forall r, In r out ->
     find (fun x => str_eqb (ReferenceExtractor.reference_id x)
                            (ReferenceExtractor.reference_id r)) refs = Some r) /\
  (forall r, In r refs ->
     In (ReferenceExtractor.reference_id r) (map ReferenceExtractor.reference_id out)) /\
  ReferenceExtractor._deduplicate_references out = out.
Proof.
  unfold ReferenceExtractor._deduplicate_references.
  destruct (dedup_loop_spec refs []) as (Hnd & Hsub & Hfirst & Hall).
  cbv zeta in *. split; [done|]. split; [done|]. split; [|split].
  - intros r Hr. by destruct (Hfirst r Hr).
  - intros r Hr. apply Hall; [done|]. by intros [].
  - apply dedup_loop_fixed; [done|]. by intros r _ [].
Qed.

(** X18: the references [extract_cross_section_references] returns have
    pairwise distinct ids; each is of the section and the document given,
    has one of the five reference types, and its id is
    [doc:section:type:locator]. *)
Theorem extract_cross_section_references_ids (text section_id doc_id : str) :
  let out := ReferenceExtractor.extract_cross_section_references text section_id doc_id in
  NoDup (map ReferenceExtractor.reference_id out) /\
  Forall (fun r =>
            ReferenceExtractor.from_section_id r = section_id /\
            ReferenceExtractor.ref_doc_id r = doc_id /\
            In (ReferenceExtractor.reference_type r)
               ["PAGE" : str; "SECTION" : str; "APPENDIX" : str; "TABLE" : str;
                "FIGURE" : str] /\
            ReferenceExtractor.reference_id r
            = doc_id ++ ReferenceExtractor.colon ++ section_id
              ++ ReferenceExtractor.colon ++ ReferenceExtractor.reference_type r
              ++ ReferenceExtractor.colon ++ ReferenceExtractor.target_locator r) out.
Proof.
  cbv zeta. split.
  - unfold ReferenceExtractor.extract_cross_section_references.
    apply deduplicate_references_nodup.
  - apply List.Forall_forall. intros r Hr.
    destruct (extracted_reference_gated _ _ _ _ Hr) as (p & ty & m & Hp & _ & _ & ->).
    cbn. repeat split; try done.
    unfold ReferenceExtractor.patterns in Hp. cbn [In] in Hp.
    repeat (destruct Hp as [[= <- <-]|Hp]; [cbn; tauto|]). done.
Qed.

(* --------------------------------------------------------------------- *)
(** ** Entities along a sequence of upserts                                *)
(* --------------------------------------------------------------------- *)

Section EntityHistory.

Import Json Neo4j Upserts.

Lemma apply_upsert_entity (g : graph) (u : upsert) (d n : str) (e : entity) :
  entities g !! (d, n) = Some e ->
  exists e',
    entities (apply_upsert g u) !! (d, n) = Some e' /\
    e_type e' = e_type e /\ e_created_at e' = e_created_at e /\
    (length (e_description e) <= length (e_description e'))%nat /\
    (e_description e' = e_description e \/
     (u_doc_id u, u_name u) = (d, n) /\ e_description e' = u_description u) /\
    ((u_doc_id u, u_name u) = (d, n) ->
     (length (u_description u) <= length (e_description e'))%nat).
Proof.
  intros He. unfold apply_upsert, create_entity. cbn [fst entities set_entities].
  destruct (decide ((u_doc_id u, u_name u) = (d, n))) as [Hk|Hk].
  - injection Hk as <- <-. rewrite He, lookup_insert_eq. eexists. split; [done|].
    unfold on_match. cbn [e_type e_created_at e_description].
    destruct (Nat.ltb_spec (length (e_description e)) (length (u_description u)));
      repeat split; auto with lia.
  - rewrite lookup_insert_ne by done. exists e. repeat split; auto with lia; done.
Qed.

Lemma run_upserts_entity (us : list upsert) (g : graph) (d n : str) (e : entity) :
  entities g !! (d, n) = Some e ->
  exists e',
    entities (run_upserts us g) !! (d, n) = Some e' /\
    e_type e' = e_type e /\ e_created_at e' = e_created_at e /\
    (length (e_description e) <= length (e_description e'))%nat /\
    (e_description e' = e_description e \/
     exists u, In u us /\ (u_doc_id u, u_name u) = (d, n) /\
               e_description e' = u_description u) /\
    (forall u, In u us -> (u_doc_id u, u_name u) = (d, n) ->
               (length (u_description u) <= length (e_description e'))%nat).
Proof.
  revert g e. induction us as [|u us IH]; intros g e He; cbn [run_upserts fold_left].
  - exists e. repeat split; auto. by intros u [].
  - destruct (apply_upsert_entity g u d n e He) as (e1 & He1 & Hty & Hat & Hlen & Hd & Hu).
    destruct (IH _ _ He1) as (e' & He' & Hty' & Hat' & Hlen' & Hd' & Hu').
    exists e'. split; [exact He'|]. split; [congruence|]. split; [congruence|].
    split; [lia|]. split.
    + destruct Hd' as [Hd'|(u' & Hin & Hk & Hd')].
      * destruct Hd as [Hd|[Hk Hd]]; [left; congruence|].
        right. exists u. split; [by left|]. split; [done|congruence].
      * right. exists u'. split; [by right|done].
    + intros u' [<-|Hin] Hk; [|by apply Hu'].
      specialize (Hu Hk). lia.
Qed.

End EntityHistory.

(** X19: along any sequence of [create_entity] upserts, an entity that is
    in the store stays there with the type and the creation time it was
    created with (later upserts never change them); its description never
    gets shorter, is at least as long as every description it was
    upserted with, and is either the old one or one of those. *)
Theorem entity_history
        (us : list Upserts.upsert) (g : Neo4j.graph) (doc_id name : str)
        (e : Neo4j.entity) :
  Neo4j.entities g !! (doc_id, name) = Some e ->
  exists e',
    Neo4j.entities (Upserts.run_upserts us g) !! (doc_id, name) = Some e' /\
    Neo4j.e_type e' = Neo4j.e_type e /\
    Neo4j.e_created_at e' = Neo4j.e_created_at e /\
    (length (Neo4j.e_description e) <= length (Neo4j.e_description e'))%nat /\
    (Neo4j.e_description e' = Neo4j.e_description e \/
     exists u, In u us /\ Upserts.u_doc_id u = doc_id /\ Upserts.u_name u = name /\
               Neo4j.e_description e' = Upserts.u_description u) /\
    (forall u, In u us -> Upserts.u_doc_id u = doc_id -> Upserts.u_name u = name ->
               (length (Upserts.u_description u) <= length (Neo4j.e_description e'))%nat).
Proof.
  intros He.
  destruct (run_upserts_entity us g doc_id name e He)
    as (e' & He' & Hty & Hat & Hlen & Hd & Hu).
  exists e'. repeat (split; [done|]). split.
  - destruct Hd as [Hd|(u & Hin & [= Hdoc Hname] & Hd)]; [by left|].
    right. by exists u.
  - intros u Hin Hdoc Hname. apply Hu; [done|]. by rewrite Hdoc, Hname.
Qed.

Lemma entity_history_witness :
  let g := Upserts.acme_graph "CORE" in
  let retype :=
    {| Upserts.u_name := "Acme"; Upserts.u_type := "PERSON";
       Upserts.u_description := "A company that builds rockets";
       Upserts.u_salience := "CORE"; Upserts.u_doc_id := "doc-1";
       Upserts.u_now := 9 |} in
  exists e e',
    Neo4j.entities g !! (lit "doc-1", lit "Acme") = Some e /\
    Neo4j.entities (Upserts.run_upserts [retype; Upserts.demote_acme] g)
      !! (lit "doc-1", lit "Acme") = Some e' /\
    Neo4j.e_type e' = Neo4j.e_type e /\
    Neo4j.e_created_at e' = Neo4j.e_created_at e /\
    (length (Neo4j.e_description e) <= length (Neo4j.e_description e'))%nat.
Proof.
  intros g retype.
  destruct (Neo4j.entities g !! (lit "doc-1", lit "Acme")) as [e|] eqn:He;
    [|by vm_compute in He].
  destruct (entity_history [retype; Upserts.demote_acme] g "doc-1" "Acme" e He)
    as (e' & He' & Hty & Hat & Hlen & _).
  by exists e, e'.
Defined.

(* --------------------------------------------------------------------- *)
(** ** Communities: the section graph and the grouping                     *)
(* --------------------------------------------------------------------- *)

Section SectionGraphs.

Import Neo4j CommunityDetection SectionGraph.

Lemma add_edge_edges (P : edge -> Prop) u v w s G :
  Forall P (edges G) ->
  P {| ed_u := u; ed_v := v; ed_weight := w; ed_source := s |} ->
  (forall x, P x -> P {| ed_u := ed_u x; ed_v := ed_v x;
                         ed_weight := w; ed_source := s |}) ->
  Forall P (edges (add_edge u v w s G)).
Proof.
  intros HG Hnew Hupd. unfold add_edge. cbn [edges].
  destruct (existsb _ _).
  - apply List.Forall_map. eapply Forall_impl; [exact HG|].
    intros x Hx. cbn. destruct (same_edge u v x); auto.
  - apply Forall_app. split; [done|]. by constructor.
Qed.

Lemma shared_weight n :
  1 <= n ->
  let w := (1 + float_of_count (Z.min n 3))%float in
  w = 2%float \/ w = 3%float \/ w = 4%float.
Proof.
  intros Hn. cbv zeta.
  destruct (Z.eq_dec n 1) as [->|]; [left; reflexivity|].
  destruct (Z.eq_dec n 2) as [->|]; [right; left; reflexivity|].
  replace (Z.min n 3) with 3 by lia. right. right. reflexivity.
Qed.

Lemma get_section_graph_edges g doc :
  Forall (edge_ok g doc) (edges (get_section_graph g doc)).
Proof.
  unfold get_section_graph.
  set (G1 := fold_left add_section_node (section_rows g doc) nx_empty).
  assert (H1 : Forall (edge_ok g doc) (edges G1)).
  { unfold G1. rewrite add_section_nodes_edges. constructor. }
  assert (H2 : Forall (edge_ok g doc)
                      (edges (fold_left add_reference_edge (reference_rows g doc) G1))).
  { assert (Hrows : forall r, In r (reference_rows g doc) -> In r (reference_rows g doc))
      by done.
    revert Hrows H1. generalize G1. generalize (reference_rows g doc) at 1 3 as rows.
    induction rows as [|[a b] rows IH]; intros G Hrows HG; [done|].
    cbn [fold_left]. apply IH; [intros r Hr; apply Hrows; by right|].
    destruct (reference_rows_sections g doc a b (Hrows _ (or_introl eq_refl))) as [Ha Hb].
    unfold add_reference_edge. cbn [fst snd]. apply add_edge_edges; [done|..].
    - repeat split; try done. by left.
    - intros x (Hu & Hv & _). repeat split; try done. by left. }
  revert H2. generalize (fold_left add_reference_edge (reference_rows g doc) G1) as G2.
  assert (Hrows : forall r, In r (shared_rows g doc) -> In r (shared_rows g doc)) by done.
  revert Hrows. generalize (shared_rows g doc) at 1 3 as rows.
  induction rows as [|[[a b] n] rows IH]; intros Hrows G HG; [done|].
  cbn [fold_left]. apply IH; [intros r Hr; apply Hrows; by right|].
  destruct (shared_rows_sections g doc a b n (Hrows _ (or_introl eq_refl)))
    as (Ha & Hb & _ & Hn).
  unfold add_shared_edge. destruct (1 <=? n); [|done].
  pose proof (shared_weight n Hn) as Hw. cbv zeta in Hw.
  apply add_edge_edges; [done|..].
  - repeat split; try done. by right.
  - intros x (Hu & Hv & _). repeat split; try done. by right.
Qed.

End SectionGraphs.

(** X20: the graph [get_section_graph] builds for a document has exactly
    the document's sections as nodes, and every edge joins two sections
    of the document; an edge carries weight 3.0 and source "reference",
    or source "entity" and weight 2.0, 3.0 or 4.0 (one plus the number of
    shared salient entities, capped at three). *)
Theorem get_section_graph_spec (g : Neo4j.graph) (doc_id : str) :
  let G := CommunityDetection.get_section_graph g doc_id in
  (forall sid, In sid (map fst (CommunityDetection.nodes G))
               <-> is_Some (Neo4j.sections g !! (doc_id, sid))) /\
  NoDup (map fst (CommunityDetection.nodes G)) /\
  Forall (SectionGraph.edge_ok g doc_id) (CommunityDetection.edges G).
Proof.
  cbv zeta. destruct (number_of_nodes_sections g doc_id) as [Hlen Hids].
  split; [exact Hids|]. split; [|apply get_section_graph_edges].
  apply NoDup_ListNoDup.
  apply (@NoDup_incl_NoDup _ (map fst (CommunityDetection.section_rows g doc_id))).
  - apply NoDup_ListNoDup, section_rows_nodup.
  - unfold CommunityDetection.number_of_nodes in Hlen. rewrite !length_map. lia.
  - intros sid Hsid. apply Hids. by apply section_rows_ids.
Qed.

Section Grouping.

Import Neo4j CommunityDetection SectionGraph.

Lemma members_snoc cid' p sid cid :
  members cid' (p ++ [(sid, cid)])
  = members cid' p ++ (if cid =? cid' then [sid] else []).
Proof.
  unfold members. rewrite List.filter_app, map_app. cbn [List.filter snd].
  by destruct (cid =? cid').
Qed.

Lemma group_add_fst cid sid cs :
  (In cid (map fst cs) -> map fst (group_add cid sid cs) = map fst cs) /\
  (~ In cid (map fst cs) -> map fst (group_add cid sid cs) = map fst cs ++ [cid]).
Proof.
  induction cs as [|[c secs] cs [IH1 IH2]]; cbn [group_add map fst].
  - split; [by intros []|done].
  - destruct (Z.eqb_spec c cid) as [->|Hne]; cbn [map fst].
    + split; [done|]. intros H. destruct H. by left.
    + split.
      * intros [?|Hin]; [done|]. by rewrite IH1.
      * intros Hnot. rewrite IH2; [done|]. intros Hin. apply Hnot. by right.
Qed.

Lemma group_add_In cid sid cs c secs :
  NoDup (map fst cs) ->
  In (c, secs) (group_add cid sid cs) <->
  (c <> cid /\ In (c, secs) cs) \/
  (c = cid /\ ((exists old, In (cid, old) cs /\ secs = old ++ [sid]) \/
               (~ In cid (map fst cs) /\ secs = [sid]))).
Proof.
  induction cs as [|[c0 secs0] cs IH]; intros Hnd; cbn [group_add].
  - cbn. split.
    + intros [[= <- <-]|[]]. right. split; [done|]. right. split; [tauto|done].
    + intros [[_ []]|[-> [(old & [] & _)|[_ ->]]]]. by left.
  - cbn [map fst] in Hnd. apply NoDup_cons in Hnd as [Hc0 Hnd].
    destruct (Z.eqb_spec c0 cid) as [->|Hne].
    + cbn [In map fst]. split.
      * intros [[= <- <-]|Hin].
        -- right. split; [done|]. left. exists secs0. split; [by left|done].
        -- left. split; [|by right]. intros ->. apply Hc0.
           apply list_elem_of_In, in_map_iff. by exists (cid, secs).
      * intros [[Hne [[= -> <-]|Hin]]|[-> [(old & [[= <-]|Hin] & ->)|[Hnot _]]]].
        -- done.
        -- by right.
        -- by left.
        -- destruct Hc0. apply list_elem_of_In, in_map_iff. by exists (cid, old).
        -- destruct Hnot. by left.
    + cbn [In map fst]. rewrite (IH Hnd). split.
      * intros [[= <- <-]|[[Hc Hin]|[-> H]]].
        -- left. split; [done|by left].
        -- left. split; [done|by right].
        -- right. split; [done|]. destruct H as [(old & Hin & ->)|[Hnot ->]].
           ++ left. exists old. split; [by right|done].
           ++ right. split; [|done]. intros [?|?]; done.
      * intros [[Hc [[= <- <-]|Hin]]|[-> H]].
        -- by left.
        -- right. left. done.
        -- right. right. split; [done|]. destruct H as [(old & [[= ? ?]|Hin] & ->)|[Hnot ->]].
           ++ done.
           ++ left. by exists old.
           ++ right. split; [|done]. intros Hin. apply Hnot. by right.
Qed.

Lemma group_add_grouped cid sid cs p :
  grouped cs p -> grouped (group_add cid sid cs) (p ++ [(sid, cid)]).
Proof.
  intros [Hnd Hcs]. split.
  - destruct (group_add_fst cid sid cs) as [H1 H2].
    destruct (decide (cid ∈ map fst cs)) as [Hin|Hin].
    + rewrite H1; [done|]. by apply list_elem_of_In.
    + rewrite H2; [|by intros ?%list_elem_of_In].
      apply NoDup_app. split; [done|]. split; [|apply NoDup_singleton].
      by intros x Hx ->%list_elem_of_singleton.
  - intros c secs. rewrite (group_add_In _ _ _ _ _ Hnd), members_snoc.
    destruct (Z.eqb_spec cid c) as [<-|Hne].
    + split.
      * intros [[Hc _]|[_ [(old & Hin & ->)|[Hnot ->]]]]; [done| |].
        -- apply Hcs in Hin as [_ <-]. split; [by destruct old|done].
        -- split; [done|].
           destruct (members cid p) as [|m ms] eqn:Hm; [done|].
           destruct Hnot. apply in_map_iff. exists (cid, m :: ms). split; [done|].
           apply Hcs. by rewrite Hm.
      * intros [_ ->]. right. split; [done|].
        destruct (members cid p) as [|m ms] eqn:Hm.
        -- right. split; [|done]. intros Hin. apply in_map_iff in Hin as ([c' old] & Hc' & Hin).
           cbn in Hc'. subst c'. apply Hcs in Hin as [Hne Hold]. congruence.
        -- left. exists (m :: ms). split; [|done]. apply Hcs. by rewrite Hm.
    + rewrite app_nil_r. split.
      * intros [[_ Hin]|[-> _]]; [by apply Hcs|done].
      * intros H. left. split; [done|]. by apply Hcs.
Qed.

Lemma group_partition_grouped p : grouped (group_partition p) p.
Proof.
  induction p as [|[sid cid] p IH] using rev_ind.
  - split; [constructor|]. intros cid secs. cbn. split; [done|]. by intros [? ->].
  - unfold group_partition in *. rewrite fold_left_app. cbn [fold_left].
    by apply group_add_grouped.
Qed.

End Grouping.

(** X21: the grouping of a Louvain partition into communities loses no
    section and invents none: the community ids of the groups are
    pairwise distinct, the groups are exactly the non-empty member lists
    (each holds the sections the partition puts in that community, in the
    partition's order), and a section is in the group of a community
    exactly when the partition assigns it to that community. *)
Theorem group_partition_spec (partition : list (str * Z)) :
  let cs := CommunityDetection.group_partition partition in
  NoDup (map fst cs) /\
  (forall cid secs,
      In (cid, secs) cs <->
      secs <> [] /\ secs = SectionGraph.members cid partition) /\
  (forall sid cid,
      In (sid, cid) partition <-> exists secs, In (cid, secs) cs /\ In sid secs).
Proof.
  cbv zeta. destruct (group_partition_grouped partition) as [Hnd Hcs].
  split; [done|]. split; [done|].
  intros sid cid. split.
  - intros Hin. exists (SectionGraph.members cid partition).
    assert (Hm : In sid (SectionGraph.members cid partition)).
    { unfold SectionGraph.members. apply in_map_iff. exists (sid, cid). split; [done|].
      apply filter_In. split; [done|]. cbn. apply Z.eqb_refl. }
    split; [|done]. apply Hcs. split; [|done]. intros H. by rewrite H in Hm.
  - intros (secs & Hin & Hsid). apply Hcs in Hin as [_ ->].
    unfold SectionGraph.members in Hsid.
    apply in_map_iff in Hsid as ([sid' cid'] & <- & Hf).
    apply filter_In in Hf as [Hin Hc]. cbn in Hc. apply Z.eqb_eq in Hc as ->. done.
Qed.

Section DetectFrame.

Import Neo4j CommunityDetection SectionGraph.

Lemma grows_refl doc g : grows_in doc g g.
Proof.
  split; [by repeat split|]. split; [done|]. split; [done|]. split; [done|]. auto.
Qed.

Lemma grows_trans doc g1 g2 g3 :
  grows_in doc g1 g2 -> grows_in doc g2 g3 -> grows_in doc g1 g3.
Proof.
  intros (H1 & Hc1 & Hd1 & Hs1 & Hn1) (H2 & Hc2 & Hd2 & Hs2 & Hn2).
  destruct H1 as (?&?&Hsec1&?&?&?&?), H2 as (?&?&Hsec2&?&?&?&?).
  split; [repeat split; congruence|]. split; [auto|].
  split; [intros d cid Hd; by rewrite Hd2, Hd1|]. split; [auto|].
  intros x Hx. destruct (Hn2 x Hx) as [Hx2|(cid & sid & -> & Hsec & Hcom)].
  - destruct (Hn1 x Hx2) as [?|(cid & sid & -> & Hsec & Hcom)]; [by left|].
    right. exists cid, sid. split; [done|]. split; [done|]. by apply Hc2.
  - right. exists cid, sid. split; [done|]. split; [by rewrite <- Hsec1|done].
Qed.

Lemma persist_community_grows doc m mode g c :
  grows_in doc g (persist_community doc m mode g c).
Proof.
  unfold persist_community.
  set (cid := str_of_int c.1).
  set (g0 := set_communities g _).
  destruct (merge_contains_fold doc cid c.2 g0) as (Hc & Hf & Hx).
  { unfold g0. cbn. rewrite lookup_insert_eq. by eexists. }
  cbv zeta in *. set (g' := fold_left _ _ g0) in *.
  destruct Hf as (?&?&?&?&?&?&?).
  split; [by repeat split|]. split; [|split; [|split]].
  - intros d k [x Hk]. rewrite Hc. unfold g0. cbn [communities set_communities].
    destruct (decide ((doc, cid) = (d, k))) as [[= <- <-]|Hne].
    + rewrite lookup_insert_eq. by eexists.
    + rewrite lookup_insert_ne by done. by eexists.
  - intros d k Hd. rewrite Hc. unfold g0. cbn [communities set_communities].
    rewrite lookup_insert_ne; [done|]. intros [= ? ?]. done.
  - intros x Hin. apply Hx. by left.
  - intros x Hin. apply Hx in Hin as [Hin|(sid & _ & Hsec & ->)]; [by left|].
    right. exists cid, sid. split; [done|]. split; [done|].
    rewrite Hc. unfold g0. cbn [communities set_communities].
    rewrite lookup_insert_eq. by eexists.
Qed.

Lemma persist_communities_grows doc m mode cs g :
  grows_in doc g (fold_left (persist_community doc m mode) cs g).
Proof.
  revert g. induction cs as [|c cs IH]; intros g; [apply grows_refl|].
  cbn [fold_left]. eapply grows_trans; [apply persist_community_grows|apply IH].
Qed.

End DetectFrame.

(** X22: whatever the Louvain implementation returns, a run of
    [detect_section_communities] touches nothing but Community nodes and
    CONTAINS edges, and only adds to them: entities, sections, mentions
    and references are as before; every Community node that existed still
    exists, and those of other documents are unchanged; every CONTAINS
    edge is kept, and a new one joins a Community of the document to an
    existing Section of the document.  Memberships of an earlier run are
    therefore never removed.  With an outcome other than "ok" the
    store is exactly as before. *)
Theorem detect_section_communities_frame
        (best_partition : CommunityDetection.nxgraph -> list (str * Z))
        (modularity_of : list (str * Z) -> CommunityDetection.nxgraph -> float)
        (g : Neo4j.graph) (doc_id : str) :
  let out := CommunityDetection.detect_section_communities
               best_partition modularity_of g doc_id in
  SectionGraph.grows_in doc_id g (fst out) /\
  match snd out with
  | CommunityDetection.Persisted _ _ _ => True
  | _ => fst out = g
  end.
Proof.
  cbv zeta. unfold CommunityDetection.detect_section_communities.
  destruct (_ =? 0); [split; [apply grows_refl|done]|].
  destruct (_ <=? 15).
  - destruct (if _ =? 0 then _ else _) as [communities modularity].
    unfold CommunityDetection._persist_communities. cbn [fst snd].
    split; [apply persist_communities_grows|done].
  - destruct (_ <? _); [split; [apply grows_refl|done]|].
    destruct (PrimFloat.ltb _ _); [split; [apply grows_refl|done]|].
    unfold CommunityDetection._persist_communities. cbn [fst snd].
    split; [apply persist_communities_grows|done].
Qed.

(* --------------------------------------------------------------------- *)
(** ** Query: the context rows                                             *)
(* --------------------------------------------------------------------- *)

Section ContextFetch.

Import Neo4j Extractor GlobalQuery ContextRows.

Lemma mention_rows_ok g doc m r : m ∈ mentions g -> In r (mention_rows g doc m) -> row_ok g doc r.
Proof.
  destruct m as [[d1 sid] [d2 name]]. intros Hm. unfold mention_rows.
  match goal with
  | |- context [match ?x with Some _ => _ | None => _ end] =>
      destruct x as [s|] eqn:Hs; [|done]
  end.
  match goal with
  | |- context [match ?x with Some _ => _ | None => _ end] =>
      destruct x as [e|] eqn:He; [|done]
  end.
  cbn [fst snd].
  destruct (str_eqb d1 doc) eqn:Hd; [|done]. apply str_eqb_eq in Hd as ->.
  destruct (mem (e_salience e) _) eqn:Hsal; [|done]. cbn [andb].
  intros Hin. apply in_flat_map in Hin as (fc & _ & Hin).
  apply in_map_iff in Hin as (t & <- & _). cbn.
  exists s, d2, e. by repeat split.
Qed.

Lemma fetch_rows_ok g doc :
  Forall (row_ok g doc) (flat_map (mention_rows g doc) (elements (mentions g))).
Proof.
  apply List.Forall_forall. intros r Hin.
  apply in_flat_map in Hin as (m & Hm & Hin).
  apply (mention_rows_ok g doc m); [|done].
  by apply elem_of_elements, list_elem_of_In.
Qed.

Lemma Forall_filter_both {A} (P : A -> Prop) (f : A -> bool) (l : list A) :
  Forall P l -> Forall (fun x => P x /\ f x = true) (List.filter f l).
Proof.
  induction 1 as [|x l Hx _ IH]; [constructor|]. cbn.
  destruct (f x) eqn:Hf; [|done]. by constructor.
Qed.

Lemma dedup_In {A} `{EqDecision A} (l : list A) x : In x (dedup l) <-> In x l.
Proof.
  induction l as [|y l IH]; [done|]. cbn [dedup In].
  rewrite filter_In, IH. split.
  - intros [?|[? _]]; auto.
  - intros [?|Hin]; [by left|].
    destruct (decide (x = y)) as [->|Hne]; [by left|].
    right. split; [done|]. by rewrite bool_decide_eq_false_2.
Qed.

Lemma dedup_NoDup {A} `{EqDecision A} (l : list A) : NoDup (dedup l).
Proof.
  induction l as [|y l IH]; [constructor|]. cbn [dedup].
  apply NoDup_cons. split.
  - intros Hin%list_elem_of_In. apply filter_In in Hin as [_ Hy].
    by rewrite bool_decide_eq_true_2 in Hy.
  - clear -IH. induction IH as [|z l' Hz _ IH']; [constructor|]. cbn.
    destruct (negb _); [|done]. apply NoDup_cons. split; [|done].
    intros Hin%list_elem_of_In. apply filter_In in Hin as [Hin _].
    by apply Hz, list_elem_of_In.
Qed.

End ContextFetch.

(** X23: the rows [fetch_graph_context] returns are at most [limit];
    every row is supported by the store (a section of the document that
    mentions a CORE or IMPORTANT entity, with that section's title and
    page and that entity's type, description and salience); and the rows
    of IMPORTANT entities come first, those of CORE entities after them
    (the descending string order of the salience), so that the limit cuts
    CORE rows before IMPORTANT ones. *)
Theorem fetch_graph_context_rows (g : Neo4j.graph) (doc_id : str) (limit : Z) :
  let rows := GlobalQuery.fetch_graph_context g doc_id limit in
  (length rows <= Z.to_nat limit)%nat /\
  Forall (ContextRows.row_ok g doc_id) rows /\
  exists important core,
    rows = important ++ core /\
    Forall (fun r => GlobalQuery.r_salience r = lit "IMPORTANT") important /\
    Forall (fun r => GlobalQuery.r_salience r = lit "CORE") core.
Proof.
  cbv zeta. unfold GlobalQuery.fetch_graph_context.
  set (all := flat_map _ _).
  pose proof (fetch_rows_ok g doc_id) as Hok. fold all in Hok.
  set (imp := List.filter (GlobalQuery.has_salience "IMPORTANT") all).
  set (core := List.filter (GlobalQuery.has_salience "CORE") all).
  assert (Himp : Forall (fun r => ContextRows.row_ok g doc_id r /\
                                  GlobalQuery.r_salience r = lit "IMPORTANT") imp).
  { eapply Forall_impl; [apply (Forall_filter_both _ _ _ Hok)|].
    intros r [Hr Hs]. split; [done|]. by apply str_eqb_eq in Hs. }
  assert (Hcore : Forall (fun r => ContextRows.row_ok g doc_id r /\
                                   GlobalQuery.r_salience r = lit "CORE") core).
  { eapply Forall_impl; [apply (Forall_filter_both _ _ _ Hok)|].
    intros r [Hr Hs]. split; [done|]. by apply str_eqb_eq in Hs. }
  split; [rewrite length_firstn; lia|]. split.
  - apply Forall_take, Forall_app. split.
    + eapply Forall_impl; [exact Himp|]. by intros r [? _].
    + eapply Forall_impl; [exact Hcore|]. by intros r [? _].
  - rewrite firstn_app. eexists _, _. split; [reflexivity|]. split.
    + apply Forall_take. eapply Forall_impl; [exact Himp|]. by intros r [_ ?].
    + apply Forall_take. eapply Forall_impl; [exact Hcore|]. by intros r [_ ?].
Qed.

(** X24: what [global_query_v5] does beyond its answer.  A question whose
    intent is not SUMMARY leaves the store as it was and makes at most two
    provider requests, OpenAI first.  When it returns a result, the
    references hold no pair twice, and each is the non-empty title and
    the page of a section of a context row.  And when context rows exist
    and no provider is configured, it raises the RuntimeError of
    [chat_completion]. *)
Theorem global_query_v5_effects
        (openai_client groq_client : option Extractor.provider)
        (summarize_communities :
           option (Neo4j.graph -> str ->
                   Neo4j.graph * list Extractor.call * result (list str)))
        (ARROW PROMPT_HEAD PROMPT_MIDDLE PROMPT_TAIL OVERVIEW_HEADER : str)
        (question : str) (g : Neo4j.graph) (doc_id : str) :
  let out := GlobalQuery.global_query_v5 openai_client groq_client summarize_communities
               ARROW PROMPT_HEAD PROMPT_MIDDLE PROMPT_TAIL OVERVIEW_HEADER
               question g doc_id in
  let rows := GlobalQuery.fetch_graph_context g doc_id 80 in
  (GlobalQuery.detect_query_intent question <> lit "SUMMARY" ->
   fst (fst out) = g /\
   exists m, In (snd (fst out))
                [[]; [(Extractor.OpenAI, m)]; [(Extractor.Groq, m)];
                 [(Extractor.OpenAI, m); (Extractor.Groq, m)]]) /\
  (forall q, snd out = Ok q ->
     GlobalQuery.q_query q = question /\
     NoDup (GlobalQuery.q_references q) /\
     forall title page, In (title, page) (GlobalQuery.q_references q) ->
       title <> [] /\
       exists r, In r rows /\ GlobalQuery.r_section_title r = Some title /\
                 GlobalQuery.r_page_start r = page) /\
  (rows <> [] -> openai_client = None -> groq_client = None ->
   out = (g, [], Raise (RuntimeError "No LLM provider available"))).
Proof.
  cbv zeta. unfold GlobalQuery.global_query_v5.
  set (rows := GlobalQuery.fetch_graph_context g doc_id 80).
  assert (Hrefs : forall title page,
             In (title, page) (GlobalQuery.references_of rows) ->
             title <> [] /\
             exists r, In r rows /\ GlobalQuery.r_section_title r = Some title /\
                       GlobalQuery.r_page_start r = page).
  { intros title page Hin. unfold GlobalQuery.references_of in Hin.
    apply (proj1 (dedup_In _ _)) in Hin.
    apply list_elem_of_In, list_elem_of_omap in Hin as (r & Hr & Hf).
    apply list_elem_of_In in Hr.
    destruct (GlobalQuery.r_section_title r) as [[|c t]|] eqn:Ht; try done.
    injection Hf as <- <-. split; [done|]. by exists r. }
  destruct rows as [|r0 rows'] eqn:Hrows.
  { cbn [fst snd]. split; [intros _; split; [done|]; exists []; by left|].
    split; [|done]. intros q [= <-]. cbn. split; [done|]. split; [constructor|]. by intros ? ? []. }
  set (messages := [_; _]).
  unfold GlobalQuery.chat_completion.
  split; [|split].
  - intros Hintent.
    assert (Hs : str_eqb (GlobalQuery.detect_query_intent question) "SUMMARY" = false).
    { destruct (str_eqb _ _) eqn:He; [|done]. by apply str_eqb_eq in He. }
    rewrite Hs.
    destruct openai_client as [openai|]; [destruct (bind (openai messages) _)|];
      destruct groq_client as [groq|]; try destruct (bind (groq messages) _);
      cbn [fst snd app]; (split; [done|]); exists messages; cbn; tauto.
  - intros q.
    destruct (str_eqb _ _);
      [destruct summarize_communities as [summarize|]|];
      destruct openai_client as [openai|]; try destruct (bind (openai messages) _);
      destruct groq_client as [groq|]; try destruct (bind (groq messages) _);
      try destruct (summarize g doc_id) as [[g' log'] [summaries|e']];
      cbn [fst snd]; try done; intros [= <-]; cbn;
      (split; [done|]); (split; [apply dedup_NoDup|]); apply Hrefs.
  - intros _ -> ->. done.
Qed.

(** X25: the summarizer that [global_query_v5] imports for a SUMMARY
    question is looked up after the provider has answered.  When that
    import fails, a summary question on a document with context rows
    never gets a result: the call raises (the provider's error, or the
    import error after the provider was asked in vain), and the store is
    left as it was. *)
Theorem global_query_v5_summary_fails
        (openai_client groq_client : option Extractor.provider)
        (ARROW PROMPT_HEAD PROMPT_MIDDLE PROMPT_TAIL OVERVIEW_HEADER : str)
        (question : str) (g : Neo4j.graph) (doc_id : str) :
  GlobalQuery.detect_query_intent question = lit "SUMMARY" ->
  GlobalQuery.fetch_graph_context g doc_id 80 <> [] ->
  exists log e,
    GlobalQuery.global_query_v5 openai_client groq_client None
      ARROW PROMPT_HEAD PROMPT_MIDDLE PROMPT_TAIL OVERVIEW_HEADER question g doc_id
    = (g, log, Raise e) /\
    (e = ImportError -> log <> []).
Proof.
  intros Hintent Hrows. unfold GlobalQuery.global_query_v5.
  destruct (GlobalQuery.fetch_graph_context g doc_id 80) as [|r0 rows]; [done|].
  rewrite Hintent. change (str_eqb (lit "SUMMARY") "SUMMARY") with true. cbv iota.
  unfold GlobalQuery.chat_completion.
  set (messages := [_; _]).
  destruct openai_client as [openai|]; [destruct (bind (openai messages) _)|];
    destruct groq_client as [groq|]; try destruct (bind (groq messages) _);
    eexists _, _; (split; [reflexivity|]); try done.
Qed.

Lemma global_query_v5_summary_fails_witness :
  GlobalQuery.detect_query_intent "Give me a summary of Acme" = lit "SUMMARY" /\
  GlobalQuery.fetch_graph_context (Library.acme_mentioned "CORE") Documents.doc 80 <> [] /\
  exists log e,
    Library.query (Library.acme_mentioned "CORE") "Give me a summary of Acme"
    = (Library.acme_mentioned "CORE", log, Raise e) /\
    (e = ImportError -> log <> []).
Proof.
  assert (H1 : GlobalQuery.detect_query_intent "Give me a summary of Acme" = lit "SUMMARY")
    by (vm_compute; reflexivity).
  assert (H2 : GlobalQuery.fetch_graph_context (Library.acme_mentioned "CORE")
                                               Documents.doc 80 <> [])
    by (vm_compute; discriminate).
  split; [exact H1|]. split; [exact H2|].
  exact (global_query_v5_summary_fails _ _ _ _ _ _ _ _ _ _ H1 H2).
Defined.

(* --------------------------------------------------------------------- *)
(** ** Financial facts of tables                                           *)
(* --------------------------------------------------------------------- *)

Section FactsOfTables.

Import Json Neo4j FinancialFacts Provenance FinancialTables.

Variable to_float : json -> option float.
Variable clock : nat -> Z.

Lemma parse_column_digits col sc yr :
  parse_column col = (Some sc, Some yr) -> isdigit yr = true.
Proof.
  unfold parse_column. destruct (split_once underscore col) as [[scope year]|]; [|done].
  destruct (isdigit year) eqn:Hd; [|done]. cbn [negb].
  destruct (negb _); [done|]. by intros [= _ <-].
Qed.

Lemma dict_set_Forall {V} (P : str * V -> Prop) k (v : V) d :
  P (k, v) -> Forall P d -> Forall P (dict_set k v d).
Proof.
  intros Hkv. induction 1 as [|[k' v'] d Hx Hd IH]; cbn [dict_set].
  - by repeat constructor.
  - destruct (str_eqb k' k); by constructor.
Qed.

(** Every entry of [col_meta] comes from a column that parses, and is
    keyed by the lower-cased column name. *)
Lemma col_meta_of_spec columns :
  Forall (fun c => exists col, In col columns /\ fst c = lower col /\
                     parse_column col = (Some (fst (snd c)), Some (snd (snd c))))
         (col_meta_of columns).
Proof.
  unfold col_meta_of.
  assert (Hgen : forall cols acc,
    (forall c, In c cols -> In c columns) ->
    Forall (fun c => exists col, In col columns /\ fst c = lower col /\
                       parse_column col = (Some (fst (snd c)), Some (snd (snd c)))) acc ->
    Forall (fun c => exists col, In col columns /\ fst c = lower col /\
                       parse_column col = (Some (fst (snd c)), Some (snd (snd c))))
           (fold_left col_meta_step cols acc)).
  { induction cols as [|col cols IH]; intros acc Hin Hacc; [done|].
    cbn [fold_left]. apply IH; [intros c Hc; apply Hin; by right|].
    unfold col_meta_step.
    destruct (parse_column col) as [[sc|] [yr|]] eqn:Hp; try done.
    destruct (_ && _); [|done].
    apply dict_set_Forall; [|done]. exists col. split; [apply Hin; by left|done]. }
  apply Hgen; [done|constructor].
Qed.

Lemma classify_metric_names l :
  classify_metric l = lit "Other" \/ In (classify_metric l) metric_names.
Proof.
  unfold classify_metric, CANONICAL_METRICS, first_metric, metric_names.
  repeat (destruct (contains _ (lower l)); [right; cbn; tauto|]). by left.
Qed.

Lemma extends_refl P st : extends P st st.
Proof. exists []. rewrite app_nil_r. cbn. split; [done|]. split; [lia|constructor]. Qed.

Lemma extends_trans P st1 st2 st3 :
  extends P st1 st2 -> extends P st2 st3 -> extends P st1 st3.
Proof.
  intros (n1 & Hf1 & Hc1 & H1) (n2 & Hf2 & Hc2 & H2). exists (n1 ++ n2).
  split; [by rewrite Hf2, Hf1, app_assoc|]. split; [rewrite length_app; lia|].
  by apply Forall_app.
Qed.

Lemma columns_extend P row m currency scale doc col_meta st :
  (forall c value, In c col_meta ->
     P {| f_metric := m; f_value := value; f_unit := currency; f_scale := scale;
          f_period_type := "YEAR"; f_period_value := snd (snd c);
          f_confidence := "HIGH"; f_doc_id := doc |}) ->
  let st' := fold_left (column_step to_float row m currency scale doc) col_meta st in
  extends P st st' /\ st_graph st' = st_graph st /\ st_upserts st' = st_upserts st.
Proof.
  revert st. induction col_meta as [|[k [sc yr]] col_meta IH]; intros st HP; cbn [fold_left].
  - split; [apply extends_refl|done].
  - destruct (IH (column_step to_float row m currency scale doc st (k, (sc, yr))))
      as (Hext & Hg & Hu); [intros c v Hc; apply HP; by right|].
    cbv zeta in *.
    assert (Hstep : extends P st (column_step to_float row m currency scale doc st
                                              (k, (sc, yr))) /\
                    st_graph (column_step to_float row m currency scale doc st
                                          (k, (sc, yr))) = st_graph st /\
                    st_upserts (column_step to_float row m currency scale doc st
                                            (k, (sc, yr))) = st_upserts st).
    { unfold column_step. destruct (normalize_number _ _) as [value|].
      - split; [|done]. eexists [_]. cbn. split; [done|]. split; [lia|].
        constructor; [|constructor]. apply (HP (k, (sc, yr)) value). by left.
      - split; [apply extends_refl|done]. }
    destruct Hstep as (Hext1 & Hg1 & Hu1).
    split; [by eapply extends_trans|]. split; congruence.
Qed.

(** The facts of a row are those of its table, for the document. *)
Lemma row_step_extends doc ts t sid st row st' r :
  In t ts -> is_financial_statement t = true ->
  row_step to_float clock sid doc (t_currency t) (infer_scale (t_currency t))
           (col_meta_of (t_columns t)) st row = (st', r) ->
  extends (fact_ok doc ts) st st'.
Proof.
  intros Ht Hfin. unfold row_step.
  destruct (assoc "item" row) as [label|]; [|intros [= <- _]; apply extends_refl].
  destruct (negb (py_truthy label)); [intros [= <- _]; apply extends_refl|].
  destruct label as [| | | |l| |]; try (intros [= <- _]; apply extends_refl).
  destruct (classify_metric_names l) as [Hother|Hname].
  - rewrite Hother. change (str_eqb (lit "Other") "Other") with true. cbv iota.
    intros [= <- _]. apply extends_refl.
  - destruct (str_eqb (classify_metric l) "Other"); [intros [= <- _]; apply extends_refl|].
    intros [= <- _].
    set (st1 := {| st_graph := _; st_facts := st_facts st;
                   st_upserts := S (st_upserts st); st_created := st_created st |}).
    destruct (columns_extend (fact_ok doc ts) row (classify_metric l) (t_currency t)
                (infer_scale (t_currency t)) doc (col_meta_of (t_columns t)) st1)
      as ((new & Hf & Hc & Hnew) & _).
    + intros c value Hc. unfold fact_ok. cbn.
      pose proof (col_meta_of_spec (t_columns t)) as Hall.
      rewrite List.Forall_forall in Hall.
      destruct (Hall c Hc) as (col & _ & _ & Hp).
      repeat split; try done; [by apply parse_column_digits in Hp|]. by exists t.
    + by exists new.
Qed.

Lemma rows_loop_extends doc ts t sid rows st st' r :
  In t ts -> is_financial_statement t = true ->
  rows_loop to_float clock sid doc (t_currency t) (infer_scale (t_currency t))
            (col_meta_of (t_columns t)) rows st = (st', r) ->
  extends (fact_ok doc ts) st st'.
Proof.
  intros Ht Hfin. revert st.
  induction rows as [|row rows IH]; intros st; cbn [rows_loop].
  - intros [= <- _]. apply extends_refl.
  - destruct (row_step _ _ _ _ _ _ _ st row) as [st1 [u|e]] eqn:Hrow.
    + intros H. eapply extends_trans; [by eapply row_step_extends|by apply IH].
    + intros [= <- _]. by eapply row_step_extends.
Qed.

Lemma table_step_extends doc ts t sid st st' r :
  In t ts ->
  table_step to_float clock sid doc st t = (st', r) ->
  extends (fact_ok doc ts) st st'.
Proof.
  intros Ht. unfold table_step.
  destruct (is_financial_statement t) eqn:Hfin; cbn [negb];
    [|intros [= <- _]; apply extends_refl].
  destruct (col_meta_of (t_columns t)) as [|c cm] eqn:Hcm;
    [intros [= <- _]; apply extends_refl|].
  rewrite <- Hcm. by apply rows_loop_extends.
Qed.

Lemma tables_loop_extends doc ts sid ts' st st' r :
  (forall t, In t ts' -> In t ts) ->
  tables_loop to_float clock sid doc ts' st = (st', r) ->
  extends (fact_ok doc ts) st st'.
Proof.
  revert st. induction ts' as [|t ts' IH]; intros st Hin; cbn [tables_loop].
  - intros [= <- _]. apply extends_refl.
  - destruct (table_step to_float clock sid doc st t) as [st1 [u|e]] eqn:Htab.
    + intros H. eapply extends_trans.
      * eapply table_step_extends; [|exact Htab]. apply Hin. by left.
      * apply IH; [|done]. intros t' Ht'. apply Hin. by right.
    + intros [= <- _]. eapply table_step_extends; [|exact Htab]. apply Hin. by left.
Qed.

(** A row whose keys are not the lower-cased column names gives no
    fact. *)
Lemma columns_without_value row m currency scale doc col_meta st :
  (forall c, In c col_meta -> assoc (fst c) row = None) ->
  st_facts (fold_left (column_step to_float row m currency scale doc) col_meta st)
  = st_facts st /\
  st_created (fold_left (column_step to_float row m currency scale doc) col_meta st)
  = st_created st.
Proof.
  revert st. induction col_meta as [|[k [sc yr]] col_meta IH]; intros st Hk; [done|].
  cbn [fold_left].
  assert (Hstep : column_step to_float row m currency scale doc st (k, (sc, yr)) = st).
  { unfold column_step. pose proof (Hk (k, (sc, yr)) (or_introl eq_refl)) as H0.
    cbn [fst] in H0. by rewrite H0. }
  rewrite Hstep. apply IH. intros c Hc. apply Hk. by right.
Qed.

Lemma row_step_no_facts sid doc currency scale col_meta st row st' r :
  (forall c, In c col_meta -> assoc (fst c) row = None) ->
  row_step to_float clock sid doc currency scale col_meta st row = (st', r) ->
  st_facts st' = st_facts st /\ st_created st' = st_created st.
Proof.
  intros Hk. unfold row_step.
  destruct (assoc "item" row) as [label|]; [|by intros [= <- _]].
  destruct (negb _); [by intros [= <- _]|].
  destruct label; try by intros [= <- _].
  destruct (str_eqb _ _); [by intros [= <- _]|].
  intros [= <- _].
  match goal with
  | |- context [fold_left (column_step _ _ ?m _ _ _) _ ?s1] =>
      destruct (columns_without_value row m currency scale doc col_meta s1 Hk)
        as [Hf Hc]
  end.
  by rewrite Hf, Hc.
Qed.

Lemma rows_loop_no_facts sid doc currency scale col_meta rows st st' r :
  (forall row c, In row rows -> In c col_meta -> assoc (fst c) row = None) ->
  rows_loop to_float clock sid doc currency scale col_meta rows st = (st', r) ->
  st_facts st' = st_facts st /\ st_created st' = st_created st.
Proof.
  revert st. induction rows as [|row rows IH]; intros st Hk; cbn [rows_loop];
    [by intros [= <- _]|].
  destruct (row_step _ _ _ _ _ _ _ st row) as [st1 [u|e]] eqn:Hrow.
  - apply row_step_no_facts in Hrow as [Hf Hc];
      [|intros c Hc; apply Hk; [by left|done]].
    intros H. apply IH in H as [Hf' Hc'];
      [|intros row' c Hr Hc0; apply Hk; [by right|done]].
    split; congruence.
  - intros [= <- _]. apply row_step_no_facts in Hrow; [done|].
    intros c Hc. apply Hk; [by left|done].
Qed.

Lemma table_step_no_facts sid doc t st st' r :
  (forall row col, In row (t_rows t) -> In col (t_columns t) ->
                   parse_column col <> (None, None) -> assoc (lower col) row = None) ->
  table_step to_float clock sid doc st t = (st', r) ->
  st_facts st' = st_facts st /\ st_created st' = st_created st.
Proof.
  intros Hk. unfold table_step.
  destruct (negb _); [by intros [= <- _]|].
  pose proof (col_meta_of_spec (t_columns t)) as Hmeta.
  destruct (col_meta_of (t_columns t)) as [|c0 cm] eqn:Hcm; [by intros [= <- _]|].
  rewrite <- Hcm in *. apply rows_loop_no_facts.
  intros row c Hrow Hc. rewrite List.Forall_forall in Hmeta.
  destruct (Hmeta c Hc) as (col & Hcol & -> & Hp).
  apply Hk; [done|done|]. by rewrite Hp.
Qed.

Lemma tables_loop_no_facts sid doc ts st st' r :
  (forall t row col, In t ts -> In row (t_rows t) -> In col (t_columns t) ->
                     parse_column col <> (None, None) -> assoc (lower col) row = None) ->
  tables_loop to_float clock sid doc ts st = (st', r) ->
  st_facts st' = st_facts st /\ st_created st' = st_created st.
Proof.
  revert st. induction ts as [|t ts IH]; intros st Hk; cbn [tables_loop];
    [by intros [= <- _]|].
  destruct (table_step _ _ _ _ st t) as [st1 [u|e]] eqn:Htab.
  - apply table_step_no_facts in Htab as [Hf Hc];
      [|intros row col; apply Hk; by left].
    intros H. apply IH in H as [Hf' Hc'];
      [|intros t' row col Ht'; apply Hk; by right].
    split; congruence.
  - intros [= <- _]. apply table_step_no_facts in Htab; [done|].
    intros row col; apply Hk; by left.
Qed.

Lemma fact_ok_incl doc ts ts' f :
  (forall t, In t ts -> In t ts') -> fact_ok doc ts f -> fact_ok doc ts' f.
Proof.
  intros Hincl (? & ? & ? & ? & ? & t & Ht & ?). repeat split; try done.
  exists t. split; [by apply Hincl|done].
Qed.

(** The facts of one section, and the count returned. *)
Lemma extract_facts_from_tables_new s doc st st' r :
  extract_facts_from_tables to_float clock s doc st = (st', r) ->
  exists new,
    st_facts st' = st_facts st ++ new /\
    Forall (fact_ok doc (tables s)) new /\
    (forall n, r = Ok n -> n = Z.of_nat (length new)).
Proof.
  unfold extract_facts_from_tables.
  set (st0 := {| st_graph := _; st_facts := _; st_upserts := _; st_created := 0 |}).
  destruct (tables_loop _ _ _ _ _ st0) as [st1 [u|e]] eqn:Hloop;
    intros [= <- <-];
    apply tables_loop_extends with (ts := tables s) in Hloop
      as (new & Hf & Hc & Hnew); try done;
    exists new; (split; [exact Hf|]); (split; [exact Hnew|]).
  - intros n [= <-]. rewrite Hc. cbn. lia.
  - done.
Qed.

Lemma document_loop_facts all sections doc total st st' r :
  (forall s, In s sections -> In s all) ->
  document_loop to_float clock sections doc total st = (st', r) ->
  exists new,
    st_facts st' = st_facts st ++ new /\
    Forall (fact_ok doc (flat_map tables all)) new /\
    (forall n, r = Ok n -> n = total + Z.of_nat (length new)).
Proof.
  revert total st. induction sections as [|s sections IH]; intros total st Hin;
    cbn [document_loop].
  - intros [= <- <-]. exists []. rewrite app_nil_r. split; [done|].
    split; [constructor|]. intros n [= <-]. cbn. lia.
  - destruct (extract_facts_from_tables to_float clock s doc st) as [st1 r1] eqn:Hsec.
    apply extract_facts_from_tables_new in Hsec as (new1 & Hf1 & Hok1 & Hn1).
    assert (Hok1' : Forall (fact_ok doc (flat_map tables all)) new1).
    { eapply Forall_impl; [exact Hok1|]. intros f. apply fact_ok_incl.
      intros t Ht. apply in_flat_map. exists s. split; [apply Hin; by left|done]. }
    destruct r1 as [n1|e].
    + intros H. apply IH in H as (new2 & Hf2 & Hok2 & Hn2);
        [|intros s' Hs'; apply Hin; by right].
      exists (new1 ++ new2). split; [by rewrite Hf2, Hf1, app_assoc|].
      split; [by apply Forall_app|].
      intros n Hr. rewrite (Hn2 n Hr), (Hn1 n1 eq_refl), length_app. lia.
    + intros [= <- <-]. exists new1. split; [done|]. split; [done|]. done.
Qed.

End FactsOfTables.


(** X26: whatever [extract_facts_from_tables] does, it appends facts to
    those written before, and each new fact is well formed: its metric is
    one of Assets, Liabilities, Equity, Revenue, Profit and CashFlow
    (never Other), its period type is YEAR, its confidence HIGH, its
    document the one given, its period value a string of digits, and its
    unit and scale are the currency of a table of the section that has
    type "financial_statement", and the scale inferred from it.  When
    the call returns, the count it returns is the number of new facts. *)
Theorem extract_facts_from_tables_facts
        (to_float : Json.json -> option float) (clock : nat -> Z)
        (s : FinancialTables.section) (doc_id : str)
        (st st' : FinancialTables.state) (r : result Z) :
  FinancialTables.extract_facts_from_tables to_float clock s doc_id st = (st', r) ->
  exists new,
    FinancialTables.st_facts st' = FinancialTables.st_facts st ++ new /\
    Forall (FinancialTables.fact_ok doc_id (FinancialTables.tables s)) new /\
    (forall n, r = Ok n -> n = Z.of_nat (length new)).
Proof.
  apply extract_facts_from_tables_new.
Qed.

Lemma extract_facts_from_tables_facts_witness :
  let balance :=
    {| FinancialTables.t_type := Some (lit "financial_statement");
       FinancialTables.t_currency := "Rs.'000";
       FinancialTables.t_columns := ["item" : str; "group_2024" : str];
       FinancialTables.t_rows :=
         [[("item" : str, Json.JStr "Total assets");
           ("group_2024" : str, Json.JInt 100)]] |} in
  let s := {| FinancialTables.section_id := "s1"; FinancialTables.tables := [balance] |} in
  let to_float := fun v => match v with
                           | Json.JInt n => Some (PrimFloat.of_uint63 (Uint63.of_Z n))
                           | _ => None
                           end in
  let st := {| FinancialTables.st_graph := Neo4j.empty_graph;
               FinancialTables.st_facts := []; FinancialTables.st_upserts := 0;
               FinancialTables.st_created := 0 |} in
  exists st' new,
    FinancialTables.extract_facts_from_tables to_float (fun _ => 0) s "doc-1" st
    = (st', Ok 1) /\
    FinancialTables.st_facts st' = [] ++ new /\
    map FinancialTables.f_metric new = ["Assets" : str] /\
    map FinancialTables.f_scale new = ["THOUSANDS" : str] /\
    Forall (FinancialTables.fact_ok "doc-1" [balance]) new.
Proof.
  intros balance s to_float st.
  destruct (FinancialTables.extract_facts_from_tables to_float (fun _ => 0) s "doc-1" st)
    as [st' r] eqn:Hrun.
  destruct (extract_facts_from_tables_facts to_float (fun _ => 0) s "doc-1" st st' r Hrun)
    as (new & Hf & Hok & Hn).
  exists st', new.
  assert (Hr : r = Ok 1) by (revert Hrun; vm_compute; by intros [= _ <-]).
  assert (Hfacts : map FinancialTables.f_metric (FinancialTables.st_facts st')
                   = ["Assets" : str] /\
                   map FinancialTables.f_scale (FinancialTables.st_facts st')
                   = ["THOUSANDS" : str]).
  { revert Hrun. vm_compute. intros [= <- _]. by split. }
  rewrite Hf in Hfacts. cbn [app] in Hfacts, Hf. destruct Hfacts as [Hm Hs].
  by rewrite Hr.
Defined.

(** X27: [extract_facts_from_tables] keys [col_meta] by the lower-cased
    column name and reads each row under that key.  So when no row of the
    section holds a value under the lower-cased name of a column that
    parses (as when the rows are keyed by the column names as written,
    "Group_2024"), no fact is written, whatever the rows hold, and a call
    that returns returns 0. *)
Theorem extract_facts_from_tables_lower_case_keys
        (to_float : Json.json -> option float) (clock : nat -> Z)
        (s : FinancialTables.section) (doc_id : str)
        (st st' : FinancialTables.state) (r : result Z) :
  (forall t row col,
      In t (FinancialTables.tables s) -> In row (FinancialTables.t_rows t) ->
      In col (FinancialTables.t_columns t) ->
      FinancialFacts.parse_column col <> (None, None) ->
      Json.assoc (lower col) row = None) ->
  FinancialTables.extract_facts_from_tables to_float clock s doc_id st = (st', r) ->
  FinancialTables.st_facts st' = FinancialTables.st_facts st /\
  (forall n, r = Ok n -> n = 0).
Proof.
  intros Hkeys. unfold FinancialTables.extract_facts_from_tables.
  set (st0 := {| FinancialTables.st_graph := _; FinancialTables.st_facts := _;
                 FinancialTables.st_upserts := _; FinancialTables.st_created := 0 |}).
  destruct (FinancialTables.tables_loop _ _ _ _ _ st0) as [st1 [u|e]] eqn:Hrun;
    intros [= <- <-]; apply tables_loop_no_facts in Hrun as [Hf Hc]; try done.
  split; [done|]. intros n [= <-]. by rewrite Hc.
Qed.

Lemma extract_facts_from_tables_lower_case_keys_witness :
  let balance :=
    {| FinancialTables.t_type := Some (lit "financial_statement");
       FinancialTables.t_currency := "Rs.'000";
       FinancialTables.t_columns := ["item" : str; "Group_2024" : str];
       FinancialTables.t_rows :=
         [[("item" : str, Json.JStr "Total assets");
           ("Group_2024" : str, Json.JInt 100)]] |} in
  let s := {| FinancialTables.section_id := "s1"; FinancialTables.tables := [balance] |} in
  let to_float := fun v => match v with
                           | Json.JInt n => Some (PrimFloat.of_uint63 (Uint63.of_Z n))
                           | _ => None
                           end in
  let st := {| FinancialTables.st_graph := Neo4j.empty_graph;
               FinancialTables.st_facts := []; FinancialTables.st_upserts := 0;
               FinancialTables.st_created := 0 |} in
  exists st',
    FinancialTables.extract_facts_from_tables to_float (fun _ => 0) s "doc-1" st
    = (st', Ok 0) /\
    FinancialTables.st_facts st' = [].
Proof.
  intros balance s to_float st.
  destruct (FinancialTables.extract_facts_from_tables to_float (fun _ => 0) s "doc-1" st)
    as [st' r] eqn:Hrun.
  assert (Hr : r = Ok 0) by (revert Hrun; vm_compute; by intros [= _ <-]).
  exists st'. rewrite Hr in *. split; [done|].
  refine (proj1 (extract_facts_from_tables_lower_case_keys to_float (fun _ => 0) s
                   "doc-1" st st' (Ok 0) _ Hrun)).
  intros t row col [<-|[]] [<-|[]] [<-|[<-|[]]] Hp; [by destruct Hp|reflexivity].
Defined.

(** X28: the total [extract_financial_facts_from_document] returns is
    the number of [create_financial_fact] calls made over all sections,
    and every fact written is well formed for the document: a canonical
    metric, period type YEAR, confidence HIGH, a period value of digits,
    and the currency and inferred scale of a financial-statement table of
    one of the sections. *)
Theorem extract_financial_facts_from_document_total
        (to_float : Json.json -> option float) (clock : nat -> Z)
        (sections : list FinancialTables.section) (doc_id : str) (g : Neo4j.graph)
        (st' : FinancialTables.state) (total : Z) :
  FinancialTables.extract_financial_facts_from_document to_float clock sections doc_id g
  = (st', Ok total) ->
  total = Z.of_nat (length (FinancialTables.st_facts st')) /\
  Forall (FinancialTables.fact_ok doc_id (flat_map FinancialTables.tables sections))
         (FinancialTables.st_facts st').
Proof.
  unfold FinancialTables.extract_financial_facts_from_document. intros Hrun.
  apply (document_loop_facts to_float clock sections) in Hrun
    as (new & Hf & Hok & Hn); [|done].
  cbn [FinancialTables.st_facts app] in Hf. rewrite Hf.
  split; [|done]. rewrite (Hn total eq_refl). lia.
Qed.

Lemma extract_financial_facts_from_document_total_witness :
  let balance y :=
    {| FinancialTables.t_type := Some (lit "financial_statement");
       FinancialTables.t_currency := "USD million";
       FinancialTables.t_columns := ["item" : str; y];
       FinancialTables.t_rows :=
         [[("item" : str, Json.JStr "Revenue"); (y, Json.JInt 7)];
          [("item" : str, Json.JStr "Net loss"); (y, Json.JStr "-")]] |} in
  let sections :=
    [{| FinancialTables.section_id := "s1";
        FinancialTables.tables := [balance (lit "group_2024")] |};
     {| FinancialTables.section_id := "s2";
        FinancialTables.tables := [balance (lit "company_2023")] |}] in
  let to_float := fun v => match v with
                           | Json.JInt n => Some (PrimFloat.of_uint63 (Uint63.of_Z n))
                           | _ => None
                           end in
  exists st',
    FinancialTables.extract_financial_facts_from_document to_float (fun _ => 0)
      sections "doc-1" Neo4j.empty_graph = (st', Ok 2) /\
    2 = Z.of_nat (length (FinancialTables.st_facts st')).
Proof.
  intros balance sections to_float.
  destruct (FinancialTables.extract_financial_facts_from_document to_float (fun _ => 0)
              sections "doc-1" Neo4j.empty_graph) as [st' r] eqn:Hrun.
  assert (Hr : r = Ok 2) by (revert Hrun; vm_compute; by intros [= _ <-]).
  exists st'. rewrite Hr in *. split; [done|].
  exact (proj1 (extract_financial_facts_from_document_total to_float (fun _ => 0)
                  sections "doc-1" Neo4j.empty_graph st' 2 Hrun)).
Defined.
